(** * Exam scheduler backend: a shallow embedding of the allocation core

    The development follows the Python sources
      - [app/parsers.py]    (date sorter, register numbers),
      - [app/scheduler.py]  (date selector, allocation engine),
      - [app/validators.py] (request validation),
      - [app/models.py]     (the records exchanged between them),
      - [app/formatter.py]  (the response and its schema check),
      - [app/main.py]       (the endpoints that compose them).

    Python values are modelled as follows.
      - [str] is [string]: the UTF-8 bytes of the text.  Comparing byte
        strings lexicographically orders them as Python orders [str] (by
        code point).  Whitespace and digits are the ASCII ones, so that
        [strip], the class [\s] and [strptime] are those of Python on text
        made of ASCII characters; the statements that need it say so
        ([ascii_text]).
      - [int] is [Z]; lengths and indices that cannot be negative are [nat].
        [math.ceil(n / 125)] goes through a float: it is the integer
        ceiling up to [125 * 2^47] in magnitude, and the statements that
        need it say so ([exact_count]).
      - the constructors of the pydantic models check their fields.  The
        engine is given twice: [Allocation] computes the schedules of a
        run, [Run] is the run itself, which returns them or raises.
      - [dict] with keys whose order is never observed is a [gmap]; the tally
        dictionary whose insertion order decides [max] is an association
        list in first-insertion order.
      - a raised exception is the [Raise] case of [result].
      - [datetime] is the number of microseconds since the midnight that
        precedes 0001-01-01 (so that a date of ordinal [o] at midnight is
        [o * usec_per_day]). *)

From Stdlib Require Import ZArith String Ascii List Sorted Permutation Lia.
From stdpp Require Import gmap strings list sorting pretty.

Local Open Scope Z_scope.

(** ** Python built-ins used by the sources *)

Module Py.

Inductive exn : Type :=
| ValueError
| IndexError.

Inductive result (A : Type) : Type :=
| Ok (a : A)
| Raise (e : exn).
Global Arguments Ok {A} a.
Global Arguments Raise {A} e.

Definition bind {A B} (r : result A) (k : A -> result B) : result B :=
  match r with
  | Ok a => k a
  | Raise e => Raise e
  end.

Definition returns {A} (r : result A) : Prop :=
  exists a, r = Ok a.

(** [[f(x) for x in l]] where [f] may raise: the first failure aborts. *)
Fixpoint map_result {A B} (f : A -> result B) (l : list A) : result (list B) :=
  match l with
  | [] => Ok []
  | x :: l' =>
      bind (f x) (fun y => bind (map_result f l') (fun ys => Ok (y :: ys)))
  end.

(** [str.strip()]: leading and trailing whitespace removed.  [is_space] is
    [str.isspace] on the ASCII characters; Python also counts U+0085,
    U+00A0 and the other whitespace of Unicode, which no ASCII text
    holds. *)
Definition is_space (c : ascii) : bool :=
  let n := N_of_ascii c in
  ((9 <=? n) && (n <=? 13) || (28 <=? n) && (n <=? 32))%N.

Fixpoint lstrip (s : string) : string :=
  match s with
  | EmptyString => EmptyString
  | String c s' => if is_space c then lstrip s' else s
  end.

Definition rstrip (s : string) : string :=
  String.rev (lstrip (String.rev s)).

Definition strip (s : string) : string := rstrip (lstrip s).

(** [l[a:b]] for indices [0 <= a], [0 <= b]. *)
Definition slice {A} (l : list A) (a b : nat) : list A :=
  take (b - a) (drop a l).

(** [l[:n]] for any integer [n]: a negative [n] counts from the end. *)
Definition slice_to {A} (l : list A) (n : Z) : list A :=
  if n <? 0 then take (Z.to_nat (Z.of_nat (length l) + n)) l
  else take (Z.to_nat n) l.

(** [l[-1]] *)
Definition last_item {A} (l : list A) : result A :=
  match last l with
  | Some x => Ok x
  | None => Raise IndexError
  end.

(** [l[0]] *)
Definition first_item {A} (l : list A) : result A :=
  match l with
  | x :: _ => Ok x
  | [] => Raise IndexError
  end.

(** [math.ceil(a / b)] for a positive [b].  The source divides in floating
    point; the quotient of a candidate count by 125 is exact enough for
    the ceiling to be the integer one for every count up to [125 * 2^47]
    in magnitude.  Past that the float quotient can be one too small, and
    past the range of floats the division raises [OverflowError]. *)
Definition ceil_div (a b : Z) : Z := - ((- a) / b).

(** [sorted(l, key=...)], [list.sort(key=...)]: the sort is stable, which
    fixes its result; an insertion sort that puts an element before the
    first one of the sorted tail whose key is not smaller computes it. *)
Section StableSort.
Context {A : Type} (key : A -> Z).

Fixpoint insert_by (x : A) (l : list A) : list A :=
  match l with
  | [] => [x]
  | y :: l' => if key x <=? key y then x :: y :: l' else y :: insert_by x l'
  end.

Fixpoint stable_sort (l : list A) : list A :=
  match l with
  | [] => []
  | x :: l' => insert_by x (stable_sort l')
  end.
End StableSort.

(** [sorted(set(l))] over strings: the distinct elements in ascending
    order. *)
Fixpoint insert_str (x : string) (l : list string) : list string :=
  match l with
  | [] => [x]
  | y :: l' => if String.leb x y then x :: y :: l' else y :: insert_str x l'
  end.

Definition sorted_set (l : list string) : list string :=
  foldr insert_str [] (remove_dups l).

(** [sep.join(l)] *)
Definition join (sep : string) (l : list string) : string :=
  String.concat sep l.

End Py.

Import Py.

(** The notation [x ← r; k] of stdpp's monads, for [result]. *)
Global Instance result_ret : MRet result := @Ok.
Global Instance result_bind : MBind result := fun A B k r => Py.bind r k.

(** ** [datetime]: ordinals, [strptime] with the format [%d-%m-%y] *)

Module Datetime.

Definition datetime : Type := Z.

Definition usec_per_day : Z := 86400000000.

Definition is_leap (y : Z) : bool :=
  (y mod 4 =? 0) && (negb (y mod 100 =? 0) || (y mod 400 =? 0)).

Definition days_before_year (y : Z) : Z :=
  let y1 := y - 1 in
  y1 * 365 + y1 / 4 - y1 / 100 + y1 / 400.

Definition days_in_month (y m : Z) : Z :=
  if m =? 2 then (if is_leap y then 29 else 28)
  else if (m =? 4) || (m =? 6) || (m =? 9) || (m =? 11) then 30
  else 31.

Definition days_before_month (y m : Z) : Z :=
  foldr (fun k acc => days_in_month y k + acc) 0
        (map Z.of_nat (seq 1 (Z.to_nat (m - 1)))).

Definition ymd2ord (y m d : Z) : Z :=
  days_before_year y + days_before_month y m + d.

(** [datetime(y, m, d)]: midnight of that day; [ValueError] when the day
    does not exist in the month. *)
Definition make_datetime (y m d : Z) : result datetime :=
  if (1 <=? m) && (m <=? 12) && (1 <=? d) && (d <=? days_in_month y m)
  then Ok (ymd2ord y m d * usec_per_day)
  else Raise ValueError.

(** [datetime.max] is 9999-12-31 23:59:59.999999. *)
Definition datetime_max : datetime :=
  ymd2ord 9999 12 31 * usec_per_day + (usec_per_day - 1).

(** [(d2 - d1).days] *)
Definition timedelta_days (d2 d1 : datetime) : Z :=
  (d2 - d1) / usec_per_day.

(** A decimal digit of ASCII.  [strptime] also reads the decimal digits of
    the other scripts of Unicode, which no ASCII text holds. *)
Definition digit (c : ascii) : option Z :=
  let n := Z.of_N (N_of_ascii c) in
  if (48 <=? n) && (n <=? 57) then Some (n - 48) else None.

Fixpoint split_on (sep : ascii) (s : string) : list string :=
  match s with
  | EmptyString => [EmptyString]
  | String c s' =>
      if Ascii.eqb c sep then EmptyString :: split_on sep s'
      else match split_on sep s' with
           | w :: ws => String c w :: ws
           | [] => [String c EmptyString]
           end
  end.

(** The directive [%d]: [3[0-1]|[1-2]\d|0[1-9]|[1-9]| [1-9]]. *)
Definition directive_d (s : string) : option Z :=
  match s with
  | String c EmptyString =>
      match digit c with
      | Some v => if 1 <=? v then Some v else None
      | None => None
      end
  | String c1 (String c2 EmptyString) =>
      match digit c2 with
      | None => None
      | Some v2 =>
          if Ascii.eqb c1 " "%char then (if 1 <=? v2 then Some v2 else None)
          else match digit c1 with
               | Some 0 => if 1 <=? v2 then Some v2 else None
               | Some 1 => Some (10 + v2)
               | Some 2 => Some (20 + v2)
               | Some 3 => if v2 <=? 1 then Some (30 + v2) else None
               | _ => None
               end
      end
  | _ => None
  end.

(** The directive [%m]: [1[0-2]|0[1-9]|[1-9]]. *)
Definition directive_m (s : string) : option Z :=
  match s with
  | String c EmptyString =>
      match digit c with
      | Some v => if 1 <=? v then Some v else None
      | None => None
      end
  | String c1 (String c2 EmptyString) =>
      match digit c1, digit c2 with
      | Some 0, Some v2 => if 1 <=? v2 then Some v2 else None
      | Some 1, Some v2 => if v2 <=? 2 then Some (10 + v2) else None
      | _, _ => None
      end
  | _ => None
  end.

(** The directive [%y]: two digits; 00..68 are 2000..2068 and 69..99 are
    1969..1999. *)
Definition directive_y (s : string) : option Z :=
  match s with
  | String c1 (String c2 EmptyString) =>
      match digit c1, digit c2 with
      | Some v1, Some v2 =>
          let yy := 10 * v1 + v2 in
          Some (if yy <=? 68 then 2000 + yy else 1900 + yy)
      | _, _ => None
      end
  | _ => None
  end.

(** [datetime.strptime(s, '%d-%m-%y')].  The format's regular expression
    has no hyphen inside a directive, so a string matches exactly when it
    consists of three hyphen-separated fields, one per directive, with
    nothing left over. *)
Definition strptime (s : string) : result datetime :=
  match split_on "-"%char s with
  | [fd; fm; fy] =>
      match directive_d fd, directive_m fm, directive_y fy with
      | Some d, Some m, Some y => make_datetime y m d
      | _, _, _ => Raise ValueError
      end
  | _ => Raise ValueError
  end.

End Datetime.

Import Datetime.

(** ** [app/models.py] *)

Module Models.

Record Examiner : Type := mkExaminer {
  examiner_id : string;
  examiner_name : string
}.

Record Batch : Type := mkBatch {
  batch_name : string;
  batch_register_numbers : list string
}.

Record Semester : Type := mkSemester {
  semester_name : string;
  batches : list Batch
}.

Record TimeSlot : Type := mkTimeSlot {
  time : string;
  session : string;
  capacity : nat;
  register_numbers : list string
}.

Record LabSchedule : Type := mkLabSchedule {
  date : string;
  subject : option string;
  lab : string;
  slots : list TimeSlot;
  internal_examiner : option Examiner;
  external_examiner : option Examiner;
  semester : option string;
  batch : option string
}.

Record ValidationError : Type := mkValidationError {
  field : string;
  message : string
}.

(** The fields of [ScheduleRequest] that validation reads.  The metadata
    is never inspected ([validate_exam_metadata] ignores its argument). *)
Record ScheduleRequest : Type := mkScheduleRequest {
  req_register_numbers : list string;
  req_dates : list string;
  req_labs : list string;
  req_internal_examiners : list Examiner;
  req_external_examiners : list Examiner
}.

(** The field constraints that [TimeSlot] and [LabSchedule] declare and
    that their constructors check: [session] matches
    [^(forenoon|afternoon)$], [0 <= capacity <= 13], [lab] is not empty,
    [slots] has exactly two entries.  For lab names that are not empty
    every schedule that the engine builds meets these constraints (lemma
    [allocate_students_fields_ok] below).  The constructors are plain
    record constructions in [Allocation], which computes the schedules of a
    run; the checks, and the error they raise, are in [Run], and a run
    that returns returns the schedules of [Allocation] (lemma
    [run_allocate_students_agrees]). *)
Definition TimeSlot_fields_ok (t : TimeSlot) : Prop :=
  (session t = "forenoon" \/ session t = "afternoon") /\ (capacity t <= 13)%nat.

Definition LabSchedule_fields_ok (s : LabSchedule) : Prop :=
  lab s <> "" /\ length (slots s) = 2%nat /\ Forall TimeSlot_fields_ok (slots s).

End Models.

Import Models.

(** ** [app/parsers.py] *)

Module Parsers.

(** The sort key that [parse_dates] gives a token: its date, or
    [datetime.max] when [strptime] raises [ValueError]. *)
Definition date_key (stripped : string) : datetime :=
  match strptime stripped with
  | Ok dt => dt
  | Raise _ => datetime_max
  end.

Definition parse_dates (date_strings : list string) : list string :=
  match date_strings with
  | [] => []
  | _ =>
      let parsed :=
        map (fun date_str => (date_key (strip date_str), strip date_str))
            date_strings in
      map snd (stable_sort fst parsed)
  end.

End Parsers.

(** ** [app/scheduler.py] *)

Module Scheduler.

Definition STUDENTS_PER_LAB : nat := 25.
Definition FORENOON_CAPACITY : nat := 13.
Definition AFTERNOON_CAPACITY : nat := 12.
Definition LABS_PER_DAY : nat := 5.
Definition DAILY_CAPACITY : nat := (STUDENTS_PER_LAB * LABS_PER_DAY)%nat.

Definition FORENOON_TIME : string := "09:30 am - 12:30 pm".
Definition AFTERNOON_TIME : string := "01:30 pm - 04:30 pm".

Definition parse_date (date_str : string) : result datetime :=
  strptime date_str.

Definition date_diff_days (date1 date2 : string) : result Z :=
  d1 ← parse_date date1;
  d2 ← parse_date date2;
  mret (Z.abs (timedelta_days d2 d1)).

(** The explanation string of [select_optimal_dates], as the values its
    f-string interpolates.  [Selected n count gaps] stands for
    "Selected n dates for count students", followed, when [gaps] is not
    empty, by the average of [gaps] printed with one decimal. *)
Inductive explanation : Type :=
| NoDatesProvided
| NoStudents
| OnlyAvailable (available : nat) (required_days student_count : Z)
| SelectedOne (student_count : Z)
| GapRelaxed (selected : nat)
| Selected (selected : nat) (student_count : Z) (gaps : list Z).

(** The loop [for date in sorted_dates[1:]] of the gap search. *)
Fixpoint gap_walk (required_days min_gap_days : Z)
    (rest : list string) (selected : list string) : result (list string) :=
  match rest with
  | [] => Ok selected
  | date :: rest' =>
      if Z.of_nat (length selected) >=? required_days then Ok selected
      else
        last_sel ← last_item selected;
        gap ← date_diff_days last_sel date;
        if gap >=? min_gap_days
        then gap_walk required_days min_gap_days rest' (selected ++ [date])
        else gap_walk required_days min_gap_days rest' selected
  end.

(** The loop [for i in range(1, len(selected))] that collects the gaps
    between neighbours. *)
Fixpoint actual_gaps (selected : list string) : result (list Z) :=
  match selected with
  | [] => Ok []
  | d1 :: rest =>
      match rest with
      | [] => Ok []
      | d2 :: _ =>
          gap ← date_diff_days d1 d2;
          gaps ← actual_gaps rest;
          mret (gap :: gaps)
      end
  end.

(** [sorted(available_dates, key=lambda d: parse_date(d))]: every key is
    computed before the sort, so one malformed token makes it raise. *)
Definition sorted_by_date (available_dates : list string) : result (list string) :=
  keys ← map_result parse_date available_dates;
  mret (map snd (stable_sort fst (zip keys available_dates))).

(** Lines 98-109: the gaps actually obtained, for the message. *)
Definition with_gap_message (student_count : Z) (selected : list string)
    : result (list string * explanation) :=
  gaps ← actual_gaps selected;
  mret (selected, Selected (length selected) student_count gaps).

Definition select_optimal_dates (available_dates : list string)
    (student_count : Z) (min_gap_days : Z) : result (list string * explanation) :=
  match available_dates with
  | [] => Ok ([], NoDatesProvided)
  | _ =>
      let required_days := ceil_div student_count (Z.of_nat DAILY_CAPACITY) in
      if required_days =? 0 then Ok ([], NoStudents)
      else
        sorted_dates ← sorted_by_date available_dates;
        if Z.of_nat (length sorted_dates) <? required_days
        then Ok (sorted_dates,
                 OnlyAvailable (length sorted_dates) required_days student_count)
        else if required_days =? 1
        then first ← first_item sorted_dates;
             mret ([first], SelectedOne student_count)
        else if min_gap_days <=? 1
        then with_gap_message student_count (slice_to sorted_dates required_days)
        else
          first ← first_item sorted_dates;
          selected ← gap_walk required_days min_gap_days
                       (drop 1 sorted_dates) [first];
          if Z.of_nat (length selected) <? required_days
          then
            let relaxed := slice_to sorted_dates required_days in
            Ok (relaxed, GapRelaxed (length relaxed))
          else with_gap_message student_count selected
  end.

End Scheduler.

(** ** [app/scheduler.py]: the allocation engine *)

Module Allocation.
Import Scheduler.

Definition create_time_slot (session : string) (register_numbers : list string)
    : TimeSlot :=
  if decide (session = "forenoon")
  then mkTimeSlot FORENOON_TIME "forenoon" (length register_numbers) register_numbers
  else mkTimeSlot AFTERNOON_TIME "afternoon" (length register_numbers) register_numbers.

Definition split_into_slots (students : list string) : list string * list string :=
  let forenoon := slice students 0 FORENOON_CAPACITY in
  let afternoon :=
    slice students FORENOON_CAPACITY (FORENOON_CAPACITY + AFTERNOON_CAPACITY) in
  (forenoon, afternoon).

Definition create_lab_schedule (date lab : string) (students : list string)
    (internal_examiner external_examiner : option Examiner)
    (semester batch subject : option string) : LabSchedule :=
  let '(forenoon_students, afternoon_students) := split_into_slots students in
  let slots :=
    [ create_time_slot "forenoon" forenoon_students;
      create_time_slot "afternoon" afternoon_students ] in
  mkLabSchedule date subject lab slots internal_examiner external_examiner
                semester batch.

(** The lookup from register number to [(semester, batch label)]: a later
    batch that lists a register number again overwrites the earlier
    entry. *)
Definition build_reg_to_sem_batch (semesters : list Semester)
    : gmap string (string * string) :=
  foldl (fun m sem =>
    foldl (fun m b =>
      foldl (fun m reg_no =>
               <[reg_no := (semester_name sem, semester_name sem +:+ batch_name b)]> m)
            m (batch_register_numbers b))
      m (batches sem))
    ∅ semesters.

(** [batch_counts[k] = batch_counts.get(k, 0) + 1] on a dictionary kept
    in first-insertion order. *)
Fixpoint tally_add (k : string * string) (counts : list ((string * string) * nat))
    : list ((string * string) * nat) :=
  match counts with
  | [] => [(k, 1%nat)]
  | (k', n) :: rest =>
      if decide (k' = k) then (k', S n) :: rest
      else (k', n) :: tally_add k rest
  end.

Definition tally_chunk (reg_to_sem_batch : gmap string (string * string))
    (chunk : list string) : list ((string * string) * nat) :=
  foldl (fun counts reg_no =>
           match reg_to_sem_batch !! reg_no with
           | Some sem_batch => tally_add sem_batch counts
           | None => counts
           end)
        [] chunk.

(** [max(items, key=lambda x: x[1])]: the running maximum is replaced only
    by a strictly larger count, so the first maximal item wins. *)
Fixpoint max_from (best : (string * string) * nat)
    (items : list ((string * string) * nat)) : (string * string) * nat :=
  match items with
  | [] => best
  | x :: rest => max_from (if (snd best <? snd x)%nat then x else best) rest
  end.

(** Lines 369-387 (and 310-325): the semester and batch fields of a
    chunk's schedule. *)
Definition chunk_cohort (reg_to_sem_batch : gmap string (string * string))
    (chunk : list string) : option string * option string :=
  if decide (reg_to_sem_batch = ∅) then (None, None)
  else
    let batch_counts := tally_chunk reg_to_sem_batch chunk in
    match batch_counts with
    | [] => (None, None)
    | first :: rest =>
        let most_common := max_from first rest in
        let '(semester, batch) := fst most_common in
        if (1 <? length batch_counts)%nat
        then
          let all_batches := sorted_set (map (fun kv => snd (fst kv)) batch_counts) in
          (Some semester, Some (join ", " all_batches))
        else (Some semester, Some batch)
    end.

(** [examiners[lab_index % len(examiners)]], when the pool is not empty. *)
Definition pick_examiner (examiners : list Examiner) (lab_index : nat)
    : option Examiner :=
  match examiners with
  | [] => None
  | _ => examiners !! (lab_index mod length examiners)%nat
  end.

Section Engine.
Context (internal_examiners external_examiners : list Examiner)
        (reg_to_sem_batch : gmap string (string * string)).

(** The loop [for lab_index, lab in enumerate(labs)] over the candidates
    [students] of which [student_index] are already placed; it returns
    the new index and the schedules appended. *)
Fixpoint lab_loop (date : string) (subject : option string)
    (students : list string) (labs : list (nat * string))
    (student_index : nat) (schedules : list LabSchedule)
    : nat * list LabSchedule :=
  match labs with
  | [] => (student_index, schedules)
  | (lab_index, lab) :: rest =>
      let total_students := length students in
      if (total_students <=? student_index)%nat then (student_index, schedules)
      else
        let chunk_end := Nat.min (student_index + STUDENTS_PER_LAB) total_students in
        let chunk := slice students student_index chunk_end in
        match chunk with
        | [] => lab_loop date subject students rest student_index schedules
        | _ =>
            let internal_exam := pick_examiner internal_examiners lab_index in
            let external_exam := pick_examiner external_examiners lab_index in
            let '(semester, batch) := chunk_cohort reg_to_sem_batch chunk in
            let schedule :=
              create_lab_schedule date lab chunk internal_exam external_exam
                                  semester batch subject in
            lab_loop date subject students rest chunk_end (schedules ++ [schedule])
        end
  end.

Definition enumerate (labs : list string) : list (nat * string) :=
  zip (seq 0 (length labs)) labs.

(** Date-keyed mode: every date starts from its own list at index 0. *)
Fixpoint date_keyed_loop (date_subjects : gmap string string)
    (date_register_numbers : gmap string (list string))
    (labs : list string) (dates : list string)
    (schedules : list LabSchedule) : list LabSchedule :=
  match dates with
  | [] => schedules
  | date :: rest =>
      let date_students := default [] (date_register_numbers !! date) in
      let subject := date_subjects !! date in
      let '(_, schedules') :=
        lab_loop date subject date_students (enumerate labs) 0%nat schedules in
      date_keyed_loop date_subjects date_register_numbers labs rest schedules'
  end.

(** Sequential mode: one index runs through [register_numbers]. *)
Fixpoint sequential_loop (date_subjects : gmap string string)
    (register_numbers : list string) (labs : list string) (dates : list string)
    (student_index : nat) (schedules : list LabSchedule) : list LabSchedule :=
  match dates with
  | [] => schedules
  | date :: rest =>
      if (length register_numbers <=? student_index)%nat then schedules
      else
        let subject := date_subjects !! date in
        let '(student_index', schedules') :=
          lab_loop date subject register_numbers (enumerate labs)
                   student_index schedules in
        sequential_loop date_subjects register_numbers labs rest
                        student_index' schedules'
  end.
End Engine.

(** [allocate_students].  An optional argument left out ([None]) is
    replaced by the empty list or dictionary on entry ([x or []]), and the
    tests [if semesters:] and [if date_register_numbers:] treat [None] and
    empty alike, so the arguments are taken in that normal form. *)
Definition allocate_students (register_numbers dates labs : list string)
    (internal_examiners external_examiners : list Examiner)
    (semesters : list Semester)
    (date_subjects : gmap string string)
    (date_register_numbers : gmap string (list string)) : list LabSchedule :=
  let reg_to_sem_batch := build_reg_to_sem_batch semesters in
  if decide (date_register_numbers = ∅)
  then sequential_loop internal_examiners external_examiners reg_to_sem_batch
         date_subjects register_numbers labs dates 0%nat []
  else date_keyed_loop internal_examiners external_examiners reg_to_sem_batch
         date_subjects date_register_numbers labs dates [].

Definition get_all_register_numbers (schedules : list LabSchedule) : list string :=
  foldl (fun all_numbers schedule =>
           foldl (fun acc slot => acc ++ register_numbers slot)
                 all_numbers (slots schedule))
        [] schedules.

Definition slot_total (schedule : LabSchedule) : nat :=
  foldr (fun slot acc => (length (register_numbers slot) + acc)%nat) 0%nat
        (slots schedule).

Definition count_students_per_date (schedules : list LabSchedule)
    : gmap string nat :=
  foldl (fun counts schedule =>
           <[date schedule :=
               (default 0%nat (counts !! date schedule) + slot_total schedule)%nat]>
             counts)
        ∅ schedules.

Definition count_students_per_lab (schedules : list LabSchedule) : list nat :=
  map slot_total schedules.

End Allocation.

(** ** [app/validators.py] *)

Module Validators.

Definition DEFAULT_LABS : list string :=
  ["Lab 1"; "Lab 2"; "Lab 3"; "Lab 4"; "Lab 5"].
Definition DAILY_CAPACITY : Z := 25 * 5.

Definition calculate_required_dates (student_count : Z) : Z :=
  if student_count <=? 0 then 0 else ceil_div student_count DAILY_CAPACITY.

Definition calculate_additional_dates_needed (student_count provided_dates : Z) : Z :=
  let required := calculate_required_dates student_count in
  Z.max 0 (required - provided_dates).

Definition validate_register_numbers (register_numbers : list string)
    : option ValidationError :=
  match register_numbers with
  | [] => Some (mkValidationError "register_numbers"
             "At least one register number is required to generate a schedule")
  | _ => None
  end.

Definition validate_labs (labs : list string)
    : option ValidationError * list string :=
  match labs with
  | [] => (None, DEFAULT_LABS)
  | _ => (None, labs)
  end.

Definition validate_internal_examiners (examiners : list Examiner)
    : option ValidationError := None.

Definition validate_external_examiners (examiners : list Examiner)
    : option ValidationError := None.

(** The loop that checks the format of every date: the first token whose
    stripped form [strptime] refuses ends it with an error. *)
Fixpoint first_bad_date (dates : list string) : option string :=
  match dates with
  | [] => None
  | date_str :: rest =>
      match strptime (strip date_str) with
      | Ok _ => first_bad_date rest
      | Raise _ => Some date_str
      end
  end.

Definition validate_dates (dates : list string) (student_count : Z)
    : option ValidationError * option string :=
  match dates with
  | [] => (None, Some "No dates provided. Please add exam dates for scheduling.")
  | _ =>
      match first_bad_date dates with
      | Some date_str =>
          (Some (mkValidationError "dates"
             ("Invalid date format: " +:+ date_str +:+ ". Expected DD-MM-YY")),
           None)
      | None =>
          let additional_needed :=
            calculate_additional_dates_needed student_count
                                              (Z.of_nat (length dates)) in
          if 0 <? additional_needed
          then
            let required := calculate_required_dates student_count in
            (None,
             Some ("Note: " +:+ pretty student_count +:+ " students may need "
                     +:+ pretty required +:+ " dates. You provided "
                     +:+ pretty (length dates) +:+ "."))
          else (None, None)
      end
  end.

(** [validate_schedule_request]: the errors, the warnings, and the request
    as the call leaves it (the default labs are written into it). *)
Definition validate_schedule_request (request : ScheduleRequest)
    : (list ValidationError * list string) * ScheduleRequest :=
  let errors0 : list ValidationError := [] in
  let warnings0 : list string := [] in
  let reg_error := validate_register_numbers (req_register_numbers request) in
  let errors1 := errors0 ++ option_list reg_error in
  let '(labs_error, labs_to_use) := validate_labs (req_labs request) in
  let errors2 := errors1 ++ option_list labs_error in
  let '(warnings1, request1) :=
    match req_labs request with
    | [] =>
        (warnings0 ++ ["Using default labs: " +:+ join ", " DEFAULT_LABS],
         mkScheduleRequest (req_register_numbers request) (req_dates request)
           labs_to_use (req_internal_examiners request)
           (req_external_examiners request))
    | _ => (warnings0, request)
    end in
  let internal_error := validate_internal_examiners (req_internal_examiners request1) in
  let errors3 := errors2 ++ option_list internal_error in
  let warnings2 :=
    match req_internal_examiners request1 with
    | [] => warnings1 ++
        ["No internal examiners provided. Schedule will be generated without examiner assignments."]
    | _ => warnings1
    end in
  let external_error := validate_external_examiners (req_external_examiners request1) in
  let errors4 := errors3 ++ option_list external_error in
  let warnings3 :=
    match req_external_examiners request1 with
    | [] => warnings2 ++
        ["No external examiners provided. Schedule will be generated without examiner assignments."]
    | _ => warnings2
    end in
  match req_register_numbers request1 with
  | [] => ((errors4, warnings3), request1)
  | _ =>
      let '(dates_error, dates_warning) :=
        validate_dates (req_dates request1)
                       (Z.of_nat (length (req_register_numbers request1))) in
      ((errors4 ++ option_list dates_error,
        warnings3 ++ option_list dates_warning), request1)
  end.

End Validators.

(** ** [app/parsers.py]: register numbers *)

Module RegisterNumbers.

(** The loop of [remove_duplicates], with its set [seen] and its two
    lists. *)
Fixpoint remove_duplicates_loop (register_numbers : list string)
    (seen : gset string) (unique duplicates : list string)
    : list string * list string :=
  match register_numbers with
  | [] => (unique, duplicates)
  | reg_no :: rest =>
      if decide (reg_no ∈ seen)
      then remove_duplicates_loop rest seen unique (duplicates ++ [reg_no])
      else remove_duplicates_loop rest ({[reg_no]} ∪ seen)
                                  (unique ++ [reg_no]) duplicates
  end.

Definition remove_duplicates (register_numbers : list string)
    : list string * list string :=
  remove_duplicates_loop register_numbers ∅ [] [].

Definition newline : string := String (ascii_of_nat 10) EmptyString.

Definition format_register_numbers (register_numbers : list string) : string :=
  join newline register_numbers.

(** The class [[\n,]] of the separator pattern. *)
Definition is_newline_or_comma (c : ascii) : bool :=
  (N_of_ascii c =? 10)%N || (N_of_ascii c =? 44)%N.

Definition starts_with_space (s : string) : bool :=
  match s with
  | String c _ => is_space c
  | EmptyString => false
  end.

(** Where the scan of [re.split] stands: inside a field, inside a match of
    [[\n,]+], or inside a match of [\s{2,}]. *)
Inductive split_state : Type :=
| InField
| InCommas
| InSpaces.

(** [re.split(r'[\n,]+|\s{2,}', text)].  The text is scanned from the left;
    at a position that ends no running match, the first alternative is
    tried, then the second, and each match is as long as it can be.  [cur]
    is the field collected since the last match. *)
Fixpoint re_split_scan (state : split_state) (cur : string) (text : string)
    : list string :=
  match text with
  | EmptyString => [cur]
  | String c rest =>
      let at_field_position :=
        if is_newline_or_comma c then cur :: re_split_scan InCommas "" rest
        else if is_space c && starts_with_space rest
        then cur :: re_split_scan InSpaces "" rest
        else re_split_scan InField (cur +:+ String c "") rest in
      match state with
      | InField => at_field_position
      | InCommas =>
          if is_newline_or_comma c then re_split_scan InCommas "" rest
          else at_field_position
      | InSpaces =>
          if is_space c then re_split_scan InSpaces "" rest
          else at_field_position
      end
  end.

Definition re_split (text : string) : list string :=
  re_split_scan InField "" text.

Definition parse_register_numbers (text : string) : list string :=
  if decide (text = "") then []
  else if decide (strip text = "") then []
  else
    foldl (fun register_numbers part =>
             let cleaned := strip part in
             if decide (cleaned = "") then register_numbers
             else register_numbers ++ [cleaned])
          [] (re_split text).

End RegisterNumbers.

(** ** [app/models.py]: the methods of [Examiner] *)

Module ExaminerText.

Definition to_string (e : Examiner) : string :=
  examiner_id e +:+ ": " +:+ examiner_name e.

(** [s.startswith(prefix)], returning what follows the prefix. *)
Fixpoint after_prefix (prefix s : string) : option string :=
  match prefix with
  | EmptyString => Some s
  | String p prefix' =>
      match s with
      | String c s' => if Ascii.eqb p c then after_prefix prefix' s' else None
      | EmptyString => None
      end
  end.

(** [s.split(sep, 1)] for a separator that is not empty: the text before
    and after the first occurrence of [sep], or nothing when [sep] does not
    occur (the split then has one part). *)
Fixpoint split_once (sep s : string) : option (string * string) :=
  match after_prefix sep s with
  | Some rest => Some ("", rest)
  | None =>
      match s with
      | EmptyString => None
      | String c s' =>
          match split_once sep s' with
          | Some (before, rest) => Some (String c before, rest)
          | None => None
          end
      end
  end.

(** [Examiner(id=..., name=...)]: both fields are declared with
    [min_length=1]; the validation error of the model is a [ValueError]. *)
Definition make_examiner (id name : string) : result Examiner :=
  if decide (id = "") then Raise ValueError
  else if decide (name = "") then Raise ValueError
  else Ok (mkExaminer id name).

Definition from_string (s : string) : result Examiner :=
  match split_once ": " s with
  | Some (id, name) => make_examiner id name
  | None => Raise ValueError
  end.

End ExaminerText.

(** ** [app/models.py]: the request and response models *)

Module Requests.

Record ExamMetadata : Type := mkExamMetadata {
  exam_name : option string;
  exam_semester : option string;
  department : option string;
  academic_year : option string
}.

Record ExamDate : Type := mkExamDate {
  exam_date : string;
  exam_subject : option string;
  exam_register_numbers : list string
}.

(** [ScheduleRequest] with all its fields, as an endpoint receives it;
    [Models.ScheduleRequest] is the part of it that validation reads. *)
Record RequestBody : Type := mkRequestBody {
  body_exam_metadata : option ExamMetadata;
  body_register_numbers : list string;
  body_semesters : list Semester;
  body_dates : list string;
  body_exam_dates : list ExamDate;
  body_labs : list string;
  body_internal_examiners : list Examiner;
  body_external_examiners : list Examiner
}.

Record ScheduleResponse : Type := mkScheduleResponse {
  response_exam_metadata : option ExamMetadata;
  examiners : list (string * list Examiner);
  schedule : list LabSchedule
}.

Record ApiResponse : Type := mkApiResponse {
  success : bool;
  data : option ScheduleResponse;
  errors : list ValidationError;
  warnings : list string
}.

End Requests.

(** The methods of [Semester] and [ScheduleRequest]. *)
Module Body.
Import Requests.

(** [Semester.get_all_register_numbers] *)
Definition semester_register_numbers (semester : Semester) : list string :=
  foldl (fun all_numbers b => all_numbers ++ batch_register_numbers b)
        [] (batches semester).

(** [Semester.get_batch_label] *)
Definition get_batch_label (semester : Semester) (name : string) : string :=
  semester_name semester +:+ name.

(** [ScheduleRequest.get_all_register_numbers]: the register numbers of
    the exam dates when there are any, else those of the semesters when
    semesters are given, else the legacy field. *)
Definition get_all_register_numbers (request : RequestBody) : list string :=
  let from_exam_dates :=
    match body_exam_dates request with
    | [] => []
    | exam_dates =>
        foldl (fun all_numbers ed => all_numbers ++ exam_register_numbers ed)
              [] exam_dates
    end in
  match from_exam_dates with
  | _ :: _ => from_exam_dates
  | [] =>
      match body_semesters request with
      | [] => body_register_numbers request
      | semesters =>
          foldl (fun all_numbers semester =>
                   all_numbers ++ semester_register_numbers semester)
                [] semesters
      end
  end.

(** [ScheduleRequest.get_dates] *)
Definition get_dates (request : RequestBody) : list string :=
  match body_exam_dates request with
  | [] => body_dates request
  | exam_dates => map exam_date exam_dates
  end.

End Body.

(** ** [app/formatter.py] *)

Module Formatter.
Import Requests.

(** [x or []] leaves a list as it is. *)
Definition format_schedule_response (exam_metadata : option ExamMetadata)
    (internal_examiners external_examiners : list Examiner)
    (schedules : list LabSchedule) : ScheduleResponse :=
  mkScheduleResponse exam_metadata
    [("internal", internal_examiners); ("external", external_examiners)]
    schedules.

Definition indexed {A} (l : list A) : list (nat * A) :=
  zip (seq 0 (length l)) l.

(** The checks on one slot.  [capacity] and [register_numbers] are typed
    fields of [TimeSlot] and never [None], so the two tests [is None] add
    nothing. *)
Definition slot_errors (i : nat) (errors : list string) (indexed_slot : nat * TimeSlot)
    : list string :=
  let '(j, slot) := indexed_slot in
  let errors :=
    if decide (time slot = "")
    then errors ++ ["Missing schedule[" +:+ pretty i +:+ "].slots["
                      +:+ pretty j +:+ "].time"]
    else errors in
  if decide (session slot = "")
  then errors ++ ["Missing schedule[" +:+ pretty i +:+ "].slots["
                    +:+ pretty j +:+ "].session"]
  else errors.

Definition schedule_errors (errors : list string) (indexed_schedule : nat * LabSchedule)
    : list string :=
  let '(i, lab_schedule) := indexed_schedule in
  let errors :=
    if decide (date lab_schedule = "")
    then errors ++ ["Missing schedule[" +:+ pretty i +:+ "].date"]
    else errors in
  let errors :=
    if decide (lab lab_schedule = "")
    then errors ++ ["Missing schedule[" +:+ pretty i +:+ "].lab"]
    else errors in
  if decide (length (slots lab_schedule) = 2%nat)
  then foldl (slot_errors i) errors (indexed (slots lab_schedule))
  else errors ++ ["schedule[" +:+ pretty i +:+ "] should have exactly 2 slots"].

Definition validate_schedule_schema (response : ScheduleResponse)
    : list string :=
  foldl schedule_errors [] (indexed (schedule response)).

End Formatter.

(** ** [app/scheduler.py]: dates with their subjects *)

Module DateAssignment.
Import Requests Scheduler.

(** The loop of [auto_schedule_dates], which the date endpoint repeats:
    the subject at the position of the date, when there is one.  A
    [subjects] left out is the empty list. *)
Definition assign_subjects (selected_dates subjects : list string)
    : list ExamDate :=
  foldl (fun exam_dates id =>
           exam_dates ++ [mkExamDate id.2 (subjects !! id.1) []])
        [] (Formatter.indexed selected_dates).

Definition auto_schedule_dates (available_dates : list string)
    (student_count min_gap_days : Z) (subjects : list string)
    : result (list ExamDate * explanation) :=
  sm ← select_optimal_dates available_dates student_count min_gap_days;
  mret (assign_subjects sm.1 subjects, sm.2).

End DateAssignment.

(** ** [app/main.py]: the endpoints *)

Module Api.
Import Requests Parsers Scheduler Allocation Validators RegisterNumbers
       Formatter DateAssignment.

(** The warning about duplicates; [verb] is "removed" in
    [generate_schedule] and "found" in [validate_schedule]. *)
Definition duplicates_warning (verb : string) (duplicates : list string)
    : string :=
  "Duplicate register numbers " +:+ verb +:+ ": "
    +:+ join ", " (take 10 duplicates)
    +:+ (if (10 <? length duplicates)%nat
         then " and " +:+ pretty (length duplicates - 10)%nat +:+ " more"
         else "").

(** The two dictionaries that [generate_schedule] builds from the exam
    dates: a later exam date with the same date overwrites an earlier
    one; an empty subject and an empty list leave no entry. *)
Definition date_maps (exam_dates : list ExamDate)
    : gmap string string * gmap string (list string) :=
  foldl (fun maps ed =>
           let date_subjects :=
             match exam_subject ed with
             | Some s =>
                 if decide (s = "") then maps.1 else <[exam_date ed := s]> maps.1
             | None => maps.1
             end in
           let date_register_numbers :=
             match exam_register_numbers ed with
             | [] => maps.2
             | regs => <[exam_date ed := regs]> maps.2
             end in
           (date_subjects, date_register_numbers))
        (∅, ∅) exam_dates.

(** The request as validation sees it, once [generate_schedule] has
    written the deduplicated register numbers and the sorted dates. *)
Definition validator_view (request : RequestBody)
    (register_numbers dates : list string) : ScheduleRequest :=
  mkScheduleRequest register_numbers dates (body_labs request)
    (body_internal_examiners request) (body_external_examiners request).

Definition generate_schedule (request : RequestBody) : ApiResponse :=
  let all_register_numbers := Body.get_all_register_numbers request in
  let '(unique_numbers, duplicates) := remove_duplicates all_register_numbers in
  let warnings0 :=
    match duplicates with
    | [] => []
    | _ => [duplicates_warning "removed" duplicates]
    end in
  let dates := parse_dates (Body.get_dates request) in
  let '(date_subjects, date_register_numbers) :=
    date_maps (body_exam_dates request) in
  let '((errors, validation_warnings), validated) :=
    validate_schedule_request (validator_view request unique_numbers dates) in
  let warnings1 := warnings0 ++ validation_warnings in
  match errors with
  | _ :: _ => mkApiResponse false None errors warnings1
  | [] =>
      let schedules :=
        allocate_students (req_register_numbers validated) dates
          (req_labs validated)
          (body_internal_examiners request) (body_external_examiners request)
          (body_semesters request) date_subjects date_register_numbers in
      let response :=
        format_schedule_response (body_exam_metadata request)
          (body_internal_examiners request) (body_external_examiners request)
          schedules in
      mkApiResponse true (Some response) [] warnings1
  end.

(** The dictionary that [validate_schedule] returns. *)
Record ValidationReport : Type := mkValidationReport {
  report_success : bool;
  report_errors : list ValidationError;
  report_warnings : list string;
  total_students : nat;
  duplicates_found : nat;
  dates_provided : nat;
  labs_provided : nat;
  internal_examiners_given : nat;
  external_examiners_given : nat;
  semesters_given : nat
}.

(** [validate_schedule] validates the legacy field [dates] as it stands:
    it neither reads the exam dates nor sorts. *)
Definition validate_schedule (request : RequestBody) : ValidationReport :=
  let all_register_numbers := Body.get_all_register_numbers request in
  let '(unique_numbers, duplicates) := remove_duplicates all_register_numbers in
  let warnings0 :=
    match duplicates with
    | [] => []
    | _ => [duplicates_warning "found" duplicates]
    end in
  let '((errors, validation_warnings), validated) :=
    validate_schedule_request
      (validator_view request unique_numbers (body_dates request)) in
  let warnings1 := warnings0 ++ validation_warnings in
  mkValidationReport
    (bool_decide (length errors = 0%nat)) errors warnings1
    (length unique_numbers) (length duplicates)
    (length (req_dates validated)) (length (req_labs validated))
    (length (req_internal_examiners validated))
    (length (req_external_examiners validated))
    (length (body_semesters request)).

(** The answer of [auto_select_dates]: the selection, or, for any
    exception, the failure ([error] stands for the text [str(e)]). *)
Record Selection : Type := mkSelection {
  selected_dates : list string;
  selection_exam_dates : list ExamDate;
  required_days : Z;
  available_days : nat;
  students_per_day : nat;
  selection_message : explanation;
  info_total_students : Z;
  info_days_needed : Z;
  info_days_selected : nat;
  info_min_gap_requested : Z
}.

Inductive SelectionResponse : Type :=
| SelectionOk (selection : Selection)
| SelectionFailed (error : exn).

Definition auto_select_dates (available_dates : list string)
    (student_count min_gap_days : Z) (subjects : list string)
    : SelectionResponse :=
  let sorted_dates := parse_dates available_dates in
  let required_days := ceil_div student_count (Z.of_nat Scheduler.DAILY_CAPACITY) in
  match select_optimal_dates sorted_dates student_count min_gap_days with
  | Raise e => SelectionFailed e
  | Ok (selected_dates, message) =>
      let exam_dates := assign_subjects selected_dates subjects in
      SelectionOk
        (mkSelection selected_dates exam_dates required_days
           (length available_dates) Scheduler.DAILY_CAPACITY message
           student_count required_days (length selected_dates) min_gap_days)
  end.

(** The dictionary that [calculate_requirements] returns. *)
Record Requirements : Type := mkRequirements {
  requirements_student_count : Z;
  daily_capacity : nat;
  requirements_required_days : Z;
  requirements_available_dates : Z;
  dates_sufficient : option bool;
  additional_dates_needed : option Z
}.

Definition calculate_requirements (student_count available_dates : Z)
    : Requirements :=
  let required_days := ceil_div student_count (Z.of_nat Scheduler.DAILY_CAPACITY) in
  mkRequirements student_count Scheduler.DAILY_CAPACITY required_days
    available_dates
    (if 0 <? available_dates then Some (required_days <=? available_dates)
     else None)
    (if 0 <? available_dates then Some (Z.max 0 (required_days - available_dates))
     else None).

End Api.

(** ** [app/scheduler.py]: the engine with the checks of its models

    [TimeSlot(...)] and [LabSchedule(...)] validate their fields and raise
    a validation error, a [ValueError], when a field is refused; nothing in
    the engine catches it.  The definitions of [Allocation] build the same
    schedules without the checks; here every construction is checked, as
    the program runs it. *)

Module Run.
Import Scheduler.

(** [TimeSlot(time=..., session=..., capacity=..., register_numbers=...)]:
    [session] matches [^(forenoon|afternoon)$] and [capacity] lies between
    0 and 13. *)
Definition TimeSlot_new (time session : string) (capacity : nat)
    (register_numbers : list string) : result TimeSlot :=
  if decide (session = "forenoon" \/ session = "afternoon")
  then
    if (capacity <=? 13)%nat
    then Ok (mkTimeSlot time session capacity register_numbers)
    else Raise ValueError
  else Raise ValueError.

(** An examiner reaches [LabSchedule(...)] as a dictionary, or as [None],
    and is validated as an [Examiner]: [id] and [name] have
    [min_length=1]. *)
Definition Examiner_new (examiner : option Examiner)
    : result (option Examiner) :=
  match examiner with
  | None => Ok None
  | Some e =>
      if decide (examiner_id e = "") then Raise ValueError
      else if decide (examiner_name e = "") then Raise ValueError
      else Ok (Some e)
  end.

(** [LabSchedule(...)]: [lab] has [min_length=1], [slots] has exactly two
    entries, the examiners are validated. *)
Definition LabSchedule_new (date : string) (subject : option string)
    (lab : string) (slots : list TimeSlot)
    (internal_examiner external_examiner : option Examiner)
    (semester batch : option string) : result LabSchedule :=
  if decide (lab = "") then Raise ValueError
  else if decide (length slots = 2%nat)
  then
    internal ← Examiner_new internal_examiner;
    external ← Examiner_new external_examiner;
    mret (mkLabSchedule date subject lab slots internal external
                        semester batch)
  else Raise ValueError.

Definition create_time_slot (session : string) (register_numbers : list string)
    : result TimeSlot :=
  if decide (session = "forenoon")
  then TimeSlot_new FORENOON_TIME "forenoon" (length register_numbers)
                    register_numbers
  else TimeSlot_new AFTERNOON_TIME "afternoon" (length register_numbers)
                    register_numbers.

Definition create_lab_schedule (date lab : string) (students : list string)
    (internal_examiner external_examiner : option Examiner)
    (semester batch subject : option string) : result LabSchedule :=
  let '(forenoon_students, afternoon_students) :=
    Allocation.split_into_slots students in
  forenoon ← create_time_slot "forenoon" forenoon_students;
  afternoon ← create_time_slot "afternoon" afternoon_students;
  LabSchedule_new date subject lab [forenoon; afternoon]
                  internal_examiner external_examiner semester batch.

Section Engine.
Context (internal_examiners external_examiners : list Examiner)
        (reg_to_sem_batch : gmap string (string * string)).

Fixpoint lab_loop (date : string) (subject : option string)
    (students : list string) (labs : list (nat * string))
    (student_index : nat) (schedules : list LabSchedule)
    : result (nat * list LabSchedule) :=
  match labs with
  | [] => Ok (student_index, schedules)
  | (lab_index, lab) :: rest =>
      let total_students := length students in
      if (total_students <=? student_index)%nat
      then Ok (student_index, schedules)
      else
        let chunk_end :=
          Nat.min (student_index + STUDENTS_PER_LAB) total_students in
        let chunk := slice students student_index chunk_end in
        match chunk with
        | [] => lab_loop date subject students rest student_index schedules
        | _ =>
            let internal_exam :=
              Allocation.pick_examiner internal_examiners lab_index in
            let external_exam :=
              Allocation.pick_examiner external_examiners lab_index in
            let '(semester, batch) :=
              Allocation.chunk_cohort reg_to_sem_batch chunk in
            schedule ← create_lab_schedule date lab chunk internal_exam
                          external_exam semester batch subject;
            lab_loop date subject students rest chunk_end
                     (schedules ++ [schedule])
        end
  end.

Fixpoint date_keyed_loop (date_subjects : gmap string string)
    (date_register_numbers : gmap string (list string))
    (labs : list string) (dates : list string)
    (schedules : list LabSchedule) : result (list LabSchedule) :=
  match dates with
  | [] => Ok schedules
  | date :: rest =>
      let date_students := default [] (date_register_numbers !! date) in
      let subject := date_subjects !! date in
      placed ← lab_loop date subject date_students
                 (Allocation.enumerate labs) 0%nat schedules;
      date_keyed_loop date_subjects date_register_numbers labs rest placed.2
  end.

Fixpoint sequential_loop (date_subjects : gmap string string)
    (register_numbers : list string) (labs : list string) (dates : list string)
    (student_index : nat) (schedules : list LabSchedule)
    : result (list LabSchedule) :=
  match dates with
  | [] => Ok schedules
  | date :: rest =>
      if (length register_numbers <=? student_index)%nat then Ok schedules
      else
        let subject := date_subjects !! date in
        placed ← lab_loop date subject register_numbers
                   (Allocation.enumerate labs) student_index schedules;
        sequential_loop date_subjects register_numbers labs rest
                        placed.1 placed.2
  end.
End Engine.

(** [allocate_students], as the program runs it. *)
Definition allocate_students (register_numbers dates labs : list string)
    (internal_examiners external_examiners : list Examiner)
    (semesters : list Semester)
    (date_subjects : gmap string string)
    (date_register_numbers : gmap string (list string))
    : result (list LabSchedule) :=
  let reg_to_sem_batch := Allocation.build_reg_to_sem_batch semesters in
  if decide (date_register_numbers = ∅)
  then sequential_loop internal_examiners external_examiners reg_to_sem_batch
         date_subjects register_numbers labs dates 0%nat []
  else date_keyed_loop internal_examiners external_examiners reg_to_sem_batch
         date_subjects date_register_numbers labs dates [].

End Run.

(** ** Notions used to state the properties *)

Import Parsers Scheduler Allocation Validators.

(** A token that [strptime] accepts as it stands; the scheduler's
    [parse_date] does not strip. *)
Definition parses (tok : string) : bool :=
  match strptime tok with
  | Ok _ => true
  | Raise _ => false
  end.

Definition well_formed (tok : string) : Prop := parses tok = true.

(** A token that the date sorter and the validator, which strip first,
    cannot parse. *)
Definition malformed (tok : string) : Prop := parses (strip tok) = false.

(** Chronological order on tokens, through the sort key of [parse_dates]. *)
Definition date_le (a b : string) : Prop := date_key a <= date_key b.

(** The candidates of a lab schedule: its sessions in order. *)
Definition chunk_of (s : LabSchedule) : list string :=
  concat (map register_numbers (slots s)).

(** The session invariant of a lab schedule. *)
Definition two_sessions (s : LabSchedule) : Prop :=
  exists forenoon afternoon,
    slots s = [forenoon; afternoon] /\
    session forenoon = "forenoon" /\
    session afternoon = "afternoon" /\
    (length (register_numbers forenoon) <= 13)%nat /\
    (length (register_numbers afternoon) <= 12)%nat /\
    (length (register_numbers forenoon)
       + length (register_numbers afternoon) <= 25)%nat /\
    (register_numbers afternoon <> [] ->
     length (register_numbers forenoon) = 13%nat).

(** How many candidates of [chunk] the lookup sends to the pair [p]. *)
Definition tally (m : gmap string (string * string)) (chunk : list string)
    (p : string * string) : nat :=
  length (filter (fun r => m !! r = Some p) chunk).

(** The cohort rule of the allocation engine, in the words of its
    description: no mapped candidate leaves both fields unset; otherwise
    the semester is that of a pair [p] with the highest tally, and the batch
    is [p]'s label when [p] is the only pair observed, and else the
    comma-joined ascending list of the distinct labels observed. *)
Definition cohort_rule (m : gmap string (string * string)) (chunk : list string)
    (sem bat : option string) : Prop :=
  (Forall (fun r => m !! r = None) chunk -> sem = None /\ bat = None) /\
  (Exists (fun r => is_Some (m !! r)) chunk ->
   exists p : string * string,
     (0 < tally m chunk p)%nat /\
     (forall q, (tally m chunk q <= tally m chunk p)%nat) /\
     sem = Some (fst p) /\
     ((forall q, (0 < tally m chunk q)%nat -> q = p) -> bat = Some (snd p)) /\
     ((exists q, (0 < tally m chunk q)%nat /\ q <> p) ->
      exists labels : list string,
        bat = Some (join ", " labels) /\
        Sorted String.le labels /\ NoDup labels /\
        forall l, l ∈ labels <-> exists s', (0 < tally m chunk (s', l))%nat)).

(** The tie-break of the cohort rule: the chosen pair has the highest tally
    and every pair met in the chunk before its first candidate has a
    strictly smaller one. *)
Definition first_highest (m : gmap string (string * string)) (chunk : list string)
    (sem : option string) : Prop :=
  Exists (fun r => is_Some (m !! r)) chunk ->
  exists (p : string * string) (before after : list string) (r : string),
    chunk = before ++ r :: after /\
    m !! r = Some p /\
    sem = Some (fst p) /\
    (forall q, (tally m chunk q <= tally m chunk p)%nat) /\
    (forall r' q, r' ∈ before -> m !! r' = Some q ->
                  (tally m chunk q < tally m chunk p)%nat).

(** The candidates that a run is given: the global list in sequential
    mode, the lists of the dates, in date order, in date-keyed mode. *)
Definition input_candidates (register_numbers dates : list string)
    (date_register_numbers : gmap string (list string)) : list string :=
  if decide (date_register_numbers = ∅) then register_numbers
  else concat (map (fun d => default [] (date_register_numbers !! d)) dates).

(** A schedule as the engine emits it on date [d], for one of the labs and
    a chunk of 1 to 25 candidates. *)
Definition emitted (m : gmap string (string * string)) (labs : list string)
    (d : string) (s : LabSchedule) : Prop :=
  exists lab chunk ie ee subj,
    lab ∈ labs /\ chunk <> [] /\ (length chunk <= 25)%nat /\
    s = create_lab_schedule d lab chunk ie ee
          (fst (chunk_cohort m chunk)) (snd (chunk_cohort m chunk)) subj.

(** The order that a sort key induces. *)
Definition key_le {A : Type} (key : A -> Z) (a b : A) : Prop := key a <= key b.

(** What a date contributes: schedules of that date, emitted from chunks,
    holding at most [bound] candidates together. *)
Definition date_group (m : gmap string (string * string)) (labs : list string)
    (bound : nat) (d : string) (g : list LabSchedule) : Prop :=
  Forall (emitted m labs d) g /\ (length (concat (map chunk_of g)) <= bound)%nat.

(** One step of the loop of [count_students_per_date]. *)
Definition count_step (counts : gmap string nat) (schedule : LabSchedule)
    : gmap string nat :=
  <[date schedule :=
      (default 0%nat (counts !! date schedule) + slot_total schedule)%nat]> counts.

(** Sample inputs: [n] candidates, and the five default labs. *)
Definition candidates (n : nat) : list string :=
  map (fun i => "REG" +:+ pretty i) (seq 0 n).

Definition five_labs : list string := DEFAULT_LABS.

(** The tally dictionary, in first-insertion order. *)
Definition pair_counts : Type := list ((string * string) * nat).

(** The count a tally holds for a pair ([0] when the pair is absent). *)
Fixpoint count_of (k : string * string) (counts : pair_counts) : nat :=
  match counts with
  | [] => 0%nat
  | (k', n) :: rest => if decide (k' = k) then n else count_of k rest
  end.

Definition tally_pairs (pairs : list (string * string)) : pair_counts :=
  foldl (fun counts p => tally_add p counts) [] pairs.

Definition occurrences (k : string * string) (pairs : list (string * string)) : nat :=
  length (filter (fun x => x = k) pairs).

(** The errors of [validate_schedule_request], and the two it can hold. *)
Definition errors_of (request : ScheduleRequest) : list ValidationError :=
  fst (fst (validate_schedule_request request)).

Definition date_format_error (tok : string) : ValidationError :=
  mkValidationError "dates"
    ("Invalid date format: " +:+ tok +:+ ". Expected DD-MM-YY").


(** ** Notions for the further properties *)

(** A register number that survives [format_register_numbers] followed by
    [parse_register_numbers]: it holds no newline and no comma, no two
    whitespace characters in a row, and does not end in whitespace. *)
Fixpoint plain_field (r : string) : bool :=
  match r with
  | EmptyString => true
  | String c r' =>
      negb (RegisterNumbers.is_newline_or_comma c)
      && match r' with
         | EmptyString => negb (is_space c)
         | String c2 _ => negb (is_space c && is_space c2)
         end
      && plain_field r'
  end.

(** [lstrip] on the list of characters, and a register number as
    [parse_register_numbers] returns them. *)
Fixpoint lstrip_chars (l : list ascii) : list ascii :=
  match l with
  | [] => []
  | c :: l' => if is_space c then lstrip_chars l' else l
  end.

Definition rstrip_chars (l : list ascii) : list ascii :=
  rev (lstrip_chars (rev l)).

Definition cleaned (r : string) : Prop := r <> "" /\ strip r = r.

(** The request as [validate_schedule_request] leaves it. *)
Definition request_after (request : ScheduleRequest) : ScheduleRequest :=
  snd (validate_schedule_request request).

Definition warnings_of (request : ScheduleRequest) : list string :=
  snd (fst (validate_schedule_request request)).

(** The labs that a run uses: those of the request, or the default labs
    when the request names none. *)
Definition labs_in_use (labs : list string) : list string :=
  match labs with
  | [] => DEFAULT_LABS
  | _ => labs
  end.

(** The schedule that the engine builds on date [d] for the lab at
    position [lab_index], from the candidates of [students] at the indices
    [start, start + 25). *)
Definition schedule_at (ie ee : list Examiner)
    (m : gmap string (string * string)) (students : list string)
    (d : string) (subj : option string) (lab_index : nat) (lab : string)
    (start : nat) : LabSchedule :=
  let chunk := slice students start (start + 25) in
  create_lab_schedule d lab chunk
    (pick_examiner ie lab_index) (pick_examiner ee lab_index)
    (fst (chunk_cohort m chunk)) (snd (chunk_cohort m chunk)) subj.

(** What one date contributes in the closed form: the schedule at position
    [j] is that of lab [j] for the [j]-th run of 25 candidates, as long as
    a lab and a candidate are left. *)
Definition date_round (ie ee : list Examiner)
    (m : gmap string (string * string)) (labs students : list string)
    (d : string) (subj : option string) (g : list LabSchedule) : Prop :=
  forall j s,
    g !! j = Some s <->
    exists lab, labs !! j = Some lab /\ (25 * j < length students)%nat /\
                s = schedule_at ie ee m students d subj j lab (25 * j).

(** The entries that [build_reg_to_sem_batch] writes, in the order in which
    it writes them: semester by semester, batch by batch, register number
    by register number. *)
Definition listing (semesters : list Semester)
    : list (string * (string * string)) :=
  sem ← semesters;
  b ← batches sem;
  reg_no ← batch_register_numbers b;
  [(reg_no, (semester_name sem, semester_name sem +:+ batch_name b))].

(** The entries of a listing under one register number. *)
Definition entries_of (reg_no : string)
    (l : list (string * (string * string))) : list (string * string) :=
  omap (fun kv => if decide (kv.1 = reg_no) then Some kv.2 else None) l.

(** A date token that parses once stripped, as the sorter and the
    validator read it. *)
Definition parses_stripped (tok : string) : Prop := parses (strip tok) = true.

(** What the schema check of the formatter asks of a schedule. *)
Definition schema_ok (s : LabSchedule) : Prop :=
  date s <> "" /\ lab s <> "" /\ length (slots s) = 2%nat /\
  Forall (fun slot => time slot <> "" /\ session slot <> "") (slots s).

(** A sample request: thirty candidates and one of them again, two dates
    out of order, one with blanks around it, one lab, nothing else. *)
Definition sample_request : Requests.RequestBody :=
  Requests.mkRequestBody None (candidates 30 ++ ["REG3"]) []
    ["02-01-25"; " 01-01-25 "] [] ["Lab A"] [] [].

(** ** Where the model and the program agree

    The strings of the model are bytes; its whitespace and its digits are
    the ASCII ones, while [str.strip], the class [\s] and [strptime] also
    take the other whitespace and decimal digits of Unicode.  On text made
    of ASCII characters the two agree. *)
Fixpoint ascii_text_b (s : string) : bool :=
  match s with
  | EmptyString => true
  | String c s' => (N_of_ascii c <? 128)%N && ascii_text_b s'
  end.

Definition ascii_text (s : string) : Prop := ascii_text_b s = true.

(** The counts for which [math.ceil(n / 125)], computed on the float
    quotient, is the integer ceiling [ceil_div n 125]: up to [125 * 2^47]
    in magnitude the quotient is rounded by less than [1 / 125].  From
    [125 * 2^47 + 1] on it can come out one too small, and beyond the range
    of floats the division raises [OverflowError]. *)
Definition exact_count (n : Z) : Prop := Z.abs n <= 125 * 2 ^ 47.

(** The lab names and the examiners that the schedule model accepts. *)
Definition lab_ok (lab : string) : Prop := lab <> "".

Definition examiner_ok (e : Examiner) : Prop :=
  examiner_id e <> "" /\ examiner_name e <> "".

(** All the candidates of a date-keyed run: the lists of the dictionary. *)
Definition keyed_candidates (date_register_numbers : gmap string (list string))
    : list string :=
  concat (map snd (map_to_list date_register_numbers)).

(** ** Slices and the session split *)

Section Slices.
Context {A : Type}.
Implicit Types l : list A.

Lemma slice_nil_ge l a b : (length l <= a)%nat -> slice l a b = [].
Proof. intros H. unfold slice. rewrite drop_ge by done. apply take_nil. Qed.

Lemma length_slice l a b :
  length (slice l a b) = Nat.min (b - a) (length l - a).
Proof. unfold slice. by rewrite length_take, length_drop. Qed.

Lemma slice_app l a b c :
  (a <= b)%nat -> (b <= c)%nat -> slice l a b ++ slice l b c = slice l a c.
Proof.
  intros Hab Hbc. unfold slice.
  replace (drop b l) with (drop (b - a) (drop a l))
    by (rewrite drop_drop; f_equal; lia).
  rewrite take_take_drop. f_equal. lia.
Qed.

Lemma slice_same l a : slice l a a = [].
Proof. unfold slice. by rewrite Nat.sub_diag, take_0. Qed.

Lemma slice_0 l b : slice l 0 b = take b l.
Proof. unfold slice. by rewrite Nat.sub_0_r, drop_0. Qed.

Lemma slice_clip l a b :
  slice l a b = slice l a (Nat.min b (length l)).
Proof.
  unfold slice.
  destruct (decide (b <= length l)%nat) as [H|H].
  - by rewrite Nat.min_l by done.
  - rewrite Nat.min_r by lia.
    rewrite !take_ge; [done|rewrite length_drop; lia..].
Qed.
End Slices.

Lemma split_into_slots_app (students : list string) :
  (length students <= 25)%nat ->
  fst (split_into_slots students) ++ snd (split_into_slots students) = students.
Proof.
  intros H. unfold split_into_slots, FORENOON_CAPACITY, AFTERNOON_CAPACITY. simpl.
  rewrite slice_app by lia. rewrite slice_0. apply take_ge. lia.
Qed.

Lemma chunk_of_create d lab chunk ie ee sem bat subj :
  (length chunk <= 25)%nat ->
  chunk_of (create_lab_schedule d lab chunk ie ee sem bat subj) = chunk.
Proof.
  intros H. unfold chunk_of, create_lab_schedule.
  pose proof (split_into_slots_app chunk H) as E.
  destruct (split_into_slots chunk) as [f a]. simpl in *.
  unfold create_time_slot.
  repeat case_decide; simpl; rewrite ?app_nil_r; done.
Qed.

Lemma slot_total_chunk_of s : slot_total s = length (chunk_of s).
Proof.
  unfold slot_total, chunk_of. induction (slots s) as [|t ts IH]; simpl; [done|].
  rewrite length_app. by rewrite IH.
Qed.

Lemma get_all_register_numbers_concat schedules :
  get_all_register_numbers schedules = concat (map chunk_of schedules).
Proof.
  unfold get_all_register_numbers.
  assert (G : forall acc,
    foldl (fun all_numbers schedule =>
             foldl (fun acc slot => acc ++ register_numbers slot)
                   all_numbers (slots schedule)) acc schedules
    = acc ++ concat (map chunk_of schedules)).
  { induction schedules as [|s ss IH]; intros acc; simpl.
    - by rewrite app_nil_r.
    - rewrite IH. rewrite app_assoc. f_equal.
      unfold chunk_of. generalize (slots s) acc. clear.
      induction l as [|t ts IH]; intros acc; simpl.
      + by rewrite app_nil_r.
      + by rewrite IH, app_assoc. }
  apply (G []).
Qed.

Lemma emitted_mono m labs labs' d s :
  (forall lab, lab ∈ labs -> lab ∈ labs') -> emitted m labs d s -> emitted m labs' d s.
Proof.
  intros Hsub (lab & chunk & ie & ee & subj & Hlab & H).
  exists lab, chunk, ie, ee, subj. split; [by apply Hsub|done].
Qed.

Lemma emitted_date m labs d s : emitted m labs d s -> date s = d.
Proof.
  intros (lab & chunk & ie & ee & subj & _ & _ & _ & ->).
  unfold create_lab_schedule. by destruct (split_into_slots chunk).
Qed.

Lemma emitted_chunk m labs d s :
  emitted m labs d s ->
  chunk_of s <> [] /\ (length (chunk_of s) <= 25)%nat /\
  semester s = fst (chunk_cohort m (chunk_of s)) /\
  batch s = snd (chunk_cohort m (chunk_of s)).
Proof.
  intros (lab & chunk & ie & ee & subj & _ & Hne & Hlen & ->).
  rewrite chunk_of_create by done.
  unfold create_lab_schedule. by destruct (split_into_slots chunk).
Qed.

Lemma emitted_two_sessions m labs d s : emitted m labs d s -> two_sessions s.
Proof.
  intros (lab & chunk & ie & ee & subj & _ & Hne & Hlen & ->).
  unfold create_lab_schedule, split_into_slots, two_sessions.
  eexists _, _. split; [reflexivity|].
  unfold create_time_slot.
  repeat case_decide; try done; simpl.
  rewrite !length_slice. unfold FORENOON_CAPACITY, AFTERNOON_CAPACITY.
  repeat split; try lia.
  intros Hne'. destruct (decide (13 <= length chunk)%nat); [lia|].
  exfalso. apply Hne'. apply slice_nil_ge. lia.
Qed.

(** ** The loops of the allocation engine *)

Section Loops.
Context (ie ee : list Examiner) (m : gmap string (string * string)).

Lemma lab_loop_spec d subj students labs idx acc :
  exists new,
    lab_loop ie ee m d subj students labs idx acc
    = (Nat.max idx (Nat.min (idx + 25 * length labs) (length students)),
       acc ++ new) /\
    Forall (emitted m (map snd labs) d) new /\
    concat (map chunk_of new) = slice students idx (idx + 25 * length labs).
Proof.
  revert idx acc. induction labs as [|[i lab] rest IH]; intros idx acc.
  - exists []. simpl. rewrite app_nil_r. split_and!; [f_equal; lia|done|].
    by rewrite Nat.add_0_r, slice_same.
  - cbn [lab_loop length].
    destruct (Nat.leb_spec (length students) idx) as [Hge|Hlt].
    { exists []. rewrite app_nil_r. split_and!; [f_equal; lia|done|].
      simpl. by rewrite slice_nil_ge. }
    unfold STUDENTS_PER_LAB.
    set (chunk_end := Nat.min (idx + 25) (length students)).
    assert (Hlen : length (slice students idx chunk_end)
                   = (chunk_end - idx)%nat).
    { rewrite length_slice. lia. }
    destruct (slice students idx chunk_end) as [|c0 chunk'] eqn:Hchunk.
    { simpl in Hlen. lia. }
    rewrite <- Hchunk in *. clear c0 chunk' Hchunk.
    destruct (chunk_cohort m (slice students idx chunk_end)) as [sem bat] eqn:Hc.
    match goal with
    | |- context [lab_loop _ _ _ _ _ _ _ _ (acc ++ [?s])] => set (sched := s)
    end.
    destruct (IH chunk_end (acc ++ [sched])) as (new & Hrun & Hem & Hcat).
    exists (sched :: new). rewrite Hrun.
    split_and!.
    + f_equal; [lia|]. by rewrite <- app_assoc.
    + constructor.
      * exists lab, (slice students idx chunk_end), (pick_examiner ie i),
               (pick_examiner ee i), subj.
        split_and!;
          [left|intros E; rewrite E in Hlen; simpl in Hlen; lia|lia|].
        by rewrite Hc.
      * eapply Forall_impl; [exact Hem|]. intros s.
        apply emitted_mono. intros l Hl. by right.
    + cbn [map concat]. rewrite Hcat. subst sched.
      rewrite chunk_of_create by lia.
      destruct (decide (idx + 25 <= length students)%nat) as [Hfit|Hcut].
      * replace chunk_end with (idx + 25)%nat by lia.
        rewrite slice_app by lia. f_equal. lia.
      * replace chunk_end with (length students) by lia.
        rewrite (slice_nil_ge students (length students)) by done.
        rewrite app_nil_r.
        rewrite (slice_clip students idx (idx + 25 * S (length rest))).
        f_equal. lia.
Qed.

Lemma length_enumerate (labs : list string) :
  length (enumerate labs) = length labs.
Proof. unfold enumerate. rewrite length_zip, length_seq. lia. Qed.

Lemma snd_enumerate (labs : list string) : map snd (enumerate labs) = labs.
Proof. unfold enumerate. apply snd_zip. by rewrite length_seq. Qed.

Lemma sequential_loop_spec ds students labs dates idx acc :
  exists groups,
    sequential_loop ie ee m ds students labs dates idx acc
    = acc ++ concat groups /\
    Forall2 (date_group m labs (25 * length labs)) dates groups /\
    concat (map chunk_of (concat groups))
    = slice students idx (idx + 25 * length labs * length dates).
Proof.
  revert idx acc. induction dates as [|d rest IH]; intros idx acc.
  - exists []. simpl. rewrite app_nil_r. split_and!; [done|constructor|].
    by rewrite Nat.mul_0_r, Nat.add_0_r, slice_same.
  - cbn [sequential_loop length].
    destruct (Nat.leb_spec (length students) idx) as [Hge|Hlt].
    { exists (replicate (S (length rest)) []). split_and!.
      - clear. induction (S (length rest)); simpl; [by rewrite app_nil_r|done].
      - clear. change (S (length rest)) with (length (d :: rest)).
        induction (d :: rest); simpl; constructor; [|done].
        split; [done|simpl; lia].
      - rewrite slice_nil_ge by done.
        clear. induction (S (length rest)); simpl; done. }
    destruct (lab_loop_spec d (ds !! d) students (enumerate labs) idx acc)
      as (new & Hrun & Hem & Hcat).
    rewrite length_enumerate in Hrun, Hcat. rewrite snd_enumerate in Hem.
    rewrite Hrun.
    set (idx' := Nat.max idx (Nat.min (idx + 25 * length labs) (length students))).
    destruct (IH idx' (acc ++ new)) as (groups & Hrest & Hgroups & Hcat').
    exists (new :: groups). rewrite Hrest. split_and!.
    + simpl. by rewrite <- app_assoc.
    + constructor; [|done]. split; [done|].
      rewrite Hcat, length_slice. lia.
    + cbn [concat]. rewrite map_app, concat_app, Hcat, Hcat'.
      destruct (decide (idx + 25 * length labs <= length students)%nat)
        as [Hfit|Hcut].
      * replace idx' with (idx + 25 * length labs)%nat by lia.
        rewrite slice_app by lia. f_equal. lia.
      * replace idx' with (length students) by lia.
        rewrite (slice_nil_ge students (length students)) by done.
        rewrite app_nil_r.
        rewrite (slice_clip students idx (idx + 25 * length labs)).
        rewrite (slice_clip students idx
                   (idx + 25 * length labs * S (length rest))).
        f_equal. lia.
Qed.

Lemma date_keyed_loop_spec ds drn labs dates acc :
  exists groups,
    date_keyed_loop ie ee m ds drn labs dates acc = acc ++ concat groups /\
    Forall2 (date_group m labs (25 * length labs)) dates groups /\
    concat (map chunk_of (concat groups))
    = concat (map (fun d => take (25 * length labs) (default [] (drn !! d)))
                  dates).
Proof.
  revert acc. induction dates as [|d rest IH]; intros acc.
  - exists []. simpl. rewrite app_nil_r. split_and!; [done|constructor|done].
  - simpl.
    destruct (lab_loop_spec d (ds !! d) (default [] (drn !! d))
                (enumerate labs) 0 acc) as (new & Hrun & Hem & Hcat).
    rewrite length_enumerate in Hrun, Hcat. rewrite snd_enumerate in Hem.
    rewrite Hrun.
    destruct (IH (acc ++ new)) as (groups & Hrest & Hgroups & Hcat').
    exists (new :: groups). rewrite Hrest. split_and!.
    + simpl. by rewrite <- app_assoc.
    + constructor; [|done]. split; [done|].
      rewrite Hcat, length_slice. lia.
    + simpl. rewrite map_app, concat_app, Hcat, Hcat'.
      by rewrite slice_0.
Qed.
End Loops.

(** Every run is a concatenation of date groups, one per date. *)
Lemma allocate_students_groups regs dates labs ie ee sems ds drn :
  exists groups,
    allocate_students regs dates labs ie ee sems ds drn = concat groups /\
    Forall2 (date_group (build_reg_to_sem_batch sems) labs (25 * length labs))
            dates groups /\
    get_all_register_numbers (allocate_students regs dates labs ie ee sems ds drn)
    = if decide (drn = ∅)
      then take (25 * length labs * length dates) regs
      else concat (map (fun d => take (25 * length labs) (default [] (drn !! d)))
                       dates).
Proof.
  unfold allocate_students. rewrite get_all_register_numbers_concat.
  case_decide.
  - destruct (sequential_loop_spec ie ee (build_reg_to_sem_batch sems) ds regs
                labs dates 0 []) as (groups & -> & Hg & Hcat).
    exists groups. simpl. split_and!; [done..|].
    rewrite Hcat. by rewrite slice_0.
  - destruct (date_keyed_loop_spec ie ee (build_reg_to_sem_batch sems) ds drn
                labs dates []) as (groups & -> & Hg & Hcat).
    exists groups. simpl. by split_and!.
Qed.

Lemma allocate_students_emitted regs dates labs ie ee sems ds drn :
  Forall (fun s => exists d, emitted (build_reg_to_sem_batch sems) labs d s)
         (allocate_students regs dates labs ie ee sems ds drn).
Proof.
  destruct (allocate_students_groups regs dates labs ie ee sems ds drn)
    as (groups & -> & Hg & _).
  induction Hg as [|d g dates' groups' [Hem _] _ IH]; simpl; [done|].
  apply Forall_app. split; [|done].
  eapply Forall_impl; [exact Hem|]. intros s Hs. by exists d.
Qed.

Lemma emitted_fields_ok m labs d s :
  Forall (fun l => l <> "") labs -> emitted m labs d s -> LabSchedule_fields_ok s.
Proof.
  intros Hlabs (lab & chunk & ie & ee & subj & Hlab & Hne & Hlen & ->).
  unfold LabSchedule_fields_ok, create_lab_schedule, split_into_slots.
  cbn [Models.lab slots length].
  split_and!; [by apply (proj1 (Forall_forall _ _) Hlabs)|done|].
  unfold create_time_slot, TimeSlot_fields_ok.
  repeat case_decide; try done.
  apply Forall_cons. split; [|apply Forall_cons; split; [|by constructor]].
  - split; [by left|]. cbn [capacity]. rewrite length_slice.
    unfold FORENOON_CAPACITY. lia.
  - split; [by right|]. cbn [capacity]. rewrite length_slice.
    unfold FORENOON_CAPACITY, AFTERNOON_CAPACITY. lia.
Qed.

(** The schedules of a run meet the declared field constraints. *)
Lemma allocate_students_fields_ok regs dates labs ie ee sems ds drn :
  Forall (fun l => l <> "") labs ->
  Forall LabSchedule_fields_ok
         (allocate_students regs dates labs ie ee sems ds drn).
Proof.
  intros Hlabs. eapply Forall_impl; [apply allocate_students_emitted|].
  intros s [d Hs]. by eapply emitted_fields_ok.
Qed.

(** ** Counting candidates per date *)

Lemma count_students_per_date_foldl schedules :
  count_students_per_date schedules = foldl count_step ∅ schedules.
Proof. reflexivity. Qed.

Lemma count_same_date d (g : list LabSchedule) (counts : gmap string nat) :
  Forall (fun s => date s = d) g ->
  foldl count_step counts g
  = match g with
    | [] => counts
    | _ => <[d := (default 0%nat (counts !! d)
                   + length (concat (map chunk_of g)))%nat]> counts
    end.
Proof.
  intros Hg. revert counts.
  induction Hg as [|s g' Hs Hg' IH]; intros counts; [done|].
  cbn [foldl]. rewrite IH. unfold count_step. rewrite Hs.
  rewrite slot_total_chunk_of. cbn [map concat]. rewrite length_app.
  destruct g' as [|s' g'']; simpl.
  - f_equal. lia.
  - rewrite lookup_insert_eq. simpl. rewrite insert_insert_eq.
    f_equal. rewrite length_app. lia.
Qed.

Lemma counts_bounded m labs bound dates groups :
  Forall2 (date_group m labs bound) dates groups ->
  NoDup dates ->
  forall counts : gmap string nat,
    (forall d, d ∈ dates -> counts !! d = None) ->
    map_Forall (fun _ n => (n <= bound)%nat) counts ->
    map_Forall (fun _ n => (n <= bound)%nat) (foldl count_step counts (concat groups)).
Proof.
  induction 1 as [|d g dates' groups' [Hem Hlen] _ IH];
    intros Hnd counts Hfresh Hb; [done|].
  apply NoDup_cons in Hnd as [Hd Hnd].
  cbn [concat]. rewrite foldl_app.
  rewrite (count_same_date d g).
  2:{ eapply Forall_impl; [exact Hem|]. intros s. apply emitted_date. }
  apply IH; [done|..].
  - intros d' Hd'. destruct g; [apply Hfresh; by right|].
    rewrite lookup_insert_ne by (intros ->; done).
    apply Hfresh. by right.
  - destruct g as [|s g']; [done|].
    apply map_Forall_insert_2; [|done].
    rewrite Hfresh by left. simpl in *. lia.
Qed.

(** ** The engine as it runs, and the engine without the checks *)

Lemma run_create_time_slot session (regs : list string) :
  (length regs <= 13)%nat ->
  Run.create_time_slot session regs = Ok (create_time_slot session regs).
Proof.
  intros Hlen. unfold Run.create_time_slot, create_time_slot, Run.TimeSlot_new.
  destruct (Nat.leb_spec (length regs) 13) as [_|Hgt]; [|lia].
  destruct (decide (session = "forenoon")).
  - rewrite decide_True by (by left). done.
  - rewrite decide_True by (by right). done.
Qed.

Lemma run_create_lab_schedule date lab students ie ee sem bat subj :
  Run.create_lab_schedule date lab students ie ee sem bat subj
  = if decide (lab = "") then Raise ValueError
    else
      internal ← Run.Examiner_new ie;
      external ← Run.Examiner_new ee;
      mret (create_lab_schedule date lab students internal external
                                sem bat subj).
Proof.
  unfold Run.create_lab_schedule, create_lab_schedule, split_into_slots.
  rewrite !run_create_time_slot
    by (rewrite length_slice; unfold FORENOON_CAPACITY, AFTERNOON_CAPACITY; lia).
  cbn [mbind result_bind Py.bind]. unfold Run.LabSchedule_new.
  destruct (decide (lab = "")); [done|].
  by rewrite decide_True by done.
Qed.


Lemma run_Examiner_new_returns examiner :
  from_option examiner_ok True examiner ->
  Run.Examiner_new examiner = Ok examiner.
Proof.
  destruct examiner as [e|]; simpl; [|done].
  intros [Hid Hname]. by rewrite !decide_False.
Qed.


Lemma run_create_lab_schedule_returns date lab students ie ee sem bat subj :
  lab_ok lab ->
  from_option examiner_ok True ie -> from_option examiner_ok True ee ->
  Run.create_lab_schedule date lab students ie ee sem bat subj
  = Ok (create_lab_schedule date lab students ie ee sem bat subj).
Proof.
  intros Hlab Hie Hee. rewrite run_create_lab_schedule.
  rewrite decide_False by done.
  by rewrite (run_Examiner_new_returns ie Hie), (run_Examiner_new_returns ee Hee).
Qed.

Lemma pick_examiner_ok (examiners : list Examiner) i :
  Forall examiner_ok examiners ->
  from_option examiner_ok True (pick_examiner examiners i).
Proof.
  intros Hall. unfold pick_examiner. destruct examiners as [|e0 rest]; [done|].
  destruct ((e0 :: rest) !! (i mod length (e0 :: rest))%nat) as [e|] eqn:E;
    [|done].
  simpl. by eapply (proj1 (Forall_lookup _ _) Hall).
Qed.

Section RunLoops.
Context (ie ee : list Examiner) (m : gmap string (string * string)).


Lemma run_lab_loop_returns d subj students labs idx acc :
  Forall (fun il => lab_ok il.2) labs ->
  Forall examiner_ok ie -> Forall examiner_ok ee ->
  Run.lab_loop ie ee m d subj students labs idx acc
  = Ok (lab_loop ie ee m d subj students labs idx acc).
Proof.
  intros Hlabs Hie Hee. revert idx acc.
  induction Hlabs as [|[i lab] rest Hlab _ IH]; intros idx acc; [done|].
  cbn [Run.lab_loop lab_loop].
  destruct (length students <=? idx)%nat; [done|].
  destruct (slice students idx
              (Nat.min (idx + STUDENTS_PER_LAB) (length students)))
    as [|c0 chunk'] eqn:Hchunk; [apply IH|].
  destruct (chunk_cohort m (c0 :: chunk')) as [sem bat].
  rewrite run_create_lab_schedule_returns;
    [|done|by apply pick_examiner_ok..].
  cbn [mbind result_bind Py.bind]. apply IH.
Qed.



Lemma enumerate_lab_ok (labs : list string) :
  Forall lab_ok labs -> Forall (fun il => lab_ok il.2) (enumerate labs).
Proof.
  intros Hlabs. apply (Forall_fmap snd lab_ok). by rewrite snd_enumerate.
Qed.

Lemma run_sequential_loop_returns ds students labs dates idx acc :
  Forall lab_ok labs -> Forall examiner_ok ie -> Forall examiner_ok ee ->
  Run.sequential_loop ie ee m ds students labs dates idx acc
  = Ok (sequential_loop ie ee m ds students labs dates idx acc).
Proof.
  intros Hlabs Hie Hee. revert idx acc.
  induction dates as [|d rest IH]; intros idx acc; [done|].
  cbn [Run.sequential_loop sequential_loop].
  destruct (length students <=? idx)%nat; [done|].
  rewrite run_lab_loop_returns; [|by apply enumerate_lab_ok|done..].
  cbn [mbind result_bind Py.bind].
  destruct (lab_loop ie ee m d (ds !! d) students (enumerate labs) idx acc)
    as [idx' acc'].
  apply IH.
Qed.

Lemma run_date_keyed_loop_returns ds drn labs dates acc :
  Forall lab_ok labs -> Forall examiner_ok ie -> Forall examiner_ok ee ->
  Run.date_keyed_loop ie ee m ds drn labs dates acc
  = Ok (date_keyed_loop ie ee m ds drn labs dates acc).
Proof.
  intros Hlabs Hie Hee. revert acc.
  induction dates as [|d rest IH]; intros acc; [done|].
  cbn [Run.date_keyed_loop date_keyed_loop].
  rewrite run_lab_loop_returns; [|by apply enumerate_lab_ok|done..].
  cbn [mbind result_bind Py.bind].
  destruct (lab_loop ie ee m d (ds !! d) (default [] (drn !! d))
              (enumerate labs) 0 acc) as [idx' acc'].
  apply IH.
Qed.
End RunLoops.


(** The run returns when no lab name is empty and every examiner has an id
    and a name. *)
Lemma run_allocate_students_returns regs dates labs ie ee sems ds drn :
  Forall lab_ok labs -> Forall examiner_ok ie -> Forall examiner_ok ee ->
  Run.allocate_students regs dates labs ie ee sems ds drn
  = Ok (allocate_students regs dates labs ie ee sems ds drn).
Proof.
  intros Hlabs Hie Hee. unfold Run.allocate_students, allocate_students.
  case_decide.
  - by apply run_sequential_loop_returns.
  - by apply run_date_keyed_loop_returns.
Qed.

(** A lab without a name makes the run raise as soon as a chunk reaches
    it. *)
Example run_refuses_a_lab_without_name :
  Run.allocate_students ["REG1"] ["01-01-25"] [""] [] [] [] ∅ ∅
  = Raise ValueError /\
  Run.allocate_students (candidates 26) ["01-01-25"] ["Lab 1"; ""] [] [] [] ∅ ∅
  = Raise ValueError /\
  returns (Run.allocate_students (candidates 25) ["01-01-25"] ["Lab 1"; ""]
             [] [] [] ∅ ∅).
Proof. split_and!; [by vm_compute..|]. eexists. by vm_compute. Qed.

(** ** The candidates of a date-keyed run *)

Lemma concat_Permutation_proper {A} (l1 l2 : list (list A)) :
  l1 ≡ₚ l2 -> concat l1 ≡ₚ concat l2.
Proof.
  induction 1 as [|x l1 l2 _ IH|x y l|l1 l2 l3 _ IH1 _ IH2]; simpl.
  - done.
  - by rewrite IH.
  - rewrite !app_assoc. by rewrite (Permutation_app_comm x y).
  - by rewrite IH1.
Qed.

Lemma keyed_candidates_dates (drn : gmap string (list string)) dates :
  NoDup dates -> (forall d, is_Some (drn !! d) -> d ∈ dates) ->
  concat (map (fun d => default [] (drn !! d)) dates) ≡ₚ keyed_candidates drn.
Proof.
  unfold keyed_candidates. revert dates.
  induction drn as [|k v drn Hk IH] using map_ind; intros dates Hnd Hkeys.
  - rewrite map_to_list_empty. simpl.
    induction dates as [|d dates' IHd]; [done|].
    simpl. rewrite lookup_empty. simpl. apply IHd.
    + by apply NoDup_cons in Hnd as [_ ?].
    + intros d' Hd'. rewrite lookup_empty in Hd'. by destruct Hd'.
  - rewrite (concat_Permutation_proper _ _
               (Permutation_map snd (map_to_list_insert drn k v Hk))).
    simpl.
    assert (Hin : k ∈ dates) by (apply Hkeys; rewrite lookup_insert_eq; by eexists).
    apply list_elem_of_split in Hin as (l1 & l2 & ->).
    apply NoDup_app in Hnd as (Hnd1 & Hdisj & Hnd2).
    apply NoDup_cons in Hnd2 as [Hk2 Hnd2].
    assert (Hk1 : k ∉ l1) by (intros H; apply (Hdisj k H); left).
    assert (Hsame : forall l, k ∉ l ->
              map (fun d => default [] (<[k:=v]> drn !! d)) l
              = map (fun d => default [] (drn !! d)) l).
    { intros l Hl. apply map_ext_in. intros d Hd.
      rewrite lookup_insert_ne; [done|].
      intros ->. by apply Hl, list_elem_of_In. }
    rewrite map_app, concat_app. cbn [map concat].
    rewrite lookup_insert_eq. cbn [default].
    rewrite (Hsame l1 Hk1), (Hsame l2 Hk2).
    rewrite Permutation_app_swap_app. apply Permutation_app_head.
    rewrite <- concat_app, <- map_app. apply IH.
    + apply NoDup_app. split_and!; [done| |done].
      intros x Hx1 Hx2. apply (Hdisj x Hx1). by right.
    + intros d Hd.
      assert (d <> k) by (intros ->; rewrite Hk in Hd; by destruct Hd).
      specialize (Hkeys d ltac:(by rewrite lookup_insert_ne)).
      rewrite elem_of_app, elem_of_cons in Hkeys. rewrite elem_of_app. tauto.
Qed.

(** ** The allocation engine: sessions, order, capacity *)

(** C2.  Every lab schedule that [allocate_students] produces, in either
    mode and for any input, has exactly two sessions, "forenoon" then
    "afternoon", both present even when empty; the forenoon holds at most 13
    candidates, the afternoon at most 12, together at most 25, and the
    afternoon holds a candidate only when the forenoon holds exactly 13. *)
Theorem C2_two_sessions regs dates labs ie ee sems ds drn :
  Forall two_sessions (allocate_students regs dates labs ie ee sems ds drn).
Proof.
  eapply Forall_impl; [apply allocate_students_emitted|].
  intros s [d Hs]. by eapply emitted_two_sessions.
Qed.

(** The scenario of 25 candidates on one date with five labs: a single
    schedule, 13 in the forenoon and 12 in the afternoon. *)
Example scenario_25_candidates :
  map (fun s => (lab s, map (fun t => length (register_numbers t)) (slots s)))
      (allocate_students (candidates 25) ["01-01-25"] five_labs [] [] [] ∅ ∅)
  = [("Lab 1", [13; 12]%nat)].
Proof. vm_compute. reflexivity. Qed.

(** The scenario of 130 candidates on two dates: five full labs on the
    first day, one lab with five candidates in the forenoon on the second. *)
Example scenario_130_candidates :
  map (fun s => (date s, lab s, map capacity (slots s)))
      (allocate_students (candidates 130) ["01-01-25"; "02-01-25"] five_labs
                         [] [] [] ∅ ∅)
  = [("01-01-25", "Lab 1", [13; 12]); ("01-01-25", "Lab 2", [13; 12]);
     ("01-01-25", "Lab 3", [13; 12]); ("01-01-25", "Lab 4", [13; 12]);
     ("01-01-25", "Lab 5", [13; 12]); ("02-01-25", "Lab 1", [5; 0])]%nat.
Proof. vm_compute. reflexivity. Qed.



(** C1, as the code has it.  Let no lab name be empty, let every examiner
    have an id and a name, and let the capacity suffice: in sequential mode
    [len(register_numbers) <= 25 * len(dates) * len(labs)]; in date-keyed
    mode every date's own list has at most [25 * len(labs)] entries, the
    dates are pairwise distinct and every key of [date_register_numbers] is
    one of the dates.  Then [allocate_students] returns, and the register
    numbers of its result, read date by date, lab by lab, forenoon then
    afternoon, are exactly the candidates given, in their order: the global
    list in sequential mode, the lists of the dates in date order in
    date-keyed mode, which together are all the lists of the dictionary,
    each once.  So no candidate is lost, none is repeated, and the order is
    kept. *)
Theorem C1_order_preserved_when_capacity_suffices
    regs dates labs ie ee sems ds (drn : gmap string (list string)) :
  (drn = ∅ -> (length regs <= 25 * length dates * length labs)%nat) ->
  (drn <> ∅ ->
   Forall (fun d => (length (default [] (drn !! d)) <= 25 * length labs)%nat)
          dates /\
   NoDup dates /\
   (forall d, is_Some (drn !! d) -> d ∈ dates)) ->
  Forall lab_ok labs -> Forall examiner_ok ie -> Forall examiner_ok ee ->
  exists out,
    Run.allocate_students regs dates labs ie ee sems ds drn = Ok out /\
    get_all_register_numbers out = input_candidates regs dates drn /\
    (drn <> ∅ -> get_all_register_numbers out ≡ₚ keyed_candidates drn).
Proof.
  intros Hseq Hkeyed Hlabs Hie Hee.
  exists (allocate_students regs dates labs ie ee sems ds drn).
  split; [by apply run_allocate_students_returns|].
  assert (Hout : get_all_register_numbers
                   (allocate_students regs dates labs ie ee sems ds drn)
                 = input_candidates regs dates drn).
  { destruct (allocate_students_groups regs dates labs ie ee sems ds drn)
      as (groups & _ & _ & ->).
    unfold input_candidates. case_decide as Hmode.
    - apply take_ge. specialize (Hseq Hmode). lia.
    - destruct (Hkeyed Hmode) as (Hfit & _). clear Hseq Hkeyed. f_equal.
      induction Hfit as [|d dates' Hd _ IH]; [done|].
      cbn [map concat]. rewrite IH. f_equal. by apply take_ge. }
  split; [done|].
  intros Hmode. rewrite Hout. unfold input_candidates.
  rewrite decide_False by done.
  destruct (Hkeyed Hmode) as (_ & Hnd & Hkeys).
  by apply keyed_candidates_dates.
Qed.

(** One date and one lab hold 25 candidates: of 26, the last is dropped. *)
Lemma C1_counterexample :
  Run.allocate_students (candidates 26) ["01-01-25"] ["Lab 1"] [] [] [] ∅ ∅
  = Ok (allocate_students (candidates 26) ["01-01-25"] ["Lab 1"] [] [] [] ∅ ∅) /\
  get_all_register_numbers
    (allocate_students (candidates 26) ["01-01-25"] ["Lab 1"] [] [] [] ∅ ∅)
  = candidates 25 /\
  "REG25" ∈ candidates 26 /\
  count_occ string_dec (candidates 25) "REG25" = 0%nat.
Proof.
  split_and!; [by vm_compute|by vm_compute| |by vm_compute].
  apply list_elem_of_In. vm_compute. tauto.
Qed.

Lemma C1_witness :
  (exists out,
     Run.allocate_students (candidates 130) ["01-01-25"; "02-01-25"] five_labs
                           [] [] [] ∅ ∅ = Ok out /\
     get_all_register_numbers out
     = input_candidates (candidates 130) ["01-01-25"; "02-01-25"] ∅ /\
     ((∅ : gmap string (list string)) <> ∅ ->
      get_all_register_numbers out ≡ₚ keyed_candidates ∅)) /\
  (exists out,
     Run.allocate_students [] ["02-01-25"; "01-01-25"] five_labs [] [] [] ∅
       {[ "01-01-25" := candidates 30; "02-01-25" := ["X1"; "X2"] ]} = Ok out /\
     get_all_register_numbers out
     = input_candidates [] ["02-01-25"; "01-01-25"]
         {[ "01-01-25" := candidates 30; "02-01-25" := ["X1"; "X2"] ]} /\
     (({[ "01-01-25" := candidates 30; "02-01-25" := ["X1"; "X2"] ]}
       : gmap string (list string)) <> ∅ ->
      get_all_register_numbers out
      ≡ₚ keyed_candidates
           {[ "01-01-25" := candidates 30; "02-01-25" := ["X1"; "X2"] ]})).
Proof.
  split.
  - apply C1_order_preserved_when_capacity_suffices.
    + intros _. vm_compute. lia.
    + intros H. exfalso. by apply H.
    + unfold five_labs, DEFAULT_LABS. by repeat constructor.
    + constructor.
    + constructor.
  - apply C1_order_preserved_when_capacity_suffices.
    + intros H. exfalso.
      apply (f_equal (fun m : gmap string (list string) => m !! "01-01-25")) in H.
      vm_compute in H. discriminate.
    + intros _. split_and!.
      * repeat constructor; vm_compute; lia.
      * apply (bool_decide_unpack _). by vm_compute.
      * intros d [v Hd].
        apply lookup_insert_Some in Hd as [[<- _]|[_ Hd]];
          [apply (bool_decide_unpack _); by vm_compute|].
        apply lookup_singleton_Some in Hd as [<- _].
        apply (bool_decide_unpack _). by vm_compute.
    + unfold five_labs, DEFAULT_LABS. by repeat constructor.
    + constructor.
    + constructor.
Defined.

(** C3, as the code has it.  When the dates are pairwise distinct, the
    candidates that [count_students_per_date] counts for a date are at most
    25 for each lab supplied; so no date exceeds 125 when at most five labs
    are supplied. *)
Theorem C3_date_total_bounded regs dates labs ie ee sems ds drn :
  NoDup dates ->
  map_Forall
    (fun _ n => (n <= 25 * length labs)%nat /\
                ((length labs <= 5)%nat -> (n <= 125)%nat))
    (count_students_per_date
       (allocate_students regs dates labs ie ee sems ds drn)).
Proof.
  intros Hnd.
  destruct (allocate_students_groups regs dates labs ie ee sems ds drn)
    as (groups & -> & Hg & _).
  rewrite count_students_per_date_foldl.
  eapply map_Forall_impl.
  - eapply counts_bounded; [exact Hg|exact Hnd|done|].
    apply map_Forall_empty.
  - intros d n Hn. simpl in Hn. split; [done|lia].
Qed.

(** Six labs on one date take 150 candidates. *)
Lemma C3_counterexample :
  count_students_per_date
    (allocate_students (candidates 150) ["01-01-25"]
       ["Lab 1"; "Lab 2"; "Lab 3"; "Lab 4"; "Lab 5"; "Lab 6"] [] [] [] ∅ ∅)
  !! "01-01-25" = Some 150%nat /\ (125 < 150)%nat.
Proof. split; [by vm_compute|lia]. Qed.

Lemma C3_witness :
  map_Forall
    (fun _ n => (n <= 25 * length five_labs)%nat /\
                ((length five_labs <= 5)%nat -> (n <= 125)%nat))
    (count_students_per_date
       (allocate_students (candidates 130) ["01-01-25"; "02-01-25"] five_labs
                          [] [] [] ∅ ∅)).
Proof.
  apply C3_date_total_bounded.
  apply NoDup_cons. split; [|apply NoDup_singleton].
  intros H. apply list_elem_of_singleton in H. discriminate.
Defined.

(** ** Stable sorting by an integer key *)

Section StableSortFacts.
Context {A : Type} (key : A -> Z).

Lemma insert_by_Permutation x l : insert_by key x l ≡ₚ x :: l.
Proof.
  induction l as [|y l IH]; simpl; [done|].
  destruct (key x <=? key y); [done|].
  rewrite IH. apply perm_swap.
Qed.

Lemma stable_sort_Permutation l : stable_sort key l ≡ₚ l.
Proof.
  induction l as [|x l IH]; simpl; [done|].
  rewrite insert_by_Permutation. by rewrite IH.
Qed.

Lemma length_stable_sort l : length (stable_sort key l) = length l.
Proof. apply Permutation_length, stable_sort_Permutation. Qed.

Lemma insert_by_sorted x l :
  StronglySorted (key_le key) l -> StronglySorted (key_le key) (insert_by key x l).
Proof.
  induction 1 as [|y l Hl IH Hy]; simpl.
  - repeat constructor.
  - destruct (Z.leb_spec (key x) (key y)) as [Hxy|Hyx].
    + constructor; [by constructor|].
      constructor; [done|].
      eapply Forall_impl; [exact Hy|]. unfold key_le. intros z Hz. lia.
    + constructor; [done|].
      rewrite insert_by_Permutation. constructor; [|done].
      unfold key_le. lia.
Qed.

Lemma stable_sort_sorted l : StronglySorted (key_le key) (stable_sort key l).
Proof.
  induction l as [|x l IH]; simpl; [constructor|].
  by apply insert_by_sorted.
Qed.

(** Sorting pairs [(key, item)] on the first component and dropping the
    keys sorts the items by their key. *)
Lemma stable_sort_decorated (l : list A) :
  map snd (stable_sort fst (map (fun a => (key a, a)) l)) = stable_sort key l.
Proof.
  assert (Hins : forall x k,
    insert_by fst (key x, x) (map (fun a => (key a, a)) k)
    = map (fun a => (key a, a)) (insert_by key x k)).
  { intros x k. induction k as [|y k IH]; simpl; [done|].
    destruct (key x <=? key y); simpl; [done|]. by rewrite IH. }
  assert (Hsort : stable_sort fst (map (fun a => (key a, a)) l)
                  = map (fun a => (key a, a)) (stable_sort key l)).
  { induction l as [|x l IH]; simpl; [done|]. by rewrite IH, Hins. }
  rewrite Hsort, map_map. simpl. apply map_id.
Qed.

(** Items that carry the largest key [hi] end up last, in their original
    order, behind the sorted others. *)
Context (hi : Z).



End StableSortFacts.

(** ** Facts on [strptime] *)





Lemma strptime_raises s e : strptime s = Raise e -> e = ValueError.
Proof.
  unfold strptime, make_datetime. intros H.
  repeat (match type of H with
          | context [match ?x with _ => _ end] => destruct x
          end; try done);
    by injection H.
Qed.




(** ** The date sorter *)

Lemma parse_dates_stable_sort l :
  parse_dates l = stable_sort date_key (map strip l).
Proof.
  destruct l as [|a l]; [done|]. unfold parse_dates.
  rewrite <- (stable_sort_decorated date_key (map strip (a :: l))).
  by rewrite map_map.
Qed.




Example parse_dates_malformed_last :
  parse_dates ["02-01-25"; "soon"; "01-01-25"; "2025-01-01"; "15-12-24"]
  = ["15-12-24"; "01-01-25"; "02-01-25"; "soon"; "2025-01-01"].
Proof. by vm_compute. Qed.

(** ** The date selector *)

Lemma ceil_div_positive n : 1 <= n -> 1 <= ceil_div n 125.
Proof.
  intros Hn. unfold ceil_div.
  pose proof (Z.div_lt_upper_bound (- n) 125 0 ltac:(lia) ltac:(lia)). lia.
Qed.

Lemma zip_map_self {A B} (f : A -> B) (l : list A) :
  zip (map f l) l = map (fun a => (f a, a)) l.
Proof. induction l as [|a l IH]; simpl; [done|]. by rewrite IH. Qed.

Lemma parse_date_key tok :
  well_formed tok -> parse_date tok = Ok (date_key tok).
Proof.
  unfold well_formed, parses, parse_date, date_key.
  by destruct (strptime tok).
Qed.

Lemma map_result_parse_date pool :
  Forall well_formed pool ->
  map_result parse_date pool = Ok (map date_key pool).
Proof.
  induction 1 as [|tok pool Htok _ IH]; simpl; [done|].
  by rewrite (parse_date_key tok Htok), IH.
Qed.

Lemma sorted_by_date_ok pool :
  Forall well_formed pool ->
  sorted_by_date pool = Ok (stable_sort date_key pool).
Proof.
  intros Hpool. unfold sorted_by_date.
  rewrite (map_result_parse_date pool Hpool). simpl.
  by rewrite zip_map_self, stable_sort_decorated.
Qed.

Lemma date_diff_days_ok a b :
  well_formed a -> well_formed b -> returns (date_diff_days a b).
Proof.
  intros Ha Hb. unfold date_diff_days.
  rewrite (parse_date_key a Ha). simpl.
  rewrite (parse_date_key b Hb). simpl. by eexists.
Qed.

Lemma gap_walk_spec required gap rest selected :
  Forall well_formed rest -> Forall well_formed selected -> selected <> [] ->
  exists extra,
    gap_walk required gap rest selected = Ok (selected ++ extra) /\
    extra `sublist_of` rest /\
    (Z.of_nat (length selected) <= required ->
     Z.of_nat (length (selected ++ extra)) <= required).
Proof.
  intros Hrest. revert selected.
  induction Hrest as [|tok rest Htok Hrest IH]; intros selected Hsel Hne.
  - exists []. rewrite app_nil_r. by split_and!.
  - cbn [gap_walk].
    destruct (Z.geb_spec (Z.of_nat (length selected)) required) as [Hfull|Hroom].
    { exists []. rewrite app_nil_r. split_and!; [done|apply sublist_nil_l|done]. }
    unfold last_item.
    destruct (last selected) as [lst|] eqn:Hlast;
      [|by apply last_None in Hlast].
    assert (Hlst : well_formed lst).
    { apply last_Some_elem_of in Hlast.
      by apply (proj1 (Forall_forall _ _) Hsel). }
    destruct (date_diff_days_ok lst tok Hlst Htok) as [g Hg].
    simpl. rewrite Hg. simpl.
    destruct (g >=? gap).
    + destruct (IH (selected ++ [tok])) as (extra & Hrun & Hsub & Hlen).
      { apply Forall_app. split; [done|by constructor]. }
      { by destruct selected. }
      exists (tok :: extra). rewrite Hrun, <- app_assoc. split_and!; [done|..].
      * by apply sublist_skip.
      * intros _. rewrite <- app_assoc in Hlen. apply Hlen.
        rewrite length_app. simpl. lia.
    + destruct (IH selected Hsel Hne) as (extra & Hrun & Hsub & Hlen).
      exists extra. split_and!; [done| |done].
      by apply sublist_cons.
Qed.

Lemma actual_gaps_cons d1 d2 rest :
  actual_gaps (d1 :: d2 :: rest)
  = (gap ← date_diff_days d1 d2;
     gaps ← actual_gaps (d2 :: rest);
     mret (gap :: gaps)).
Proof. reflexivity. Qed.

Lemma actual_gaps_ok selected :
  Forall well_formed selected -> returns (actual_gaps selected).
Proof.
  induction 1 as [|d1 rest Hd1 Hrest IH]; [by eexists|].
  destruct rest as [|d2 rest']; [by eexists|].
  rewrite actual_gaps_cons.
  destruct (date_diff_days_ok d1 d2) as [g Hg]; [done|by inversion Hrest|].
  destruct IH as [gaps Hgaps].
  rewrite Hg, Hgaps. by eexists.
Qed.

Lemma with_gap_message_ok n selected :
  Forall well_formed selected ->
  exists message, with_gap_message n selected = Ok (selected, message).
Proof.
  intros Hsel. unfold with_gap_message.
  destruct (actual_gaps_ok selected Hsel) as [gaps ->]. simpl. by eexists.
Qed.

Lemma Forall_submseteq {A} (P : A -> Prop) (k l : list A) :
  k ⊆+ l -> Forall P l -> Forall P k.
Proof.
  intros Hsub Hl. apply Forall_forall. intros x Hx.
  apply (proj1 (Forall_forall _ _) Hl). by eapply elem_of_submseteq.
Qed.

Lemma slice_to_submseteq {A} (l : list A) n : slice_to l n ⊆+ l.
Proof. unfold slice_to. destruct (n <? 0); apply submseteq_take. Qed.

Lemma length_slice_to {A} (l : list A) n :
  0 <= n <= Z.of_nat (length l) -> Z.of_nat (length (slice_to l n)) = n.
Proof.
  intros Hn. unfold slice_to. destruct (Z.ltb_spec n 0); [lia|].
  rewrite length_take. lia.
Qed.

(** The selector on a pool of well-formed tokens: it returns, what it
    selects comes from the pool, and with enough dates for at least one
    candidate it selects exactly the required number. *)
Lemma select_optimal_dates_spec pool n gap :
  Forall well_formed pool ->
  exists selected message,
    select_optimal_dates pool n gap = Ok (selected, message) /\
    selected ⊆+ pool /\
    (1 <= n -> ceil_div n 125 <= Z.of_nat (length pool) ->
     Z.of_nat (length selected) = ceil_div n 125).
Proof.
  intros Hpool. unfold select_optimal_dates.
  change (Z.of_nat Scheduler.DAILY_CAPACITY) with 125.
  destruct pool as [|p0 pool'] eqn:Epool.
  { eexists _, _. split_and!; [done..|].
    intros Hn. pose proof (ceil_div_positive n Hn). simpl. lia. }
  assert (Hpne : (0 < length pool)%nat) by (rewrite Epool; simpl; lia).
  rewrite <- Epool in *. clear p0 pool' Epool.
  set (required := ceil_div n 125).
  destruct (Z.eqb_spec required 0) as [Hzero|Hnonzero].
  { eexists _, _. split_and!; [done|apply submseteq_nil_l|].
    intros Hn. pose proof (ceil_div_positive n Hn). lia. }
  rewrite (sorted_by_date_ok pool Hpool). simpl.
  pose proof (stable_sort_Permutation date_key pool) as Hperm.
  pose proof (length_stable_sort date_key pool) as Hlen.
  set (sorted := stable_sort date_key pool) in *.
  assert (Hsorted : Forall well_formed sorted) by (by rewrite Hperm).
  assert (Hrelax : forall k, slice_to sorted k ⊆+ pool).
  { intros k. rewrite <- Hperm. apply slice_to_submseteq. }
  destruct (Z.ltb_spec (Z.of_nat (length sorted)) required) as [Hshort|Henough].
  { eexists _, _. split_and!; [done|by rewrite Hperm|lia]. }
  destruct (Z.eqb_spec required 1) as [Hone|Hmore].
  { destruct sorted as [|first sorted'] eqn:Es; [simpl in *; lia|].
    simpl. eexists _, _. split_and!; [done| |simpl; lia].
    apply singleton_submseteq_l. rewrite <- Hperm. left. }
  destruct (Z.leb_spec gap 1) as [Hnogap|Hgap].
  { destruct (with_gap_message_ok n (slice_to sorted required)) as [msg ->].
    { eapply Forall_submseteq; [apply slice_to_submseteq|done]. }
    eexists _, _. split_and!; [done|apply Hrelax|].
    intros Hn _. pose proof (ceil_div_positive n Hn).
    apply length_slice_to. fold required. lia. }
  destruct sorted as [|first sorted'] eqn:Es; [simpl in *; lia|].
  simpl.
  destruct (gap_walk_spec required gap sorted' [first])
    as (extra & Hrun & Hsub & Hwalk).
  { by inversion Hsorted. }
  { inversion Hsorted. by constructor. }
  { done. }
  rewrite drop_0, Hrun. unfold mbind, result_bind, Py.bind. cbn [app].
  assert (Hsel : (first :: extra) ⊆+ pool).
  { rewrite <- Hperm. apply sublist_submseteq. by apply sublist_skip. }
  destruct (Z.ltb_spec (Z.of_nat (length (first :: extra))) required)
    as [Hfew|Hreached].
  { eexists _, _. split_and!; [done|apply Hrelax|].
    intros Hn _. pose proof (ceil_div_positive n Hn).
    apply length_slice_to. fold required. lia. }
  destruct (with_gap_message_ok n (first :: extra)) as [msg ->].
  { by eapply Forall_submseteq. }
  eexists _, _. split_and!; [done..|].
  intros Hn _.
  assert (Hreq : 1 <= required) by (by apply ceil_div_positive).
  cbn [app length] in Hwalk, Hreached |- *. lia.
Qed.

(** With a token that does not parse, the sort key raises as soon as the
    pool is sorted, that is, whenever the pool is not empty and some day is
    required. *)
Lemma map_result_parse_date_raises pool :
  Exists (fun tok => parses tok = false) pool ->
  map_result parse_date pool = Raise ValueError.
Proof.
  induction pool as [|tok pool IH]; intros Hex; [by inversion Hex|].
  cbn [map_result]. unfold parse_date at 1.
  destruct (strptime tok) as [dt|e] eqn:E; cbn [Py.bind].
  - rewrite IH; [done|]. inversion Hex as [? ? Hbad|]; [|done].
    unfold parses in Hbad. by rewrite E in Hbad.
  - by rewrite (strptime_raises tok e E).
Qed.

Lemma select_optimal_dates_raises pool n gap :
  Exists (fun tok => parses tok = false) pool ->
  ceil_div n 125 <> 0 ->
  select_optimal_dates pool n gap = Raise ValueError.
Proof.
  intros Hex Hreq. unfold select_optimal_dates.
  change (Z.of_nat Scheduler.DAILY_CAPACITY) with 125.
  destruct pool as [|tok pool'] eqn:Epool; [by inversion Hex|].
  rewrite <- Epool in *.
  destruct (Z.eqb_spec (ceil_div n 125) 0) as [|_]; [done|].
  unfold sorted_by_date. by rewrite (map_result_parse_date_raises pool Hex).
Qed.

(** C4.  For a candidate count [n >= 1], any minimum gap, and a pool of
    well-formed tokens with at least [ceil(n / 125)] entries,
    [select_optimal_dates] returns exactly [ceil(n / 125)] dates, all drawn
    from the pool (none more often than the pool holds it) -- whether the
    gap walk succeeds or the ungapped prefix is taken. *)
Theorem C4_selects_required_days pool n gap :
  1 <= n ->
  Forall well_formed pool ->
  ceil_div n 125 <= Z.of_nat (length pool) ->
  exists selected message,
    select_optimal_dates pool n gap = Ok (selected, message) /\
    Z.of_nat (length selected) = ceil_div n 125 /\
    selected ⊆+ pool.
Proof.
  intros Hn Hpool Hlen.
  destruct (select_optimal_dates_spec pool n gap Hpool)
    as (selected & message & Hrun & Hsub & Hcount).
  exists selected, message. split_and!; [done| |done]. by apply Hcount.
Qed.

Lemma three_tokens_well_formed a b c :
  parses a = true -> parses b = true -> parses c = true ->
  Forall well_formed [a; b; c].
Proof. intros. by repeat constructor. Qed.

Lemma C4_witness :
  exists selected message,
    select_optimal_dates ["15-01-25"; "10-01-25"; "11-01-25"] 200 3
    = Ok (selected, message) /\
    Z.of_nat (length selected) = ceil_div 200 125 /\
    selected ⊆+ ["15-01-25"; "10-01-25"; "11-01-25"].
Proof.
  apply C4_selects_required_days.
  - lia.
  - apply three_tokens_well_formed; by vm_compute.
  - by vm_compute.
Defined.

(** The scenario of the description: two days are required, the 3-day gap
    is honoured by the 10th and the 15th, and nothing is relaxed. *)
Example select_gap_honoured :
  select_optimal_dates ["10-01-25"; "11-01-25"; "15-01-25"] 200 3
  = Ok (["10-01-25"; "15-01-25"], Selected 2 200 [5]).
Proof. by vm_compute. Qed.

(** When the gap cannot be honoured the ungapped prefix is returned. *)
Example select_gap_relaxed :
  select_optimal_dates ["10-01-25"; "11-01-25"; "12-01-25"] 200 3
  = Ok (["10-01-25"; "11-01-25"], GapRelaxed 2).
Proof. by vm_compute. Qed.

(** C5, as the code has it.  On a pool whose tokens are all well-formed
    [select_optimal_dates] raises nothing and returns a pair of dates and
    explanation, for every minimum gap and every candidate count of at most
    [125 * 2^47] in magnitude, the counts on which the float quotient of
    [math.ceil(n / 125)] is exact enough. *)
Theorem C5_returns_on_well_formed_pool pool n gap :
  Forall well_formed pool -> exact_count n ->
  returns (select_optimal_dates pool n gap).
Proof.
  intros Hpool _.
  destruct (select_optimal_dates_spec pool n gap Hpool)
    as (selected & message & Hrun & _).
  by exists (selected, message).
Qed.

(** A token in another format makes the sort key raise [ValueError]. *)
Lemma C5_counterexample :
  select_optimal_dates ["2025-01-01"] 1 1 = Raise ValueError.
Proof. by vm_compute. Qed.

Lemma C5_witness :
  returns (select_optimal_dates ["15-01-25"; "10-01-25"; "11-01-25"] (-300) 4).
Proof.
  apply C5_returns_on_well_formed_pool.
  - apply three_tokens_well_formed; by vm_compute.
  - by vm_compute.
Defined.

(** ** The tally of cohort pairs *)

Lemma tally_chunk_pairs m chunk :
  tally_chunk m chunk = tally_pairs (omap (fun r => m !! r) chunk).
Proof.
  unfold tally_chunk, tally_pairs. generalize ([] : pair_counts).
  induction chunk as [|r chunk IH]; intros counts; simpl; [done|].
  rewrite IH. by destruct (m !! r).
Qed.

Lemma tally_pairs_snoc pairs p :
  tally_pairs (pairs ++ [p]) = tally_add p (tally_pairs pairs).
Proof. unfold tally_pairs. by rewrite foldl_app. Qed.

Lemma count_of_tally_add k k' counts :
  count_of k' (tally_add k counts)
  = if decide (k' = k) then S (count_of k counts) else count_of k' counts.
Proof.
  induction counts as [|[k0 n] counts IH]; simpl.
  - repeat case_decide; congruence.
  - repeat (case_decide; simpl); try congruence.
Qed.

Lemma keys_tally_add k counts :
  map fst (tally_add k counts)
  = if decide (k ∈ map fst counts) then map fst counts else map fst counts ++ [k].
Proof.
  induction counts as [|[k0 n] counts IH]; cbn [tally_add map fst].
  - case_decide as H; [by apply elem_of_nil in H|done].
  - destruct (decide (k0 = k)) as [->|Hne]; cbn [map fst].
    + rewrite decide_True; [done|left].
    + rewrite IH. destruct (decide (k ∈ map fst counts)) as [Hin|Hout].
      * rewrite decide_True; [done|by right].
      * rewrite decide_False; [done|].
        intros [?|?]%elem_of_cons; congruence.
Qed.

Lemma occurrences_snoc k pairs p :
  occurrences k (pairs ++ [p])
  = if decide (k = p) then S (occurrences k pairs) else occurrences k pairs.
Proof.
  unfold occurrences. rewrite filter_app, length_app, filter_cons, filter_nil.
  repeat case_decide; simpl; try congruence; lia.
Qed.

Lemma occurrences_positive k pairs : (0 < occurrences k pairs)%nat <-> k ∈ pairs.
Proof.
  unfold occurrences. split.
  - intros Hpos.
    destruct (filter (fun x => x = k) pairs) as [|x xs] eqn:E; [simpl in Hpos; lia|].
    assert (Hx : x ∈ filter (fun x => x = k) pairs) by (rewrite E; left).
    apply list_elem_of_filter in Hx as [-> Hx]. done.
  - intros Hin.
    assert (Hk : k ∈ filter (fun x => x = k) pairs)
      by (by apply list_elem_of_filter).
    destruct (filter (fun x => x = k) pairs); [by apply elem_of_nil in Hk|].
    simpl. lia.
Qed.

Lemma count_of_tally_pairs k pairs :
  count_of k (tally_pairs pairs) = occurrences k pairs.
Proof.
  induction pairs as [|p pairs IH] using rev_ind; [done|].
  rewrite tally_pairs_snoc, count_of_tally_add, occurrences_snoc, IH.
  repeat case_decide; congruence.
Qed.

Lemma keys_tally_pairs k pairs : k ∈ map fst (tally_pairs pairs) <-> k ∈ pairs.
Proof.
  induction pairs as [|p pairs IH] using rev_ind; [done|].
  rewrite tally_pairs_snoc, keys_tally_add, elem_of_app, list_elem_of_singleton.
  case_decide as Hp.
  - rewrite IH. split; [by left|]. intros [?| ->]; [done|by apply IH].
  - by rewrite elem_of_app, list_elem_of_singleton, IH.
Qed.

Lemma keys_tally_pairs_NoDup pairs : NoDup (map fst (tally_pairs pairs)).
Proof.
  induction pairs as [|p pairs IH] using rev_ind; [constructor|].
  rewrite tally_pairs_snoc, keys_tally_add. case_decide as Hp; [done|].
  apply NoDup_app. split_and!; [done| |apply NoDup_singleton].
  intros x Hx ->%list_elem_of_singleton. done.
Qed.

Lemma count_of_elem k n (counts : pair_counts) :
  NoDup (map fst counts) -> (k, n) ∈ counts -> count_of k counts = n.
Proof.
  induction counts as [|[k0 n0] counts IH]; simpl; intros Hnd Hin.
  - by apply elem_of_nil in Hin.
  - apply NoDup_cons in Hnd as [Hk0 Hnd].
    apply elem_of_cons in Hin as [Heq|Hin].
    + injection Heq as -> ->. by rewrite decide_True.
    + rewrite decide_False; [by apply IH|].
      intros ->. apply Hk0. by apply (list_elem_of_fmap_2 fst) in Hin.
Qed.

(** The keys of a tally stand in the order of first appearance: whatever
    precedes the first appearance of a key in the list is a key that stands
    before it. *)
Lemma keys_tally_pairs_order pairs keys1 k keys2 :
  map fst (tally_pairs pairs) = keys1 ++ k :: keys2 ->
  exists pre post, pairs = pre ++ k :: post /\ forall q, q ∈ pre -> q ∈ keys1.
Proof.
  revert keys1 k keys2.
  induction pairs as [|p pairs IH] using rev_ind; intros keys1 k keys2 Hkeys.
  - by destruct keys1.
  - rewrite tally_pairs_snoc, keys_tally_add in Hkeys.
    case_decide as Hp.
    + destruct (IH _ _ _ Hkeys) as (pre & post & -> & Hpre).
      exists pre, (post ++ [p]). split; [by rewrite <- app_assoc|done].
    + destruct keys2 as [|z keys2 _] using rev_ind.
      * apply app_inj_tail in Hkeys as [<- <-].
        exists pairs, []. split; [done|].
        intros q Hq. by apply keys_tally_pairs.
      * rewrite app_comm_cons, app_assoc in Hkeys.
        apply app_inj_tail in Hkeys as [Hkeys <-].
        destruct (IH _ _ _ Hkeys) as (pre & post & -> & Hpre).
        exists pre, (post ++ [p]). split; [by rewrite <- app_assoc|done].
Qed.

(** [max] returns the first item with the largest count. *)
Lemma max_from_first seen1 best seen2 (items : pair_counts) :
  (forall y, y ∈ seen1 -> (snd y < snd best)%nat) ->
  (forall y, y ∈ seen2 -> (snd y <= snd best)%nat) ->
  exists l1 l2,
    seen1 ++ best :: seen2 ++ items = l1 ++ max_from best items :: l2 /\
    (forall y, y ∈ l1 -> (snd y < snd (max_from best items))%nat) /\
    (forall y, y ∈ l2 -> (snd y <= snd (max_from best items))%nat).
Proof.
  revert seen1 best seen2.
  induction items as [|x items IH]; intros seen1 best seen2 H1 H2.
  - exists seen1, seen2. by rewrite app_nil_r.
  - cbn [max_from]. destruct (Nat.ltb_spec (snd best) (snd x)) as [Hlt|Hge].
    + destruct (IH (seen1 ++ best :: seen2) x []) as (l1 & l2 & Heq & Hl1 & Hl2).
      * intros y [Hy|[->|Hy]%elem_of_cons]%elem_of_app;
          [specialize (H1 y Hy)|..|specialize (H2 y Hy)]; lia.
      * intros y Hy. by apply elem_of_nil in Hy.
      * exists l1, l2. split; [|done].
        rewrite <- Heq. by rewrite <- app_assoc.
    + destruct (IH seen1 best (seen2 ++ [x])) as (l1 & l2 & Heq & Hl1 & Hl2).
      * done.
      * intros y [Hy| ->%list_elem_of_singleton]%elem_of_app;
          [by apply H2|lia].
      * exists l1, l2. split; [|done].
        rewrite <- Heq. by rewrite <- app_assoc.
Qed.

Lemma omap_split {A B} (f : A -> option B) (l : list A) pre y post :
  omap f l = pre ++ y :: post ->
  exists l1 x l2,
    l = l1 ++ x :: l2 /\ omap f l1 = pre /\ f x = Some y /\ omap f l2 = post.
Proof.
  revert pre. induction l as [|a l IH]; intros pre Hl; simpl in Hl.
  - by destruct pre.
  - destruct (f a) as [b|] eqn:Ea.
    + destruct pre as [|b' pre]; simpl in Hl.
      * injection Hl as -> <-. by exists [], a, l.
      * injection Hl as -> Hl.
        destruct (IH pre Hl) as (l1 & x & l2 & -> & <- & Hx & <-).
        exists (a :: l1), x, l2. simpl. by rewrite Ea.
    + destruct (IH pre Hl) as (l1 & x & l2 & -> & <- & Hx & <-).
      exists (a :: l1), x, l2. simpl. by rewrite Ea.
Qed.

Lemma tally_occurrences m chunk p :
  tally m chunk p = occurrences p (omap (fun r => m !! r) chunk).
Proof.
  unfold tally, occurrences.
  induction chunk as [|r chunk IH]; simpl; [done|].
  rewrite filter_cons. destruct (m !! r) as [q|] eqn:Er.
  - rewrite filter_cons.
    destruct (decide (Some q = Some p)) as [E|E].
    + injection E as ->. rewrite decide_True by done. simpl. by rewrite IH.
    + rewrite decide_False by congruence. done.
  - rewrite decide_False by done. done.
Qed.

(** ** [sorted(set(...))] *)

Lemma insert_str_Permutation x l : insert_str x l ≡ₚ x :: l.
Proof.
  induction l as [|y l IH]; simpl; [done|].
  destruct (String.leb x y); [done|].
  rewrite IH. apply perm_swap.
Qed.

Lemma insert_str_sorted x l :
  StronglySorted String.le l -> StronglySorted String.le (insert_str x l).
Proof.
  induction 1 as [|y l Hl IH Hy]; simpl.
  - repeat constructor.
  - destruct (String.leb x y) eqn:Hxy.
    + assert (Hle : String.le x y) by (unfold String.le; by rewrite Hxy).
      constructor; [by constructor|].
      constructor; [done|].
      eapply Forall_impl; [exact Hy|]. intros z Hz. by etrans.
    + assert (Hle : String.le y x).
      { destruct (total String.le x y) as [H|H]; [|done].
        unfold String.le in H. by rewrite Hxy in H. }
      constructor; [done|].
      rewrite insert_str_Permutation. by constructor.
Qed.

Lemma sorted_set_spec l :
  Sorted String.le (sorted_set l) /\ NoDup (sorted_set l) /\
  forall x, x ∈ sorted_set l <-> x ∈ l.
Proof.
  unfold sorted_set.
  assert (Hperm : forall k, foldr insert_str [] k ≡ₚ k).
  { induction k as [|x k IH]; simpl; [done|].
    by rewrite insert_str_Permutation, IH. }
  split_and!.
  - apply StronglySorted_Sorted.
    induction (remove_dups l) as [|x k IH]; simpl; [constructor|].
    by apply insert_str_sorted.
  - rewrite Hperm. apply NoDup_remove_dups.
  - intros x. rewrite Hperm. apply elem_of_remove_dups.
Qed.

(** ** The cohort of a chunk *)

Lemma omap_nil_Forall {A B} (f : A -> option B) (l : list A) :
  omap f l = [] <-> Forall (fun x => f x = None) l.
Proof.
  induction l as [|a l IH]; simpl; [by split|].
  destruct (f a) eqn:Ea.
  - split; [done|]. intros H. inversion H; congruence.
  - rewrite IH. split; [by constructor|]. intros H. by inversion H.
Qed.

Lemma omap_cons_Exists {A B} (f : A -> option B) (l : list A) :
  Exists (fun x => is_Some (f x)) l -> omap f l <> [].
Proof.
  intros Hex Hnil. apply omap_nil_Forall in Hnil.
  apply Exists_exists in Hex as (x & Hx & [y Hy]).
  apply (proj1 (Forall_forall _ _) Hnil) in Hx. congruence.
Qed.

(** The count that the tally holds for a pair is the pair's tally. *)
Lemma tally_in_counts m chunk q nq :
  (q, nq) ∈ tally_pairs (omap (fun r => m !! r) chunk) ->
  tally m chunk q = nq /\ (0 < nq)%nat.
Proof.
  intros Hin.
  assert (Hcount : tally m chunk q = nq).
  { rewrite tally_occurrences, <- count_of_tally_pairs.
    apply count_of_elem; [apply keys_tally_pairs_NoDup|done]. }
  split; [done|]. rewrite <- Hcount, tally_occurrences.
  apply occurrences_positive, keys_tally_pairs.
  by apply (list_elem_of_fmap_2 fst) in Hin.
Qed.

Lemma tally_positive_key m chunk q :
  (0 < tally m chunk q)%nat ->
  (q, tally m chunk q) ∈ tally_pairs (omap (fun r => m !! r) chunk).
Proof.
  intros Hpos. rewrite tally_occurrences in Hpos.
  apply occurrences_positive, keys_tally_pairs in Hpos.
  apply list_elem_of_fmap in Hpos as ([q' nq] & -> & Hin).
  simpl. by destruct (tally_in_counts m chunk q' nq Hin) as [-> _].
Qed.

(** What [chunk_cohort] computes, in terms of the tally in first-appearance
    order: nothing when no candidate is mapped, and otherwise the first
    item with the largest count. *)
Lemma chunk_cohort_analysis m chunk :
  let counts := tally_pairs (omap (fun r => m !! r) chunk) in
  (omap (fun r => m !! r) chunk = [] /\ chunk_cohort m chunk = (None, None)) \/
  (exists p n l1 l2,
     counts = l1 ++ (p, n) :: l2 /\
     (forall y, y ∈ l1 -> (snd y < n)%nat) /\
     (forall y, y ∈ l2 -> (snd y <= n)%nat) /\
     chunk_cohort m chunk
     = (Some (fst p),
        if (1 <? length counts)%nat
        then Some (join ", " (sorted_set (map (fun kv => snd (fst kv)) counts)))
        else Some (snd p))).
Proof.
  intros counts. unfold chunk_cohort.
  case_decide as Hm.
  { left. split; [|done]. apply omap_nil_Forall, Forall_forall.
    intros r _. by rewrite Hm, lookup_empty. }
  rewrite tally_chunk_pairs. fold counts.
  destruct counts as [|first rest] eqn:Ec.
  { left. split; [|done].
    destruct (omap (fun r => m !! r) chunk) as [|k ks] eqn:Ep; [done|].
    assert (Hk : k ∈ map fst (tally_pairs (k :: ks)))
      by (apply keys_tally_pairs; left).
    subst counts. rewrite Ec in Hk. by apply elem_of_nil in Hk. }
  right.
  destruct (max_from_first [] first [] rest) as (l1 & l2 & Heq & Hl1 & Hl2).
  { intros y Hy. by apply elem_of_nil in Hy. }
  { intros y Hy. by apply elem_of_nil in Hy. }
  simpl in Heq.
  destruct (max_from first rest) as [[sem bat] n] eqn:Emax.
  exists (sem, bat), n, l1, l2. split_and!; [done..|].
  simpl. by destruct (1 <? S (length rest))%nat.
Qed.

Lemma chunk_cohort_highest m chunk p n l1 l2 :
  tally_pairs (omap (fun r => m !! r) chunk) = l1 ++ (p, n) :: l2 ->
  (forall y, y ∈ l1 -> (snd y < n)%nat) ->
  (forall y, y ∈ l2 -> (snd y <= n)%nat) ->
  tally m chunk p = n /\ (0 < n)%nat /\
  forall q, (tally m chunk q <= n)%nat.
Proof.
  intros Hcounts Hl1 Hl2.
  destruct (tally_in_counts m chunk p n) as [Hp Hn].
  { rewrite Hcounts. apply elem_of_app. right. left. }
  split_and!; [done..|].
  intros q. destruct (decide (0 < tally m chunk q)%nat) as [Hpos|]; [|lia].
  pose proof (tally_positive_key m chunk q Hpos) as Hq.
  rewrite Hcounts in Hq.
  apply elem_of_app in Hq as [Hq|[Hq|Hq]%elem_of_cons].
  - specialize (Hl1 _ Hq). simpl in Hl1. lia.
  - injection Hq as _ <-. lia.
  - specialize (Hl2 _ Hq). simpl in Hl2. lia.
Qed.

Lemma chunk_cohort_rule m chunk :
  cohort_rule m chunk (fst (chunk_cohort m chunk)) (snd (chunk_cohort m chunk)).
Proof.
  pose proof (keys_tally_pairs_NoDup (omap (fun r => m !! r) chunk)) as Hnd.
  destruct (chunk_cohort_analysis m chunk)
    as [[Hnil ->]|(p & n & l1 & l2 & Hcounts & Hl1 & Hl2 & ->)].
  { split; [done|]. intros Hex. by apply omap_cons_Exists in Hex. }
  split.
  { intros Hall. apply omap_nil_Forall in Hall.
    rewrite Hall in Hcounts. by destruct l1. }
  intros _.
  destruct (chunk_cohort_highest m chunk p n l1 l2 Hcounts Hl1 Hl2)
    as (Hp & Hn & Hmax).
  exists p. rewrite Hp. split_and!; [done..| |].
  - (* [p] is the only pair observed *)
    intros Honly. simpl.
    assert (Hone : l1 = [] /\ l2 = []).
    { rewrite Hcounts, map_app in Hnd. simpl in Hnd.
      apply NoDup_app in Hnd as (_ & Hdisj & [Hnot _]%NoDup_cons).
      split.
      - destruct l1 as [|[q nq] l1']; [done|]. exfalso.
        destruct (tally_in_counts m chunk q nq) as [Hq Hnq].
        { rewrite Hcounts. left. }
        assert (q = p) as -> by (apply Honly; lia).
        apply (Hdisj p); left.
      - destruct l2 as [|[q nq] l2']; [done|]. exfalso.
        destruct (tally_in_counts m chunk q nq) as [Hq Hnq].
        { rewrite Hcounts. apply elem_of_app. right. right. left. }
        assert (q = p) as -> by (apply Honly; lia).
        apply Hnot. left. }
    destruct Hone as [-> ->]. by rewrite Hcounts.
  - (* several pairs are observed *)
    intros (q & Hq & Hne). simpl.
    pose proof (tally_positive_key m chunk q Hq) as Hin.
    assert (Hlen : (1 <? length (tally_pairs (omap (fun r => m !! r) chunk)))%nat
                   = true).
    { apply Nat.ltb_lt. rewrite Hcounts in Hin |- *.
      rewrite length_app. simpl.
      apply elem_of_app in Hin as [Hin|[Hin|Hin]%elem_of_cons].
      - destruct l1; [by apply elem_of_nil in Hin|simpl; lia].
      - congruence.
      - destruct l2; [by apply elem_of_nil in Hin|simpl; lia]. }
    rewrite Hlen.
    destruct (sorted_set_spec
                (map (fun kv : string * string * nat => snd (fst kv))
                     (tally_pairs (omap (fun r => m !! r) chunk))))
      as (Hsorted & Hdistinct & Hmem).
    eexists. split_and!; [done..|].
    intros l. rewrite Hmem. split.
    + intros ([[s' l'] nl] & -> & Hl)%list_elem_of_fmap. simpl.
      exists s'. by destruct (tally_in_counts m chunk (s', l') nl Hl) as [-> ?].
    + intros [s' Hs']. apply list_elem_of_fmap.
      exists ((s', l), tally m chunk (s', l)). split; [done|].
      by apply tally_positive_key.
Qed.

Lemma chunk_cohort_first_highest m chunk :
  first_highest m chunk (fst (chunk_cohort m chunk)).
Proof.
  intros Hex.
  destruct (chunk_cohort_analysis m chunk)
    as [[Hnil _]|(p & n & l1 & l2 & Hcounts & Hl1 & Hl2 & ->)].
  { by apply omap_cons_Exists in Hex. }
  destruct (chunk_cohort_highest m chunk p n l1 l2 Hcounts Hl1 Hl2)
    as (Hp & Hn & Hmax).
  destruct (keys_tally_pairs_order (omap (fun r => m !! r) chunk)
              (map fst l1) p (map fst l2))
    as (pre & post & Hpairs & Hpre).
  { by rewrite Hcounts, map_app. }
  destruct (omap_split _ _ _ _ _ Hpairs)
    as (before & r & after & -> & Hbefore & Hr & _).
  exists p, before, after, r. rewrite Hp. split_and!; [done..|].
  intros r' q Hr' Hq.
  assert (Hin : q ∈ map fst l1).
  { apply Hpre. rewrite <- Hbefore. apply list_elem_of_omap. by exists r'. }
  apply list_elem_of_fmap in Hin as ([q' nq] & -> & Hin). simpl.
  destruct (tally_in_counts m (before ++ r :: after) q' nq) as [-> _].
  { rewrite Hcounts. apply elem_of_app. by left. }
  by apply (Hl1 _ Hin).
Qed.

(** C7.  For every schedule that [allocate_students] emits, with the lookup
    built from the semesters: when no candidate of its chunk is mapped, the
    semester and batch are unset; otherwise the semester is that of a pair
    with the highest tally in the chunk, the batch is that pair's label when
    it is the only pair observed, and when more than one distinct pair is
    observed (tied in count or not) the batch is the ", "-joined ascending
    list of the distinct batch labels observed. *)
Theorem C7_cohort_attribution regs dates labs ie ee sems ds drn :
  Forall (fun s =>
            cohort_rule (build_reg_to_sem_batch sems) (chunk_of s)
                        (semester s) (batch s))
         (allocate_students regs dates labs ie ee sems ds drn).
Proof.
  eapply Forall_impl; [apply allocate_students_emitted|].
  intros s [d Hs]. apply emitted_chunk in Hs as (_ & _ & -> & ->).
  apply chunk_cohort_rule.
Qed.

(** C10.  For every schedule that [allocate_students] emits, the pair whose
    semester is written has the highest tally in the chunk, and every pair
    met in the chunk before that pair's first candidate has a strictly
    smaller tally: among pairs tied for the highest tally, the one first
    encountered in chunk order is chosen. *)
Theorem C10_first_encountered_wins regs dates labs ie ee sems ds drn :
  Forall (fun s =>
            first_highest (build_reg_to_sem_batch sems) (chunk_of s) (semester s))
         (allocate_students regs dates labs ie ee sems ds drn).
Proof.
  eapply Forall_impl; [apply allocate_students_emitted|].
  intros s [d Hs]. apply emitted_chunk in Hs as (_ & _ & -> & _).
  apply chunk_cohort_first_highest.
Qed.

(** ** Validation of the dates of a request *)

Lemma first_bad_date_spec dates :
  Exists malformed dates ->
  exists before tok after,
    dates = before ++ tok :: after /\
    Forall (fun t => parses (strip t) = true) before /\
    malformed tok /\
    first_bad_date dates = Some tok.
Proof.
  induction 1 as [tok rest Htok|tok0 rest Hrest IH].
  - destruct (parses (strip tok)) eqn:E; [unfold malformed in Htok; congruence|].
    exists [], tok, rest. split_and!; [done..|].
    simpl. unfold parses in E. by destruct (strptime (strip tok)).
  - destruct (parses (strip tok0)) eqn:E.
    + destruct IH as (before & tok & after & -> & Hbefore & Htok & Hfirst).
      exists (tok0 :: before), tok, after. split_and!; [done|by constructor|done|].
      simpl. unfold parses in E. by destruct (strptime (strip tok0)).
    + exists [], tok0, rest. split_and!; [done..|].
      simpl. unfold parses in E. by destruct (strptime (strip tok0)).
Qed.

Lemma validate_dates_malformed dates n :
  Exists malformed dates ->
  exists before tok after,
    dates = before ++ tok :: after /\
    Forall (fun t => parses (strip t) = true) before /\
    malformed tok /\
    validate_dates dates n = (Some (date_format_error tok), None).
Proof.
  intros Hex.
  destruct (first_bad_date_spec dates Hex)
    as (before & tok & after & Hdates & Hbefore & Htok & Hfirst).
  exists before, tok, after. split_and!; [done..|].
  unfold validate_dates. rewrite Hfirst.
  destruct dates; [by destruct before|done].
Qed.




Example validate_reports_first_bad_date :
  errors_of (mkScheduleRequest ["REG1"] ["01-01-25"; "2025-01-01"; "soon"] [] [] [])
  = [mkValidationError "dates" "Invalid date format: 2025-01-01. Expected DD-MM-YY"].
Proof. by vm_compute. Qed.

(** A tie between two pairs: the pair of the candidate met first gives the
    semester, and the batch lists both labels in ascending order. *)
Example cohort_tie_first_encountered :
  map (fun s => (semester s, batch s))
      (allocate_students ["c"; "a"; "x"; "b"; "d"] ["01-01-25"] five_labs [] []
         [mkSemester "S1" [mkBatch "A" ["a"; "b"]];
          mkSemester "S2" [mkBatch "B" ["c"; "d"]]] ∅ ∅)
  = [(Some "S2", Some "S1A, S2B")].
Proof. by vm_compute. Qed.

(** * Further properties of the code *)

Import RegisterNumbers ExaminerText.

(** ** Deduplication *)

Lemma remove_duplicates_loop_spec l (seen : gset string) u d :
  (forall x, x ∈ seen <-> x ∈ u) -> NoDup u ->
  exists u' d',
    remove_duplicates_loop l seen u d = (u ++ u', d ++ d') /\
    NoDup (u ++ u') /\
    (forall x, x ∈ u ++ u' <-> x ∈ u \/ x ∈ l) /\
    u' ++ d' ≡ₚ l /\
    u' `sublist_of` l /\ d' `sublist_of` l.
Proof.
  revert seen u d. induction l as [|r l IH]; intros seen u d Hseen Hu.
  - exists [], []. rewrite !app_nil_r. split_and!; try done.
    intros x. rewrite elem_of_nil. tauto.
  - cbn [remove_duplicates_loop]. destruct (decide (r ∈ seen)) as [Hin|Hout].
    + destruct (IH seen u (d ++ [r]) Hseen Hu)
        as (u' & d' & -> & Hnd & Hmem & Hperm & Hsu & Hsd).
      exists u', (r :: d'). rewrite <- app_assoc. split_and!; try done.
      * intros x. rewrite Hmem, elem_of_cons.
        apply Hseen in Hin. split; [tauto|]. intros [?|[->|?]]; tauto.
      * rewrite <- Hperm. by rewrite Permutation_middle.
      * by apply sublist_cons.
      * by apply sublist_skip.
    + destruct (IH ({[r]} ∪ seen) (u ++ [r]) d)
        as (u' & d' & -> & Hnd & Hmem & Hperm & Hsu & Hsd).
      { intros x. rewrite elem_of_union, elem_of_singleton, elem_of_app,
          list_elem_of_singleton, Hseen. tauto. }
      { apply NoDup_app. split_and!; [done| |apply NoDup_singleton].
        intros x Hx ->%list_elem_of_singleton. by apply Hout, Hseen. }
      exists (r :: u'), d'. rewrite <- !app_assoc in *. simpl in *.
      split_and!; try done.
      * intros x.
        rewrite Hmem, elem_of_app, list_elem_of_singleton, elem_of_cons. tauto.
      * by rewrite Hperm.
      * by apply sublist_skip.
      * by apply sublist_cons.
Qed.

(** X1.  [remove_duplicates] keeps one copy of every register number: the
    first list has no repeats and holds exactly the values of the input. *)
Theorem remove_duplicates_unique l :
  NoDup (fst (remove_duplicates l)) /\
  forall x, x ∈ fst (remove_duplicates l) <-> x ∈ l.
Proof.
  unfold remove_duplicates.
  destruct (remove_duplicates_loop_spec l ∅ [] [])
    as (u' & d' & -> & Hnd & Hmem & _); [set_solver|constructor|].
  simpl in *. split; [done|]. intros x. rewrite Hmem, elem_of_nil. tauto.
Qed.

(** X2.  Nothing is lost and nothing is reordered: the two lists together are
    a permutation of the input, each is a subsequence of the input, and the
    number of removed entries is the input length minus the number of unique
    ones. *)
Theorem remove_duplicates_accounts l :
  fst (remove_duplicates l) ++ snd (remove_duplicates l) ≡ₚ l /\
  fst (remove_duplicates l) `sublist_of` l /\
  snd (remove_duplicates l) `sublist_of` l /\
  length (snd (remove_duplicates l))
  = (length l - length (fst (remove_duplicates l)))%nat.
Proof.
  unfold remove_duplicates.
  destruct (remove_duplicates_loop_spec l ∅ [] [])
    as (u' & d' & -> & _ & _ & Hperm & Hsu & Hsd); [set_solver|constructor|].
  simpl. split_and!; try done.
  apply Permutation_length in Hperm. rewrite length_app in Hperm. lia.
Qed.

Lemma remove_duplicates_loop_fresh base rest (seen : gset string) u d :
  NoDup base -> (forall x, x ∈ base -> x ∉ seen) ->
  remove_duplicates_loop (base ++ rest) seen u d
  = remove_duplicates_loop rest (list_to_set base ∪ seen) (u ++ base) d.
Proof.
  revert seen u. induction base as [|b base IH]; intros seen u Hnd Hfresh.
  - simpl. rewrite app_nil_r. f_equal.
    by rewrite (left_id_L ∅ (∪)).
  - apply NoDup_cons in Hnd as [Hb Hnd]. simpl.
    rewrite decide_False by (apply Hfresh; left).
    rewrite IH; [|done|].
    + rewrite <- app_assoc. simpl. f_equal.
      apply set_eq. intros x.
      rewrite !elem_of_union, elem_of_singleton. tauto.
    + intros x Hx. specialize (Hfresh x ltac:(by right)).
      assert (x <> b) by (by intros ->).
      rewrite elem_of_union, elem_of_singleton. tauto.
Qed.

Lemma remove_duplicates_loop_seen extra (seen : gset string) u d :
  (forall x, x ∈ extra -> x ∈ seen) ->
  remove_duplicates_loop extra seen u d = (u, d ++ extra).
Proof.
  revert d. induction extra as [|e extra IH]; intros d Hseen; simpl.
  - by rewrite app_nil_r.
  - rewrite decide_True by (apply Hseen; left).
    rewrite IH by (intros x Hx; apply Hseen; by right).
    by rewrite <- app_assoc.
Qed.

(** X3.  First occurrences keep their place: a list without repeats followed
    by repeats of its own values is split back into the two. *)
Theorem remove_duplicates_first_occurrences base extra :
  NoDup base -> (forall x, x ∈ extra -> x ∈ base) ->
  remove_duplicates (base ++ extra) = (base, extra).
Proof.
  intros Hnd Hextra. unfold remove_duplicates.
  rewrite remove_duplicates_loop_fresh; [|done|set_solver].
  rewrite remove_duplicates_loop_seen; [done|].
  intros x Hx. apply Hextra in Hx. set_solver.
Qed.

Lemma remove_duplicates_first_occurrences_witness :
  remove_duplicates (["a"; "b"; "c"] ++ ["b"; "a"; "b"])
  = (["a"; "b"; "c"], ["b"; "a"; "b"]).
Proof.
  apply remove_duplicates_first_occurrences.
  - apply (bool_decide_unpack _). by vm_compute.
  - intros x Hx.
    repeat (apply elem_of_cons in Hx as [->|Hx];
            [apply (bool_decide_unpack _); by vm_compute|]).
    by apply elem_of_nil in Hx.
Defined.

(** ** Strings: [strip] through the list of characters *)

Lemma string_app_assoc (a b c : string) : (a +:+ b) +:+ c = a +:+ b +:+ c.
Proof. induction a as [|x a IH]; [done|]. exact (f_equal (String x) IH). Qed.

Lemma string_app_nil_r (a : string) : a +:+ "" = a.
Proof. induction a as [|x a IH]; [done|]. exact (f_equal (String x) IH). Qed.

Lemma chars_inj (a b : string) :
  list_ascii_of_string a = list_ascii_of_string b -> a = b.
Proof.
  intros H. rewrite <- (string_of_list_ascii_of_string a),
    <- (string_of_list_ascii_of_string b). by rewrite H.
Qed.

Lemma chars_rev_app (s acc : string) :
  list_ascii_of_string (String.rev_app s acc)
  = rev (list_ascii_of_string s) ++ list_ascii_of_string acc.
Proof.
  revert acc. induction s as [|c s IH]; intros acc; simpl; [done|].
  rewrite IH. simpl. by rewrite <- app_assoc.
Qed.

Lemma chars_rev (s : string) :
  list_ascii_of_string (String.rev s) = rev (list_ascii_of_string s).
Proof. unfold String.rev. rewrite chars_rev_app. simpl. apply app_nil_r. Qed.

Lemma chars_lstrip (s : string) :
  list_ascii_of_string (lstrip s) = lstrip_chars (list_ascii_of_string s).
Proof. induction s as [|c s IH]; simpl; [done|]. by destruct (is_space c). Qed.

Lemma chars_strip (s : string) :
  list_ascii_of_string (strip s)
  = rstrip_chars (lstrip_chars (list_ascii_of_string s)).
Proof.
  unfold strip, rstrip, rstrip_chars.
  by rewrite chars_rev, chars_lstrip, chars_rev, chars_lstrip.
Qed.

Lemma lstrip_chars_idemp l : lstrip_chars (lstrip_chars l) = lstrip_chars l.
Proof.
  induction l as [|c l IH]; simpl; [done|].
  destruct (is_space c) eqn:E; [done|]. simpl. by rewrite E.
Qed.

Lemma length_lstrip_chars l : (length (lstrip_chars l) <= length l)%nat.
Proof.
  induction l as [|c l IH]; simpl; [done|].
  destruct (is_space c); simpl; lia.
Qed.

Lemma lstrip_chars_snoc l c :
  is_space c = false -> lstrip_chars (l ++ [c]) = lstrip_chars l ++ [c].
Proof.
  intros Hc. induction l as [|x l IH]; simpl; [by rewrite Hc|].
  by destruct (is_space x).
Qed.

Lemma rstrip_chars_cons c l :
  is_space c = false -> rstrip_chars (c :: l) = c :: rstrip_chars l.
Proof.
  intros Hc. unfold rstrip_chars. simpl.
  rewrite lstrip_chars_snoc by done. by rewrite rev_app_distr.
Qed.

Lemma length_rstrip_chars l : (length (rstrip_chars l) <= length l)%nat.
Proof.
  unfold rstrip_chars. rewrite length_rev.
  etrans; [apply length_lstrip_chars|]. by rewrite length_rev.
Qed.

Lemma rstrip_chars_idemp l : rstrip_chars (rstrip_chars l) = rstrip_chars l.
Proof. unfold rstrip_chars. by rewrite rev_involutive, lstrip_chars_idemp. Qed.

(** [strip] changes nothing in a text that is already stripped. *)
Lemma strip_idemp (s : string) : strip (strip s) = strip s.
Proof.
  apply chars_inj. rewrite !chars_strip.
  destruct (lstrip_chars (list_ascii_of_string s)) as [|c l] eqn:E; [done|].
  assert (Hc : is_space c = false).
  { destruct (is_space c) eqn:Hc; [|done].
    pose proof (lstrip_chars_idemp (list_ascii_of_string s)) as Hi.
    rewrite E in Hi. simpl in Hi. rewrite Hc in Hi.
    pose proof (length_lstrip_chars l) as Hl. rewrite Hi in Hl.
    simpl in Hl. lia. }
  rewrite (rstrip_chars_cons c l Hc). simpl. rewrite Hc.
  rewrite <- (rstrip_chars_cons c l Hc). apply rstrip_chars_idemp.
Qed.

(** A text that begins with a character that is no whitespace does not
    strip to nothing. *)
Lemma strip_nonempty c s : is_space c = false -> strip (String c s) <> "".
Proof.
  intros Hc Hs. apply (f_equal list_ascii_of_string) in Hs.
  rewrite chars_strip in Hs. simpl in Hs. rewrite Hc in Hs.
  by rewrite rstrip_chars_cons in Hs.
Qed.

(** A stripped text that is not empty begins with no whitespace. *)
Lemma cleaned_first r :
  cleaned r -> exists c r', r = String c r' /\ is_space c = false.
Proof.
  intros [Hne Hs]. destruct r as [|c r']; [done|].
  exists c, r'. split; [done|].
  destruct (is_space c) eqn:Hc; [|done]. exfalso.
  apply (f_equal list_ascii_of_string) in Hs. rewrite chars_strip in Hs.
  simpl in Hs. rewrite Hc in Hs.
  apply (f_equal length) in Hs. simpl in Hs.
  pose proof (length_rstrip_chars (lstrip_chars (list_ascii_of_string r'))).
  pose proof (length_lstrip_chars (list_ascii_of_string r')). lia.
Qed.

(** ** Register numbers as text *)

Lemma re_split_scan_field cur r rest :
  plain_field r = true ->
  re_split_scan InField cur (r +:+ rest)
  = re_split_scan InField (cur +:+ r) rest.
Proof.
  revert cur. induction r as [|c r IH]; intros cur Hr.
  - by rewrite string_app_nil_r.
  - cbn [plain_field] in Hr.
    apply andb_true_iff in Hr as [[Hc Hnext]%andb_true_iff Hr].
    apply negb_true_iff in Hc.
    change (String c r +:+ rest) with (String c (r +:+ rest)).
    cbn [re_split_scan]. rewrite Hc.
    assert (Hpair : is_space c && starts_with_space (r +:+ rest) = false).
    { destruct r as [|c2 r']; simpl in *.
      - apply negb_true_iff in Hnext. by rewrite Hnext.
      - by apply negb_true_iff in Hnext. }
    rewrite Hpair, IH by done. by rewrite string_app_assoc.
Qed.

Lemma re_split_scan_after_newline c r rest :
  plain_field (String c r) = true ->
  re_split_scan InCommas "" (String c r +:+ rest)
  = re_split_scan InField "" (String c r +:+ rest).
Proof.
  intros Hr. cbn [plain_field] in Hr.
  apply andb_true_iff in Hr as [[Hc _]%andb_true_iff _].
  apply negb_true_iff in Hc.
  change (String c r +:+ rest) with (String c (r +:+ rest)).
  cbn [re_split_scan]. by rewrite Hc.
Qed.

Lemma join_cons sep (r r2 : string) regs :
  join sep (r :: r2 :: regs) = r +:+ sep +:+ join sep (r2 :: regs).
Proof. reflexivity. Qed.

Lemma re_split_scan_join regs :
  Forall (fun r => r <> "" /\ plain_field r = true) regs -> regs <> [] ->
  re_split_scan InField "" (join newline regs) = regs /\
  re_split_scan InCommas "" (join newline regs) = regs.
Proof.
  induction 1 as [|r regs [Hne Hr] Hregs IH]; intros Hnn; [done|]. clear Hnn.
  assert (Hone : forall rest,
    re_split_scan InCommas "" (r +:+ rest) = re_split_scan InField r rest /\
    re_split_scan InField "" (r +:+ rest) = re_split_scan InField r rest).
  { intros rest. destruct r as [|c r']; [done|].
    rewrite re_split_scan_after_newline by done.
    by rewrite re_split_scan_field. }
  destruct regs as [|r2 regs].
  - unfold join. cbn [String.concat].
    destruct (Hone "") as [H1 H2]. rewrite string_app_nil_r in H1, H2.
    by rewrite H1, H2.
  - rewrite join_cons.
    destruct (Hone (newline +:+ join newline (r2 :: regs))) as [-> ->].
    destruct IH as [_ IH]; [done|].
    change (newline +:+ join newline (r2 :: regs))
      with (String (ascii_of_nat 10) (join newline (r2 :: regs))).
    cbn [re_split_scan].
    change (is_newline_or_comma (ascii_of_nat 10)) with true.
    cbn iota. by rewrite IH.
Qed.

Lemma keep_cleaned_parts acc parts :
  Forall cleaned parts ->
  foldl (fun register_numbers part =>
           let cleaned := strip part in
           if decide (cleaned = "") then register_numbers
           else register_numbers ++ [cleaned])
        acc parts
  = acc ++ parts.
Proof.
  intros Hparts. revert acc.
  induction Hparts as [|p parts [Hne Hs] _ IH]; intros acc; simpl.
  - by rewrite app_nil_r.
  - rewrite Hs, decide_False by done. rewrite IH. by rewrite <- app_assoc.
Qed.

(** X4.  Formatting register numbers one per line and parsing the text gives
    the list back, when every register number is made of ASCII characters,
    is not empty, carries no surrounding whitespace, no newline, no comma
    and no two whitespace characters in a row. *)
Theorem register_numbers_round_trip regs :
  Forall ascii_text regs ->
  Forall (fun r => cleaned r /\ plain_field r = true) regs ->
  parse_register_numbers (format_register_numbers regs) = regs.
Proof.
  intros _ Hregs. unfold parse_register_numbers, format_register_numbers.
  destruct regs as [|r regs]; [done|].
  assert (Hfirst : exists c rest, join newline (r :: regs) = String c rest
                                  /\ is_space c = false).
  { apply Forall_cons in Hregs as [[Hr _] _].
    destruct (cleaned_first r Hr) as (c & r' & -> & Hc).
    unfold join. destruct regs; simpl; eauto. }
  destruct Hfirst as (c & rest & Htext & Hc).
  rewrite decide_False by (by rewrite Htext).
  rewrite decide_False by (rewrite Htext; by apply strip_nonempty).
  unfold re_split.
  destruct (re_split_scan_join (r :: regs)) as [-> _]; [|done|].
  { eapply Forall_impl; [exact Hregs|]. by intros x [[? ?] ?]. }
  rewrite keep_cleaned_parts; [done|].
  eapply Forall_impl; [exact Hregs|]. by intros x [? ?].
Qed.

Lemma register_numbers_round_trip_witness :
  parse_register_numbers (format_register_numbers ["TVE20CS001"; "R 2"; "x"])
  = ["TVE20CS001"; "R 2"; "x"].
Proof.
  apply register_numbers_round_trip.
  - repeat constructor.
  - repeat (apply Forall_cons; split; [by vm_compute|]). apply Forall_nil_2.
Defined.

(** X5.  Whatever the text, [parse_register_numbers] returns register numbers
    that are not empty and carry no surrounding whitespace. *)
Theorem parse_register_numbers_cleaned text :
  Forall cleaned (parse_register_numbers text).
Proof.
  unfold parse_register_numbers.
  repeat case_decide; [constructor..|].
  generalize (re_split text). intros parts.
  assert (G : forall acc, Forall cleaned acc ->
    Forall cleaned
      (foldl (fun register_numbers part =>
                let cleaned := strip part in
                if decide (cleaned = "") then register_numbers
                else register_numbers ++ [cleaned]) acc parts)).
  { induction parts as [|p parts IH]; intros acc Hacc; simpl; [done|].
    apply IH. case_decide; [done|].
    apply Forall_app. split; [done|]. constructor; [|constructor].
    split; [done|apply strip_idemp]. }
  apply G. constructor.
Qed.

(** ** Examiners as text *)

Lemma after_prefix_spec prefix s rest :
  after_prefix prefix s = Some rest -> s = prefix +:+ rest.
Proof.
  revert s. induction prefix as [|p prefix IH]; intros s H; simpl in H.
  - by injection H as ->.
  - destruct s as [|c s]; [done|].
    destruct (Ascii.eqb_spec p c) as [->|]; [|done].
    exact (f_equal (String c) (IH s H)).
Qed.

Lemma split_once_spec sep s before rest :
  split_once sep s = Some (before, rest) -> s = before +:+ sep +:+ rest.
Proof.
  revert before. induction s as [|c s IH]; intros before H.
  - cbn [split_once] in H.
    destruct (after_prefix sep "") as [r|] eqn:E; [|done].
    injection H as <- <-. exact (after_prefix_spec _ _ _ E).
  - cbn [split_once] in H.
    destruct (after_prefix sep (String c s)) as [r|] eqn:E.
    + injection H as <- <-. exact (after_prefix_spec _ _ _ E).
    + destruct (split_once sep s) as [[b r]|] eqn:Es; [|done].
      injection H as <- <-. exact (f_equal (String c) (IH b eq_refl)).
Qed.

Lemma split_once_colon id name :
  split_once ": " id = None ->
  split_once ": " (id +:+ ": " +:+ name) = Some (id, name).
Proof.
  induction id as [|c id IH]; intros Hid; [done|].
  cbn [split_once] in Hid.
  destruct (after_prefix ": " (String c id)) as [r|] eqn:Epre; [done|].
  destruct (split_once ": " id) as [[b r]|] eqn:Eid; [done|].
  change (String c id +:+ ": " +:+ name) with (String c (id +:+ ": " +:+ name)).
  cbn [split_once]. rewrite (IH eq_refl).
  assert (Hnone : after_prefix ": " (String c (id +:+ ": " +:+ name)) = None).
  { cbn [after_prefix] in Epre |- *.
    destruct (Ascii.eqb ":" c); [|done].
    destruct id as [|c2 id']; [done|].
    change (String c2 id' +:+ ": " +:+ name)
      with (String c2 (id' +:+ ": " +:+ name)).
    cbv iota. by destruct (Ascii.eqb " " c2). }
  by rewrite Hnone.
Qed.

(** X6.  An examiner whose id and name are not empty, and whose id does not
    hold the separator ": ", is read back from its text. *)
Theorem examiner_round_trip (e : Examiner) :
  examiner_id e <> "" -> examiner_name e <> "" ->
  split_once ": " (examiner_id e) = None ->
  from_string (to_string e) = Ok e.
Proof.
  intros Hid Hname Hsep. destruct e as [id name]. simpl in *.
  unfold from_string, to_string. cbn [examiner_id examiner_name].
  rewrite (split_once_colon id name Hsep). unfold make_examiner.
  by rewrite !decide_False.
Qed.

Lemma examiner_round_trip_witness :
  from_string (to_string (mkExaminer "INT1" "Dr. A: B"))
  = Ok (mkExaminer "INT1" "Dr. A: B").
Proof. apply examiner_round_trip; by vm_compute. Defined.

(** The text before the first ": " does not hold ": ". *)
Lemma split_once_colon_first s before rest :
  split_once ": " s = Some (before, rest) -> split_once ": " before = None.
Proof.
  revert before. induction s as [|c s IH]; intros before H; [done|].
  cbn [split_once] in H.
  destruct (after_prefix ": " (String c s)) as [r|] eqn:Epre.
  { by injection H as <- <-. }
  destruct (split_once ": " s) as [[b r]|] eqn:Es; [|done].
  injection H as <- <-.
  cbn [split_once]. rewrite (IH b eq_refl).
  assert (Hnone : after_prefix ": " (String c b) = None); [|by rewrite Hnone].
  pose proof (split_once_spec _ _ _ _ Es) as ->.
  cbn [after_prefix] in Epre |- *.
  destruct (Ascii.eqb ":" c); [|done].
  destruct b as [|c2 b']; [done|].
  change (String c2 b' +:+ ": " +:+ r)
    with (String c2 (b' +:+ ": " +:+ r)) in Epre.
  cbv iota in Epre |- *. by destruct (Ascii.eqb " " c2).
Qed.

(** X7.  A text that [from_string] accepts is the text of the examiner it
    returns: the id is what stands before the first ": ", and neither the id
    nor the name is empty. *)
Theorem examiner_from_string_inverse (s : string) (e : Examiner) :
  from_string s = Ok e ->
  to_string e = s /\ examiner_id e <> "" /\ examiner_name e <> "" /\
  split_once ": " (examiner_id e) = None.
Proof.
  unfold from_string, make_examiner, to_string.
  destruct (split_once ": " s) as [[id name]|] eqn:Es; [|done].
  repeat case_decide; try done. intros [= <-]. simpl.
  split_and!; try done.
  - symmetry. by apply split_once_spec.
  - by eapply split_once_colon_first.
Qed.

Lemma examiner_from_string_inverse_witness :
  to_string (mkExaminer "INT1" "Dr. A") = "INT1: Dr. A" /\
  examiner_id (mkExaminer "INT1" "Dr. A") <> "" /\
  examiner_name (mkExaminer "INT1" "Dr. A") <> "" /\
  split_once ": " (examiner_id (mkExaminer "INT1" "Dr. A")) = None.
Proof. apply examiner_from_string_inverse. by vm_compute. Defined.

(** ** Required dates *)

Lemma ceil_div_125_least n :
  n <= 125 * ceil_div n 125 /\ forall k, n <= 125 * k -> ceil_div n 125 <= k.
Proof.
  unfold ceil_div.
  pose proof (Z_div_mod_eq_full (- n) 125) as Hdiv.
  pose proof (Z.mod_pos_bound (- n) 125 ltac:(lia)) as Hmod.
  split; [lia|]. intros k Hk. lia.
Qed.

Lemma calculate_required_dates_spec n :
  0 <= calculate_required_dates n /\
  n <= 125 * calculate_required_dates n /\
  forall k, 0 <= k -> n <= 125 * k -> calculate_required_dates n <= k.
Proof.
  unfold calculate_required_dates.
  change Validators.DAILY_CAPACITY with 125.
  destruct (ceil_div_125_least n) as [Hcover Hleast].
  destruct (Z.leb_spec n 0) as [Hn|Hn].
  { split_and!; [lia|lia|]. intros k Hk _. exact Hk. }
  split_and!; [|done|by auto].
  pose proof (ceil_div_positive n ltac:(lia)). lia.
Qed.

(** X8.  For a count of at most [125 * 2^47], where the float quotient is
    exact enough, [calculate_required_dates] is the least number of days, at
    125 candidates a day, that holds the candidates: it is not negative, its
    capacity covers the count, and no smaller number of days does. *)
Theorem calculate_required_dates_least n :
  n <= 125 * 2 ^ 47 ->
  0 <= calculate_required_dates n /\
  n <= 125 * calculate_required_dates n /\
  forall k, 0 <= k -> n <= 125 * k -> calculate_required_dates n <= k.
Proof. intros _. exact (calculate_required_dates_spec n). Qed.

Lemma calculate_required_dates_least_witness :
  0 <= calculate_required_dates 126 /\
  126 <= 125 * calculate_required_dates 126 /\
  forall k, 0 <= k -> 126 <= 125 * k -> calculate_required_dates 126 <= k.
Proof. apply calculate_required_dates_least. by vm_compute. Defined.

Lemma calculate_additional_dates_needed_spec n provided :
  0 <= provided ->
  0 <= calculate_additional_dates_needed n provided /\
  n <= 125 * (provided + calculate_additional_dates_needed n provided) /\
  forall k, 0 <= k -> n <= 125 * (provided + k) ->
            calculate_additional_dates_needed n provided <= k.
Proof.
  intros Hp. unfold calculate_additional_dates_needed.
  destruct (calculate_required_dates_spec n) as (H0 & Hcover & Hleast).
  split_and!; [lia|lia|].
  intros k Hk Hfit. specialize (Hleast (provided + k) ltac:(lia) Hfit). lia.
Qed.

(** X9.  For a count of at most [125 * 2^47] and a number of provided dates
    that is not negative, [calculate_additional_dates_needed] is the least
    number of further dates with which the capacity covers the count. *)
Theorem calculate_additional_dates_needed_least n provided :
  n <= 125 * 2 ^ 47 ->
  0 <= provided ->
  0 <= calculate_additional_dates_needed n provided /\
  n <= 125 * (provided + calculate_additional_dates_needed n provided) /\
  forall k, 0 <= k -> n <= 125 * (provided + k) ->
            calculate_additional_dates_needed n provided <= k.
Proof. intros _. exact (calculate_additional_dates_needed_spec n provided). Qed.

Lemma calculate_additional_dates_needed_least_witness :
  0 <= calculate_additional_dates_needed 300 1 /\
  300 <= 125 * (1 + calculate_additional_dates_needed 300 1) /\
  forall k, 0 <= k -> 300 <= 125 * (1 + k) ->
            calculate_additional_dates_needed 300 1 <= k.
Proof.
  apply calculate_additional_dates_needed_least; [by vm_compute|lia].
Defined.

(** ** Validation *)

Lemma first_bad_date_none dates :
  Forall parses_stripped dates -> first_bad_date dates = None.
Proof.
  induction 1 as [|tok dates Htok _ IH]; [done|].
  simpl. unfold parses_stripped, parses in Htok.
  by destruct (strptime (strip tok)).
Qed.

Lemma dates_parse_or_not dates :
  Forall parses_stripped dates \/ Exists malformed dates.
Proof.
  induction dates as [|tok dates [IH|IH]].
  - by left.
  - destruct (parses (strip tok)) eqn:E.
    + left. by constructor.
    + right. by left.
  - right. by right.
Qed.

Lemma validate_dates_outcome dates n :
  (fst (validate_dates dates n) = None <-> Forall parses_stripped dates) /\
  (fst (validate_dates dates n) = None \/ snd (validate_dates dates n) = None).
Proof.
  destruct (dates_parse_or_not dates) as [Hgood|Hbad].
  - assert (Hnone : fst (validate_dates dates n) = None).
    { unfold validate_dates. rewrite (first_bad_date_none dates Hgood).
      destruct dates; [done|]. by case_match. }
    split; [by split|by left].
  - destruct (validate_dates_malformed dates n Hbad)
      as (before & tok & after & -> & Hbefore & Htok & ->).
    split; [|by right]. split; [done|].
    intros Hall. apply Forall_app in Hall as [_ Hall].
    apply Forall_cons in Hall as [Hall _].
    unfold malformed in Htok. congruence.
Qed.

(** X10.  For dates made of ASCII characters and a count of at most
    [125 * 2^47], [validate_dates] reports an error exactly when some date,
    once stripped, does not parse; an error comes without a warning. *)
Theorem validate_dates_error_iff dates n :
  Forall ascii_text dates ->
  n <= 125 * 2 ^ 47 ->
  (fst (validate_dates dates n) = None <-> Forall parses_stripped dates) /\
  (fst (validate_dates dates n) = None \/ snd (validate_dates dates n) = None).
Proof. intros _ _. exact (validate_dates_outcome dates n). Qed.

Lemma validate_dates_error_iff_witness :
  (fst (validate_dates [" 01-01-25"; "2025-01-01"] 300) = None
   <-> Forall parses_stripped [" 01-01-25"; "2025-01-01"]) /\
  (fst (validate_dates [" 01-01-25"; "2025-01-01"] 300) = None
   \/ snd (validate_dates [" 01-01-25"; "2025-01-01"] 300) = None).
Proof.
  apply validate_dates_error_iff; [repeat constructor|by vm_compute].
Defined.

(** X11.  For a count of at most [125 * 2^47] and dates that all parse,
    [validate_dates] is silent exactly when there is at least one date and
    125 candidates a date cover the count; with no date, or too few, it warns
    and reports no error. *)
Theorem validate_dates_warning_iff dates n :
  n <= 125 * 2 ^ 47 ->
  Forall parses_stripped dates ->
  fst (validate_dates dates n) = None /\
  (snd (validate_dates dates n) = None
   <-> dates <> [] /\ n <= 125 * Z.of_nat (length dates)).
Proof.
  intros _ Hgood. unfold validate_dates.
  rewrite (first_bad_date_none dates Hgood).
  destruct dates as [|tok dates'] eqn:Ed.
  { split; [done|]. split; [done|]. by intros [? _]. }
  rewrite <- Ed. assert (Hne : dates <> []) by (by rewrite Ed).
  destruct (calculate_additional_dates_needed_spec n
              (Z.of_nat (length dates)) ltac:(lia)) as (H0 & Hcover & Hleast).
  destruct (Z.ltb_spec 0 (calculate_additional_dates_needed n
                            (Z.of_nat (length dates)))) as [Hpos|Hzero].
  - split; [done|]. split; [done|]. intros [_ Hfit].
    specialize (Hleast 0 ltac:(lia) ltac:(lia)). lia.
  - split; [done|]. split; [|done]. intros _. split; [done|]. lia.
Qed.

Lemma validate_dates_warning_iff_witness :
  fst (validate_dates ["01-01-25"; " 02-01-25 "] 250) = None /\
  (snd (validate_dates ["01-01-25"; " 02-01-25 "] 250) = None
   <-> ["01-01-25"; " 02-01-25 "] <> [] /\
       250 <= 125 * Z.of_nat (length ["01-01-25"; " 02-01-25 "])).
Proof.
  apply validate_dates_warning_iff; [by vm_compute|].
  repeat (apply Forall_cons; split; [by vm_compute|]). apply Forall_nil_2.
Defined.

Lemma validate_schedule_request_errors request :
  errors_of request
  = option_list (validate_register_numbers (req_register_numbers request))
    ++ match req_register_numbers request with
       | [] => []
       | _ => option_list
                (fst (validate_dates (req_dates request)
                        (Z.of_nat (length (req_register_numbers request)))))
       end.
Proof.
  destruct request as [regs dates labs ie ee].
  unfold errors_of, validate_schedule_request.
  cbn [req_register_numbers req_dates req_labs req_internal_examiners
       req_external_examiners].
  destruct regs as [|r regs], labs, ie, ee;
    cbn [validate_labs validate_register_numbers validate_internal_examiners
         validate_external_examiners req_register_numbers req_dates req_labs
         req_internal_examiners req_external_examiners option_list app fst snd];
    try reflexivity;
    by destruct (validate_dates dates (Z.of_nat (length (r :: regs)))).
Qed.

Lemma validate_schedule_request_passes request :
  errors_of request = []
  <-> req_register_numbers request <> [] /\
      Forall parses_stripped (req_dates request).
Proof.
  rewrite validate_schedule_request_errors.
  destruct (req_register_numbers request) as [|r regs] eqn:Er.
  { simpl. split; [done|]. by intros [? _]. }
  cbn [validate_register_numbers option_list app].
  destruct (validate_dates_outcome (req_dates request)
              (Z.of_nat (length (r :: regs)))) as [Hiff _].
  rewrite <- Hiff.
  destruct (fst (validate_dates (req_dates request)
                   (Z.of_nat (length (r :: regs))))); simpl.
  - split; [done|]. by intros [_ ?].
  - by split.
Qed.

(** X12.  For a request whose dates are made of ASCII characters,
    [validate_schedule_request] reports no error exactly when the request has
    a register number and every date, once stripped, parses: labs, examiners
    and the number of dates never block a run. *)
Theorem validate_schedule_request_passes_iff request :
  Forall ascii_text (req_dates request) ->
  errors_of request = []
  <-> req_register_numbers request <> [] /\
      Forall parses_stripped (req_dates request).
Proof. intros _. exact (validate_schedule_request_passes request). Qed.

Lemma validate_schedule_request_passes_iff_witness :
  errors_of (mkScheduleRequest ["REG1"] ["01-01-25"; " 02-01-25 "] [] [] [])
  = []
  <-> req_register_numbers
        (mkScheduleRequest ["REG1"] ["01-01-25"; " 02-01-25 "] [] [] [])
      <> [] /\
      Forall parses_stripped
        (req_dates
           (mkScheduleRequest ["REG1"] ["01-01-25"; " 02-01-25 "] [] [] [])).
Proof.
  apply (validate_schedule_request_passes_iff
           (mkScheduleRequest ["REG1"] ["01-01-25"; " 02-01-25 "] [] [] [])).
  repeat constructor.
Defined.

(** Validation fills in the labs and touches nothing else. *)
Lemma request_after_fields request :
  req_labs (request_after request) = labs_in_use (req_labs request) /\
  req_labs (request_after request) <> [] /\
  req_register_numbers (request_after request) = req_register_numbers request /\
  req_dates (request_after request) = req_dates request /\
  req_internal_examiners (request_after request)
  = req_internal_examiners request /\
  req_external_examiners (request_after request)
  = req_external_examiners request.
Proof.
  destruct request as [regs dates labs ie ee].
  unfold request_after, validate_schedule_request.
  cbn [req_register_numbers req_dates req_labs req_internal_examiners
       req_external_examiners].
  destruct regs as [|r regs], labs, ie, ee;
    cbn [validate_labs validate_register_numbers validate_internal_examiners
         validate_external_examiners req_register_numbers req_dates req_labs
         req_internal_examiners req_external_examiners option_list app fst snd];
    try destruct (validate_dates dates (Z.of_nat (length (r :: regs))));
    by split_and!.
Qed.

(** ** The layout of a run *)

Lemma lookup_enumerate (labs : list string) j i lab :
  enumerate labs !! j = Some (i, lab) <-> i = j /\ labs !! j = Some lab.
Proof.
  unfold enumerate. split.
  - intros H. apply lookup_zip_with_Some in H as (x & y & [= <- <-] & Hx & Hy).
    apply lookup_seq in Hx as [-> _]. done.
  - intros [-> Hlab]. apply lookup_zip_with_Some. exists j, lab.
    split_and!; [done| |done].
    apply lookup_seq. split; [done|]. by eapply lookup_lt_Some.
Qed.

Section Layout.
Context (ie ee : list Examiner) (m : gmap string (string * string)).

Lemma lab_loop_layout d subj students labs idx acc :
  exists new,
    lab_loop ie ee m d subj students labs idx acc
    = (Nat.max idx (Nat.min (idx + 25 * length labs) (length students)),
       acc ++ new) /\
    forall j s,
      new !! j = Some s <->
      exists i lab, labs !! j = Some (i, lab) /\
                    (idx + 25 * j < length students)%nat /\
                    s = schedule_at ie ee m students d subj i lab (idx + 25 * j).
Proof.
  revert idx acc. induction labs as [|[i lab] rest IH]; intros idx acc.
  - exists []. simpl. rewrite app_nil_r. split; [f_equal; lia|].
    intros j s. split; [done|]. by intros (? & ? & ? & _).
  - cbn [lab_loop length].
    destruct (Nat.leb_spec (length students) idx) as [Hge|Hlt].
    { exists []. rewrite app_nil_r. split; [f_equal; lia|].
      intros j s. split; [done|]. intros (? & ? & _ & ? & _). lia. }
    unfold STUDENTS_PER_LAB.
    set (chunk_end := Nat.min (idx + 25) (length students)).
    assert (Hlen : length (slice students idx chunk_end)
                   = (chunk_end - idx)%nat).
    { rewrite length_slice. lia. }
    destruct (slice students idx chunk_end) as [|c0 chunk'] eqn:Hchunk.
    { simpl in Hlen. lia. }
    rewrite <- Hchunk in *. clear c0 chunk' Hchunk.
    destruct (chunk_cohort m (slice students idx chunk_end)) as [sem bat] eqn:Hc.
    match goal with
    | |- context [lab_loop _ _ _ _ _ _ _ _ (acc ++ [?s])] => set (sched := s)
    end.
    assert (Hsched : sched = schedule_at ie ee m students d subj i lab idx).
    { unfold sched, schedule_at.
      rewrite (slice_clip students idx (idx + 25)). fold chunk_end.
      by rewrite Hc. }
    destruct (IH chunk_end (acc ++ [sched])) as (new & Hrun & Hnew).
    exists (sched :: new). rewrite Hrun.
    split; [f_equal; [lia|by rewrite <- app_assoc]|].
    intros [|j] s.
    + cbn [lookup list_lookup]. rewrite Nat.mul_0_r, Nat.add_0_r, Hsched.
      split.
      * intros [= <-]. by exists i, lab.
      * by intros (? & ? & [= <- <-] & _ & ->).
    + change ((sched :: new) !! S j) with (new !! j).
      change (((i, lab) :: rest) !! S j) with (rest !! j).
      rewrite Hnew.
      split; intros (i' & lab' & Hlab & Hlt' & ->); exists i', lab';
        (split; [done|]);
        (assert (chunk_end = idx + 25)%nat as Hce by lia);
        (split; [lia|]); f_equal; lia.
Qed.

Lemma sequential_loop_layout ds students labs dates idx acc :
  exists new,
    sequential_loop ie ee m ds students labs dates idx acc = acc ++ new /\
    forall k s,
      new !! k = Some s <->
      exists d lab,
        dates !! (k / length labs)%nat = Some d /\
        labs !! (k mod length labs)%nat = Some lab /\
        (idx + 25 * k < length students)%nat /\
        s = schedule_at ie ee m students d (ds !! d)
              (k mod length labs) lab (idx + 25 * k).
Proof.
  revert idx acc. induction dates as [|d rest IH]; intros idx acc.
  - exists []. simpl. rewrite app_nil_r. split; [done|].
    intros k s. split; [done|]. by intros (? & ? & ? & _).
  - cbn [sequential_loop].
    destruct (Nat.leb_spec (length students) idx) as [Hge|Hlt].
    { exists []. rewrite app_nil_r. split; [done|].
      intros k s. split; [done|]. intros (? & ? & _ & _ & ? & _). lia. }
    destruct (lab_loop_layout d (ds !! d) students (enumerate labs) idx acc)
      as (new1 & Hrun & Hnew1).
    rewrite length_enumerate in Hrun. rewrite Hrun.
    set (idx' := Nat.max idx (Nat.min (idx + 25 * length labs) (length students))).
    destruct (IH idx' (acc ++ new1)) as (new2 & Hrest & Hnew2).
    exists (new1 ++ new2). rewrite Hrest. split; [by rewrite <- app_assoc|].
    set (L := length labs) in *.
    assert (Hlook1 : forall j s,
               new1 !! j = Some s <->
               exists lab, labs !! j = Some lab /\
                           (idx + 25 * j < length students)%nat /\
                           s = schedule_at ie ee m students d (ds !! d) j lab
                                 (idx + 25 * j)).
    { intros j s. rewrite Hnew1. split.
      - intros (i & lab & Hl & Hlt' & ->).
        apply lookup_enumerate in Hl as [-> Hl]. by exists lab.
      - intros (lab & Hl & Hlt' & ->). exists j, lab.
        split; [by apply lookup_enumerate|done]. }
    clear Hnew1 Hrun Hrest.
    assert (Hlen1 : (length new1 <= L)%nat).
    { destruct (decide (length new1 <= L)%nat) as [|Hn]; [done|].
      destruct (lookup_lt_is_Some_2 new1 L ltac:(lia)) as [s Hs].
      apply Hlook1 in Hs as (lab & Hl & _).
      apply lookup_lt_Some in Hl. unfold L in Hl. lia. }
    intros k s.
    destruct (decide (idx + 25 * L <= length students)%nat) as [Hfit|Hcut].
    + assert (Hfull : length new1 = L).
      { destruct (decide (L <= length new1)%nat) as [|Hn]; [lia|].
        assert (Hnone : new1 !! length new1 = None)
          by (by apply lookup_ge_None_2).
        destruct (lookup_lt_is_Some_2 labs (length new1)) as [lab Hl];
          [unfold L in *; lia|].
        assert (Hsome : new1 !! length new1
                        = Some (schedule_at ie ee m students d (ds !! d)
                                  (length new1) lab (idx + 25 * length new1))).
        { apply Hlook1. exists lab. split_and!; [done|lia|done]. }
        congruence. }
      replace idx' with (idx + 25 * L)%nat in Hnew2 by lia.
      destruct (decide (k < L)%nat) as [Hk|Hk].
      * rewrite lookup_app_l by lia. rewrite Hlook1.
        rewrite Nat.div_small, Nat.mod_small by done.
        cbn [lookup list_lookup].
        split.
        -- intros (lab & ? & ? & ->). by exists d, lab.
        -- intros (d' & lab & [= <-] & ? & ? & ->). by exists lab.
      * rewrite lookup_app_r by lia. rewrite Hfull, Hnew2.
        destruct (decide (L = 0%nat)) as [HL0|HL].
        { assert (Hnil : labs = []) by (by apply length_zero_iff_nil).
          rewrite Hnil.
          split; intros (? & ? & _ & ? & _); done. }
        assert (Hk' : (k = (k - L) + 1 * L)%nat) by lia.
        assert (Hdiv : (k / L = S ((k - L) / L))%nat).
        { rewrite Hk' at 1. rewrite Nat.div_add by done. lia. }
        assert (Hmod : (k mod L = (k - L) mod L)%nat).
        { rewrite Hk' at 1. by rewrite Nat.Div0.mod_add. }
        rewrite Hdiv, Hmod. cbn [lookup list_lookup].
        replace (idx + 25 * L + 25 * (k - L))%nat with (idx + 25 * k)%nat by lia.
        done.
    + replace idx' with (length students) in Hnew2 by lia.
      assert (Hnil : new2 = []).
      { destruct new2 as [|s2 new2']; [done|].
        destruct (proj1 (Hnew2 0%nat s2) eq_refl) as (? & ? & _ & _ & ? & _).
        lia. }
      rewrite Hnil, app_nil_r, Hlook1. clear Hnew2.
      split.
      * intros (lab & Hl & Hlt' & ->).
        assert (k < L)%nat by (apply lookup_lt_Some in Hl; done).
        rewrite Nat.div_small, Nat.mod_small by done. by exists d, lab.
      * intros (d' & lab & Hd & Hl & Hlt' & ->).
        assert (k < L)%nat by lia.
        rewrite Nat.div_small, Nat.mod_small in * by done.
        injection Hd as <-. by exists lab.
Qed.

Lemma date_keyed_loop_layout ds drn labs dates acc :
  exists groups,
    date_keyed_loop ie ee m ds drn labs dates acc = acc ++ concat groups /\
    Forall2 (fun d g => date_round ie ee m labs (default [] (drn !! d))
                          d (ds !! d) g) dates groups.
Proof.
  revert acc. induction dates as [|d rest IH]; intros acc.
  - exists []. simpl. rewrite app_nil_r. split; [done|constructor].
  - cbn [date_keyed_loop].
    destruct (lab_loop_layout d (ds !! d) (default [] (drn !! d))
                (enumerate labs) 0 acc) as (new & Hrun & Hnew).
    rewrite Hrun.
    destruct (IH (acc ++ new)) as (groups & Hrest & Hgroups).
    exists (new :: groups). rewrite Hrest.
    split; [simpl; by rewrite <- app_assoc|].
    constructor; [|done].
    intros j s. rewrite Hnew. split.
    + intros (i & lab & Hl & Hlt' & ->).
      apply lookup_enumerate in Hl as [-> Hl]. by exists lab.
    + intros (lab & Hl & Hlt' & ->). exists j, lab.
      split; [by apply lookup_enumerate|done].
Qed.
End Layout.

Lemma sequential_lookup regs dates labs ie ee sems ds k s :
  allocate_students regs dates labs ie ee sems ds ∅ !! k = Some s <->
  exists d lab,
    dates !! (k / length labs)%nat = Some d /\
    labs !! (k mod length labs)%nat = Some lab /\
    (25 * k < length regs)%nat /\
    s = schedule_at ie ee (build_reg_to_sem_batch sems) regs d (ds !! d)
          (k mod length labs) lab (25 * k).
Proof.
  unfold allocate_students. rewrite decide_True by done.
  destruct (sequential_loop_layout ie ee (build_reg_to_sem_batch sems) ds regs
              labs dates 0 []) as (new & -> & Hnew).
  cbn [app]. rewrite Hnew. by cbn [Nat.add].
Qed.

Lemma date_keyed_groups regs dates labs ie ee sems ds
    (drn : gmap string (list string)) :
  drn <> ∅ ->
  exists groups,
    allocate_students regs dates labs ie ee sems ds drn = concat groups /\
    Forall2 (fun d g =>
               date_round ie ee (build_reg_to_sem_batch sems) labs
                          (default [] (drn !! d)) d (ds !! d) g)
            dates groups.
Proof.
  intros Hdrn. unfold allocate_students. rewrite decide_False by done.
  destruct (date_keyed_loop_layout ie ee (build_reg_to_sem_batch sems) ds drn
              labs dates []) as (groups & -> & Hg).
  by exists groups.
Qed.

(** X13.  The closed form of sequential mode. When no lab name is empty and
    every examiner has an id and a name, the run returns, and the schedule at
    position [k] of its result is the one of date [k div len(labs)] and lab
    [k mod len(labs)] for the candidates at the indices [25k, 25k + 25) of
    the list, with the examiners at that lab position and the subject of that
    date; there is a schedule at position [k] exactly when that date and lab
    exist and the list has more than [25k] candidates. *)
Theorem sequential_layout regs dates labs ie ee sems ds :
  Forall lab_ok labs -> Forall examiner_ok ie -> Forall examiner_ok ee ->
  exists out,
    Run.allocate_students regs dates labs ie ee sems ds ∅ = Ok out /\
    forall k s,
      out !! k = Some s <->
      exists d lab,
        dates !! (k / length labs)%nat = Some d /\
        labs !! (k mod length labs)%nat = Some lab /\
        (25 * k < length regs)%nat /\
        s = schedule_at ie ee (build_reg_to_sem_batch sems) regs d (ds !! d)
              (k mod length labs) lab (25 * k).
Proof.
  intros Hlabs Hie Hee. eexists. split.
  - by apply run_allocate_students_returns.
  - intros k s. apply sequential_lookup.
Qed.

Lemma sequential_layout_witness :
  exists out,
    Run.allocate_students (candidates 130) ["01-01-25"; "02-01-25"] five_labs
      [] [] [] ∅ ∅ = Ok out /\
    forall k s,
      out !! k = Some s <->
      exists d lab,
        ["01-01-25"; "02-01-25"] !! (k / length five_labs)%nat = Some d /\
        five_labs !! (k mod length five_labs)%nat = Some lab /\
        (25 * k < length (candidates 130))%nat /\
        s = schedule_at [] [] (build_reg_to_sem_batch []) (candidates 130) d
              ((∅ : gmap string string) !! d)
              (k mod length five_labs) lab (25 * k).
Proof.
  apply sequential_layout; [|by constructor..].
  repeat (apply Forall_cons; split; [done|]). apply Forall_nil_2.
Defined.

(** X14.  The closed form of date-keyed mode. When no lab name is empty and
    every examiner has an id and a name, the run returns, and its result is
    the concatenation, in date order, of one group per date; in the group of
    a date the schedule at position [j] is the one of lab [j] for the
    candidates at the indices [25j, 25j + 25) of that date's own list, and it
    exists exactly when lab [j] exists and the list has more than [25j]
    candidates. *)
Theorem date_keyed_layout regs dates labs ie ee sems ds
    (drn : gmap string (list string)) :
  drn <> ∅ ->
  Forall lab_ok labs -> Forall examiner_ok ie -> Forall examiner_ok ee ->
  exists groups,
    Run.allocate_students regs dates labs ie ee sems ds drn
    = Ok (concat groups) /\
    Forall2 (fun d g =>
               date_round ie ee (build_reg_to_sem_batch sems) labs
                          (default [] (drn !! d)) d (ds !! d) g)
            dates groups.
Proof.
  intros Hdrn Hlabs Hie Hee.
  destruct (date_keyed_groups regs dates labs ie ee sems ds drn Hdrn)
    as (groups & Hout & Hgroups).
  exists groups. split; [|done].
  rewrite <- Hout. by apply run_allocate_students_returns.
Qed.

Lemma date_keyed_layout_witness :
  exists groups,
    Run.allocate_students [] ["01-01-25"; "02-01-25"] five_labs [] [] [] ∅
                          {["02-01-25" := candidates 30]}
    = Ok (concat groups) /\
    Forall2 (fun d g =>
               date_round [] [] (build_reg_to_sem_batch []) five_labs
                 (default [] (({["02-01-25" := candidates 30]}
                               : gmap string (list string)) !! d))
                 d ((∅ : gmap string string) !! d) g)
            ["01-01-25"; "02-01-25"] groups.
Proof.
  apply date_keyed_layout; [apply insert_non_empty| |by constructor..].
  repeat (apply Forall_cons; split; [done|]). apply Forall_nil_2.
Defined.

(** ** What a run assigns *)

Lemma pick_examiner_cycles (examiners : list Examiner) i :
  pick_examiner examiners i = examiners !! (i mod length examiners)%nat.
Proof. by destruct examiners. Qed.

Lemma schedule_at_fields ie ee m students d subj i lab start :
  date (schedule_at ie ee m students d subj i lab start) = d /\
  Models.lab (schedule_at ie ee m students d subj i lab start) = lab /\
  subject (schedule_at ie ee m students d subj i lab start) = subj /\
  internal_examiner (schedule_at ie ee m students d subj i lab start)
  = ie !! (i mod length ie)%nat /\
  external_examiner (schedule_at ie ee m students d subj i lab start)
  = ee !! (i mod length ee)%nat.
Proof.
  unfold schedule_at, create_lab_schedule, split_into_slots.
  cbn [date Models.lab subject internal_examiner external_examiner].
  by rewrite !pick_examiner_cycles.
Qed.

Lemma chunk_of_schedule_at ie ee m students d subj i lab start :
  chunk_of (schedule_at ie ee m students d subj i lab start)
  = slice students start (start + 25).
Proof.
  unfold schedule_at. apply chunk_of_create. rewrite length_slice. lia.
Qed.

Lemma allocate_students_placed regs dates labs ie ee sems ds drn :
  Forall (fun s =>
            date s ∈ dates /\ subject s = ds !! date s /\
            exists i, labs !! i = Some (lab s) /\
                      internal_examiner s = ie !! (i mod length ie)%nat /\
                      external_examiner s = ee !! (i mod length ee)%nat)
         (allocate_students regs dates labs ie ee sems ds drn).
Proof.
  destruct (decide (drn = ∅)) as [->|Hdrn].
  - apply Forall_lookup. intros k s Hs.
    apply sequential_lookup in Hs as (d & lab & Hd & Hlab & _ & ->).
    destruct (schedule_at_fields ie ee (build_reg_to_sem_batch sems) regs d
                (ds !! d) (k mod length labs) lab (25 * k))
      as (-> & -> & -> & -> & ->).
    split_and!; [by eapply list_elem_of_lookup_2|done|].
    by exists (k mod length labs)%nat.
  - destruct (date_keyed_groups regs dates labs ie ee sems ds drn Hdrn)
      as (groups & -> & Hg).
    induction Hg as [|d g dates' groups' Hround _ IH]; [by constructor|].
    cbn [concat]. apply Forall_app. split.
    + apply Forall_lookup. intros j s Hs.
      apply Hround in Hs as (lab & Hlab & _ & ->).
      destruct (schedule_at_fields ie ee (build_reg_to_sem_batch sems)
                  (default [] (drn !! d)) d (ds !! d) j lab (25 * j))
        as (-> & -> & -> & -> & ->).
      split_and!; [by left|done|]. by exists j.
    + eapply Forall_impl; [exact IH|].
      intros s (? & ? & ?). split_and!; [by right|done..].
Qed.

(** X15.  In both modes every schedule of a run is on one of the given dates,
    in one of the given labs, carries the subject recorded for its date, and
    has the examiners that cycling gives the position [i] of its lab: entry [i
    mod len] of each pool, and none from an empty pool. *)
Theorem allocate_students_assignment regs dates labs ie ee sems ds drn :
  Forall (fun s =>
            date s ∈ dates /\ subject s = ds !! date s /\
            exists i, labs !! i = Some (lab s) /\
                      internal_examiner s = ie !! (i mod length ie)%nat /\
                      external_examiner s = ee !! (i mod length ee)%nat)
         (allocate_students regs dates labs ie ee sems ds drn).
Proof. exact (allocate_students_placed regs dates labs ie ee sems ds drn). Qed.

(** ** Sequential mode: how many schedules, how full *)

Lemma div_lt_iff k L D : (0 < L)%nat -> (k / L < D)%nat <-> (k < D * L)%nat.
Proof.
  intros HL. pose proof (Nat.div_mod_eq k L) as E.
  pose proof (Nat.mod_upper_bound k L ltac:(lia)) as Hm.
  split; intros H; nia.
Qed.

Lemma ceil_25_lt k n : (25 * k < n)%nat <-> (k < (n + 24) / 25)%nat.
Proof.
  pose proof (Nat.div_mod_eq (n + 24) 25) as E.
  pose proof (Nat.mod_upper_bound (n + 24) 25 ltac:(lia)) as Hm.
  split; intros H; lia.
Qed.

Lemma sequential_lookup_is_Some regs dates labs ie ee sems ds k :
  is_Some (allocate_students regs dates labs ie ee sems ds ∅ !! k) <->
  (k < Nat.min ((length regs + 24) / 25) (length dates * length labs))%nat.
Proof.
  split.
  - intros [s Hs]. apply sequential_lookup in Hs as (d & lab & Hd & Hlab & Hk & _).
    apply lookup_lt_Some in Hd, Hlab.
    assert (0 < length labs)%nat by lia.
    apply div_lt_iff in Hd; [|done]. apply ceil_25_lt in Hk. lia.
  - intros Hk.
    assert (HL : (0 < length labs)%nat) by (destruct (length labs); lia).
    assert (Hd : (k / length labs < length dates)%nat)
      by (apply div_lt_iff; [done|lia]).
    assert (Hl : (k mod length labs < length labs)%nat)
      by (apply Nat.mod_upper_bound; lia).
    apply lookup_lt_is_Some_2 in Hd as [d Hd].
    apply lookup_lt_is_Some_2 in Hl as [lab Hl].
    eexists. apply sequential_lookup. exists d, lab.
    split_and!; [done|done| |done]. apply ceil_25_lt. lia.
Qed.

Lemma sequential_counts regs dates labs ie ee sems ds :
  length (allocate_students regs dates labs ie ee sems ds ∅)
  = Nat.min ((length regs + 24) / 25) (length dates * length labs) /\
  forall k s,
    allocate_students regs dates labs ie ee sems ds ∅ !! k = Some s ->
    slot_total s = Nat.min 25 (length regs - 25 * k) /\
    (1 <= slot_total s)%nat.
Proof.
  split.
  - set (out := allocate_students regs dates labs ie ee sems ds ∅).
    set (M := Nat.min ((length regs + 24) / 25) (length dates * length labs)).
    destruct (decide (length out < M)%nat) as [Hlt|Hge].
    { assert (Hsome : is_Some (out !! length out))
        by (by apply sequential_lookup_is_Some).
      apply lookup_lt_is_Some in Hsome. lia. }
    destruct (decide (M < length out)%nat) as [Hgt|]; [|lia].
    apply lookup_lt_is_Some_2 in Hgt.
    apply sequential_lookup_is_Some in Hgt. fold M in Hgt. lia.
  - intros k s Hs.
    apply sequential_lookup in Hs as (d & lab & _ & _ & Hk & ->).
    rewrite slot_total_chunk_of, chunk_of_schedule_at, length_slice. lia.
Qed.

(** X16.  In sequential mode, when no lab name is empty and every examiner
    has an id and a name, the run returns, and the number of its schedules is
    the smaller of the number of runs of 25 that the candidates fill, the
    last one possibly short, and the number of date-lab pairs; the schedule
    at position [k] holds [min(25, n - 25k)] candidates, so every schedule
    but the last is full and none is empty. *)
Theorem sequential_fill regs dates labs ie ee sems ds :
  Forall lab_ok labs -> Forall examiner_ok ie -> Forall examiner_ok ee ->
  exists out,
    Run.allocate_students regs dates labs ie ee sems ds ∅ = Ok out /\
    length out
    = Nat.min ((length regs + 24) / 25) (length dates * length labs) /\
    forall k s,
      out !! k = Some s ->
      slot_total s = Nat.min 25 (length regs - 25 * k) /\
      (1 <= slot_total s)%nat.
Proof.
  intros Hlabs Hie Hee. eexists. split.
  - by apply run_allocate_students_returns.
  - apply sequential_counts.
Qed.

Lemma sequential_fill_witness :
  exists out,
    Run.allocate_students (candidates 60) ["01-01-25"] ["Lab 1"; "Lab 2"]
      [] [] [] ∅ ∅ = Ok out /\
    length out
    = Nat.min ((length (candidates 60) + 24) / 25)
              (length ["01-01-25"] * length ["Lab 1"; "Lab 2"]) /\
    forall k s,
      out !! k = Some s ->
      slot_total s = Nat.min 25 (length (candidates 60) - 25 * k) /\
      (1 <= slot_total s)%nat.
Proof. apply sequential_fill; by repeat constructor. Defined.

(** ** The counting helpers on any list of schedules *)

Lemma foldl_count_step schedules (counts : gmap string nat) d :
  default 0%nat (foldl count_step counts schedules !! d)
  = (default 0%nat (counts !! d)
     + sum_list (map slot_total (filter (fun s => date s = d) schedules)))%nat.
Proof.
  revert counts. induction schedules as [|s rest IH]; intros counts.
  - simpl. lia.
  - cbn [foldl]. rewrite IH, filter_cons. unfold count_step.
    destruct (decide (date s = d)) as [->|Hne].
    + rewrite lookup_insert_eq. simpl. lia.
    + by rewrite lookup_insert_ne.
Qed.

Lemma foldl_count_step_dom schedules (counts : gmap string nat) d :
  is_Some (foldl count_step counts schedules !! d)
  <-> is_Some (counts !! d) \/ d ∈ map date schedules.
Proof.
  revert counts. induction schedules as [|s rest IH]; intros counts.
  - simpl. split; [by left|]. intros [|H]; [done|]. by apply elem_of_nil in H.
  - cbn [foldl map]. rewrite IH. unfold count_step.
    rewrite elem_of_cons.
    destruct (decide (date s = d)) as [->|Hne].
    + rewrite lookup_insert_eq. split; [intros _; right; by left|].
      intros _. left. by eexists.
    + rewrite lookup_insert_ne by done.
      split; [intros [|]; auto|]. intros [|[|]]; auto. congruence.
Qed.

(** X17.  For any list of schedules, [count_students_per_date] has an entry
    exactly for the dates that occur in the list, and the entry of a date is
    the number of candidates in the sessions of the schedules of that date. *)
Theorem count_students_per_date_sums schedules d :
  (is_Some (count_students_per_date schedules !! d)
   <-> d ∈ map date schedules) /\
  default 0%nat (count_students_per_date schedules !! d)
  = sum_list (map slot_total (filter (fun s => date s = d) schedules)).
Proof.
  rewrite count_students_per_date_foldl. split.
  - rewrite foldl_count_step_dom. rewrite lookup_empty.
    split; [intros [[? ?]|]; done|by right].
  - by rewrite foldl_count_step, lookup_empty.
Qed.

(** X18.  For any list of schedules, the counts of [count_students_per_lab]
    add up to the number of register numbers that [get_all_register_numbers]
    extracts, and the counts of [count_students_per_date] add up to the same
    number. *)
Theorem counts_add_up schedules :
  sum_list (count_students_per_lab schedules)
  = length (get_all_register_numbers schedules) /\
  map_fold (fun _ n acc => (n + acc)%nat) 0%nat
           (count_students_per_date schedules)
  = length (get_all_register_numbers schedules).
Proof.
  rewrite get_all_register_numbers_concat. unfold count_students_per_lab.
  assert (Hlab : sum_list (map slot_total schedules)
                 = length (concat (map chunk_of schedules))).
  { induction schedules as [|s rest IH]; [done|].
    cbn [map sum_list concat]. rewrite length_app, IH.
    by rewrite slot_total_chunk_of. }
  split; [done|]. rewrite <- Hlab.
  rewrite count_students_per_date_foldl.
  assert (G : forall counts : gmap string nat,
    map_fold (fun _ n acc => (n + acc)%nat) 0%nat (foldl count_step counts schedules)
    = (map_fold (fun _ n acc => (n + acc)%nat) 0%nat counts
       + sum_list (map slot_total schedules))%nat).
  { clear Hlab. induction schedules as [|s rest IH]; intros counts.
    - simpl. lia.
    - cbn [foldl map sum_list]. rewrite IH. unfold count_step.
      destruct (counts !! date s) as [n|] eqn:E.
      + rewrite <- (insert_delete_id counts (date s) n E) at 2.
        rewrite <- (insert_delete_eq counts).
        rewrite !map_fold_insert_L;
          [simpl; lia|intros; lia|by rewrite lookup_delete_eq
          |intros; lia|by rewrite lookup_delete_eq].
      + rewrite map_fold_insert_L; [simpl; lia|intros; lia|done]. }
  rewrite G, map_fold_empty. lia.
Qed.

(** ** The cohort lookup *)

Lemma foldl_concat_map {A B C} (f : A -> C -> A) (g : B -> list C) l a :
  foldl f a (concat (map g l)) = foldl (fun a x => foldl f a (g x)) a l.
Proof.
  revert a. induction l as [|x l IH]; intros a; [done|].
  cbn [map concat foldl]. by rewrite foldl_app, IH.
Qed.

Lemma build_reg_to_sem_batch_listing semesters :
  build_reg_to_sem_batch semesters
  = foldl (fun m kv => <[kv.1 := kv.2]> m) ∅ (listing semesters).
Proof.
  unfold build_reg_to_sem_batch, listing.
  generalize (∅ : gmap string (string * string)).
  induction semesters as [|sem rest IH]; intros m0; [done|].
  cbn [foldl]. rewrite IH. clear IH.
  change (mbind ?f (sem :: rest)) with (f sem ++ mbind f rest).
  rewrite foldl_app. f_equal.
  generalize m0. clear.
  induction (batches sem) as [|b bs IH]; intros m0; [done|].
  cbn [foldl]. rewrite IH. clear IH.
  change (mbind ?f (b :: bs)) with (f b ++ mbind f bs).
  rewrite foldl_app. f_equal.
  generalize m0. clear.
  induction (batch_register_numbers b) as [|r rs IH]; intros m0; [done|].
  cbn [foldl]. by rewrite IH.
Qed.

Lemma foldl_insert_lookup (l : list (string * (string * string)))
    (m0 : gmap string (string * string)) reg_no :
  foldl (fun m kv => <[kv.1 := kv.2]> m) m0 l !! reg_no
  = match last (entries_of reg_no l) with
    | Some p => Some p
    | None => m0 !! reg_no
    end.
Proof.
  induction l as [|[r p] l IH] using rev_ind; [done|].
  rewrite foldl_app. cbn [foldl fst snd]. unfold entries_of in *.
  rewrite omap_app.
  change (omap ?f [(r, p)]) with (match f (r, p) with
                                  | Some y => [y]
                                  | None => []
                                  end).
  cbn [fst snd].
  destruct (decide (r = reg_no)) as [->|Hne].
  - by rewrite lookup_insert_eq, last_snoc.
  - rewrite lookup_insert_ne by done. by rewrite app_nil_r.
Qed.

Lemma build_reg_to_sem_batch_lookup semesters reg_no :
  build_reg_to_sem_batch semesters !! reg_no
  = last (entries_of reg_no (listing semesters)).
Proof.
  rewrite build_reg_to_sem_batch_listing, foldl_insert_lookup, lookup_empty.
  by destruct (last _).
Qed.

(** X19.  The cohort that [allocate_students] records for a register number is
    that of the last batch, in the order of the semesters and of their
    batches, that lists it; a register number has a cohort exactly when some
    batch of some semester lists it, and its cohort is the name of such a
    semester with the label that [get_batch_label] gives such a batch. *)
Theorem build_reg_to_sem_batch_last_wins semesters reg_no :
  build_reg_to_sem_batch semesters !! reg_no
  = last (entries_of reg_no (listing semesters)) /\
  (is_Some (build_reg_to_sem_batch semesters !! reg_no)
   <-> exists sem b, sem ∈ semesters /\ b ∈ batches sem /\
                     reg_no ∈ batch_register_numbers b) /\
  forall p, build_reg_to_sem_batch semesters !! reg_no = Some p ->
            exists sem b, sem ∈ semesters /\ b ∈ batches sem /\
                          reg_no ∈ batch_register_numbers b /\
                          p = (semester_name sem,
                               Body.get_batch_label sem (batch_name b)).
Proof.
  split; [apply build_reg_to_sem_batch_lookup|].
  rewrite build_reg_to_sem_batch_lookup. unfold Body.get_batch_label.
  assert (Hin : forall p,
    p ∈ entries_of reg_no (listing semesters) <->
    exists sem b, sem ∈ semesters /\ b ∈ batches sem /\
                  reg_no ∈ batch_register_numbers b /\
                  p = (semester_name sem, semester_name sem +:+ batch_name b)).
  { intros p. unfold entries_of. rewrite list_elem_of_omap. split.
    - intros ([r q] & Hrq & Hsel). cbn [fst snd] in Hsel.
      destruct (decide (r = reg_no)) as [->|]; [|done].
      injection Hsel as ->.
      unfold listing in Hrq.
      apply list_elem_of_bind in Hrq as (sem & Hrq & Hsem).
      apply list_elem_of_bind in Hrq as (b & Hrq & Hb).
      apply list_elem_of_bind in Hrq as (r & Hrq & Hr).
      apply list_elem_of_singleton in Hrq as [= -> ->].
      by exists sem, b.
    - intros (sem & b & Hsem & Hb & Hr & ->).
      exists (reg_no, (semester_name sem, semester_name sem +:+ batch_name b)).
      split; [|cbn [fst snd]; by rewrite decide_True].
      unfold listing.
      apply list_elem_of_bind. exists sem. split; [|done].
      apply list_elem_of_bind. exists b. split; [|done].
      apply list_elem_of_bind. exists reg_no. split; [|done].
      by apply list_elem_of_singleton. }
  split.
  - split.
    + intros [p Hp]. apply last_Some_elem_of, Hin in Hp
        as (sem & b & ? & ? & ? & _). by exists sem, b.
    + intros (sem & b & Hsem & Hb & Hr).
      destruct (last (entries_of reg_no (listing semesters))) as [p|] eqn:E;
        [by eexists|].
      apply last_None in E.
      assert (Hp : (semester_name sem, semester_name sem +:+ batch_name b)
                   ∈ entries_of reg_no (listing semesters))
        by (apply Hin; by exists sem, b).
      rewrite E in Hp. by apply elem_of_nil in Hp.
  - intros p Hp. by apply last_Some_elem_of, Hin in Hp.
Qed.

(** ** The date selector: order, earliest dates, gaps *)

Lemma sublist_StronglySorted {A} (R : A -> A -> Prop) (k l : list A) :
  k `sublist_of` l -> StronglySorted R l -> StronglySorted R k.
Proof.
  induction 1 as [|x k l Hsub IH|x k l Hsub IH]; intros Hl; [done|..].
  - apply StronglySorted_inv in Hl as [Hl Hx].
    constructor; [by apply IH|].
    eapply Forall_submseteq; [by apply sublist_submseteq|done].
  - apply StronglySorted_inv in Hl as [Hl _]. by apply IH.
Qed.

Lemma pool_parses_or_not pool :
  Forall well_formed pool \/ Exists (fun tok => parses tok = false) pool.
Proof.
  induction pool as [|tok pool [IH|IH]].
  - by left.
  - destruct (parses tok) eqn:E.
    + left. by constructor.
    + right. by left.
  - right. by right.
Qed.

Lemma select_optimal_dates_Ok_well_formed pool n gap r :
  select_optimal_dates pool n gap = Ok r ->
  ceil_div n 125 <> 0 -> Forall well_formed pool.
Proof.
  intros Hrun Hreq. destruct (pool_parses_or_not pool) as [|Hbad]; [done|].
  rewrite (select_optimal_dates_raises pool n gap Hbad Hreq) in Hrun. done.
Qed.

Lemma actual_gaps_snoc selected lst tok g gaps :
  last selected = Some lst ->
  date_diff_days lst tok = Ok g ->
  actual_gaps selected = Ok gaps ->
  actual_gaps (selected ++ [tok]) = Ok (gaps ++ [g]).
Proof.
  revert gaps. induction selected as [|d1 rest IH]; intros gaps Hlast Hg Hgaps;
    [done|].
  destruct rest as [|d2 rest'].
  - injection Hlast as ->. injection Hgaps as <-.
    cbn [app]. rewrite actual_gaps_cons, Hg. done.
  - change ((d1 :: d2 :: rest') ++ [tok]) with (d1 :: d2 :: (rest' ++ [tok])).
    rewrite actual_gaps_cons in Hgaps |- *.
    destruct (date_diff_days d1 d2) as [g1|] eqn:E1; [|done].
    cbn [mbind result_bind Py.bind] in Hgaps |- *.
    destruct (actual_gaps (d2 :: rest')) as [gs|] eqn:E2; [|done].
    cbn [mbind result_bind Py.bind mret result_ret] in Hgaps |- *.
    injection Hgaps as <-.
    change (d2 :: (rest' ++ [tok])) with ((d2 :: rest') ++ [tok]).
    rewrite (IH gs); [done|done|done|done].
Qed.

Lemma gap_walk_gaps required gap rest selected gaps :
  Forall well_formed rest -> Forall well_formed selected -> selected <> [] ->
  actual_gaps selected = Ok gaps -> Forall (fun g => gap <= g) gaps ->
  exists extra gaps',
    gap_walk required gap rest selected = Ok (selected ++ extra) /\
    extra `sublist_of` rest /\
    actual_gaps (selected ++ extra) = Ok gaps' /\
    Forall (fun g => gap <= g) gaps'.
Proof.
  intros Hrest. revert selected gaps.
  induction Hrest as [|tok rest Htok Hrest IH];
    intros selected gaps Hsel Hne Hgaps Hall.
  - exists [], gaps. rewrite app_nil_r. by split_and!.
  - cbn [gap_walk].
    destruct (Z.geb_spec (Z.of_nat (length selected)) required) as [Hfull|Hroom].
    { exists [], gaps. rewrite app_nil_r.
      split_and!; [done|apply sublist_nil_l|done|done]. }
    unfold last_item.
    destruct (last selected) as [lst|] eqn:Hlast;
      [|by apply last_None in Hlast].
    assert (Hlst : well_formed lst).
    { apply last_Some_elem_of in Hlast.
      by apply (proj1 (Forall_forall _ _) Hsel). }
    destruct (date_diff_days_ok lst tok Hlst Htok) as [g Hg].
    cbn [mbind result_bind Py.bind]. rewrite Hg.
    cbn [mbind result_bind Py.bind].
    destruct (Z.geb_spec g gap) as [Hwide|Hnarrow].
    + destruct (IH (selected ++ [tok]) (gaps ++ [g]))
        as (extra & gaps' & Hrun & Hsub & Hgaps' & Hall').
      { apply Forall_app. split; [done|by constructor]. }
      { by destruct selected. }
      { by eapply actual_gaps_snoc. }
      { apply Forall_app. split; [done|]. constructor; [lia|done]. }
      exists (tok :: extra), gaps'. rewrite Hrun.
      rewrite <- app_assoc in *. cbn [app] in *.
      split_and!; [done|by apply sublist_skip|done|done].
    + destruct (IH selected gaps) as (extra & gaps' & Hrun & Hsub & Hrest');
        [done..|].
      exists extra, gaps'. rewrite Hrun.
      split_and!; [done|by apply sublist_cons|apply Hrest'..].
Qed.

Lemma slice_to_take {A} (l : list A) n :
  0 <= n -> slice_to l n = take (Z.to_nat n) l.
Proof. intros Hn. unfold slice_to. by destruct (Z.ltb_spec n 0); [lia|]. Qed.

Lemma slice_to_sublist {A} (l : list A) n : slice_to l n `sublist_of` l.
Proof. unfold slice_to. destruct (n <? 0); apply sublist_take. Qed.

Lemma with_gap_message_run n selected :
  Forall well_formed selected ->
  exists gaps,
    actual_gaps selected = Ok gaps /\
    with_gap_message n selected
    = Ok (selected, Selected (length selected) n gaps).
Proof.
  intros Hsel. unfold with_gap_message.
  destruct (actual_gaps_ok selected Hsel) as [gaps Hgaps].
  exists gaps. by rewrite Hgaps.
Qed.

(** What a run of the selector on a well-formed pool returns. *)
Lemma select_optimal_dates_run pool n gap :
  Forall well_formed pool ->
  exists selected message,
    select_optimal_dates pool n gap = Ok (selected, message) /\
    selected `sublist_of` stable_sort date_key pool /\
    (1 <= n -> gap <= 1 \/ (exists k, message = GapRelaxed k) ->
     selected = take (Z.to_nat (ceil_div n 125)) (stable_sort date_key pool)) /\
    (1 < gap ->
     forall k c gaps, message = Selected k c gaps ->
       k = length selected /\ c = n /\
       actual_gaps selected = Ok gaps /\ Forall (fun g => gap <= g) gaps).
Proof.
  intros Hpool. unfold select_optimal_dates.
  change (Z.of_nat Scheduler.DAILY_CAPACITY) with 125.
  destruct pool as [|p0 pool'] eqn:Epool.
  { eexists _, _. split_and!; [done|done| |done].
    intros _ _. cbn [stable_sort]. by rewrite take_nil. }
  assert (Hpne : (0 < length pool)%nat) by (rewrite Epool; simpl; lia).
  rewrite <- Epool in *. clear p0 pool' Epool.
  set (required := ceil_div n 125).
  destruct (Z.eqb_spec required 0) as [Hzero|Hnonzero].
  { eexists _, _. split_and!; [done|apply sublist_nil_l| |done].
    intros Hn. pose proof (ceil_div_positive n Hn) as Hpos. fold required in Hpos. lia. }
  rewrite (sorted_by_date_ok pool Hpool).
  cbn [mbind result_bind Py.bind].
  pose proof (stable_sort_Permutation date_key pool) as Hperm.
  pose proof (length_stable_sort date_key pool) as Hlen.
  set (sorted := stable_sort date_key pool) in *.
  assert (Hsorted : Forall well_formed sorted) by (by rewrite Hperm).
  destruct (Z.ltb_spec (Z.of_nat (length sorted)) required) as [Hshort|Henough].
  { eexists _, _. split_and!; [done|done| |done].
    intros _ _. rewrite take_ge; [done|lia]. }
  destruct (Z.eqb_spec required 1) as [Hone|Hmore].
  { destruct sorted as [|first sorted'] eqn:Es; [simpl in *; lia|].
    cbn [first_item mbind result_bind Py.bind mret result_ret].
    eexists _, _. split_and!; [done| | |done].
    - apply sublist_skip, sublist_nil_l.
    - intros _ _. by replace (Z.to_nat required) with 1%nat by lia. }
  destruct (Z.leb_spec gap 1) as [Hnogap|Hgap].
  { destruct (with_gap_message_run n (slice_to sorted required))
      as (gaps & Hgaps & ->).
    { eapply Forall_submseteq; [apply slice_to_submseteq|done]. }
    eexists _, _. split_and!; [done|apply slice_to_sublist| |intros; lia].
    intros Hn _. pose proof (ceil_div_positive n Hn) as Hpos.
    fold required in Hpos. apply slice_to_take. lia. }
  destruct sorted as [|first sorted'] eqn:Es; [simpl in *; lia|].
  cbn [first_item mbind result_bind Py.bind].
  destruct (gap_walk_gaps required gap sorted' [first] [])
    as (extra & gaps & Hrun & Hsub & Hgaps & Hall).
  { by inversion Hsorted. }
  { inversion Hsorted. by constructor. }
  { done. }
  { done. }
  { done. }
  change (drop 1 (first :: sorted')) with sorted'.
  rewrite Hrun. cbn [mbind result_bind Py.bind app] in Hgaps |- *.
  destruct (Z.ltb_spec (Z.of_nat (length (first :: extra))) required)
    as [Hfew|Hreached].
  { rewrite <- Es. eexists _, _.
    split_and!; [done|apply slice_to_sublist| |done].
    intros Hn _. pose proof (ceil_div_positive n Hn) as Hpos.
    fold required in Hpos. apply slice_to_take. lia. }
  destruct (with_gap_message_run n (first :: extra)) as (gaps' & Hgaps' & ->).
  { eapply Forall_submseteq; [|exact Hsorted].
    apply sublist_submseteq. by apply sublist_skip. }
  eexists _, _. split_and!; [done|by apply sublist_skip| |].
  - intros _ [?|[k ?]]; [lia|done].
  - intros _ k c gs [= <- <- <-]. split_and!; [done..| |].
    + done.
    + rewrite Hgaps in Hgaps'. by injection Hgaps' as <-.
Qed.

(** X20.  On a pool of well-formed tokens, for a count of magnitude at most
    [125 * 2^47], the function returns and the selection is a subsequence of
    the pool in chronological order (the stable sort by date): the selected
    dates come out earliest first and no date is selected twice unless the
    pool holds it twice. *)
Theorem select_optimal_dates_chronological pool n gap :
  Forall well_formed pool ->
  exact_count n ->
  exists selected message,
    select_optimal_dates pool n gap = Ok (selected, message) /\
    selected `sublist_of` stable_sort date_key pool /\
    StronglySorted date_le selected.
Proof.
  intros Hpool _.
  destruct (select_optimal_dates_run pool n gap Hpool)
    as (selected & message & Hrun & Hsub & _).
  exists selected, message. split_and!; [done..|].
  eapply sublist_StronglySorted; [exact Hsub|].
  apply (stable_sort_sorted date_key).
Qed.

Lemma select_optimal_dates_chronological_witness :
  exists selected message,
    select_optimal_dates ["15-01-25"; "10-01-25"; "11-01-25"] 200 3
    = Ok (selected, message) /\
    selected `sublist_of`
      stable_sort date_key ["15-01-25"; "10-01-25"; "11-01-25"] /\
    StronglySorted date_le selected.
Proof.
  apply select_optimal_dates_chronological; [|by vm_compute].
  apply three_tokens_well_formed; by vm_compute.
Defined.

(** X21.  With at least one candidate, whenever no gap is asked for
    ([min_gap_days <= 1]) or the gap had to be relaxed, a returning run
    selects exactly the earliest dates: the first [ceil(n / 125)] of the pool
    in chronological order, or all of them when there are fewer. *)
Theorem select_optimal_dates_earliest pool n gap selected message :
  1 <= n ->
  gap <= 1 \/ (exists k, message = GapRelaxed k) ->
  select_optimal_dates pool n gap = Ok (selected, message) ->
  selected = take (Z.to_nat (ceil_div n 125)) (stable_sort date_key pool).
Proof.
  intros Hn Hcase Hrun.
  assert (Hpool : Forall well_formed pool).
  { eapply select_optimal_dates_Ok_well_formed; [exact Hrun|].
    pose proof (ceil_div_positive n Hn). lia. }
  destruct (select_optimal_dates_run pool n gap Hpool)
    as (selected' & message' & Hrun' & _ & Hearly & _).
  rewrite Hrun in Hrun'. injection Hrun' as <- <-. by apply Hearly.
Qed.

Lemma select_optimal_dates_earliest_witness :
  ["10-01-25"; "11-01-25"]
  = take (Z.to_nat (ceil_div 200 125))
         (stable_sort date_key ["12-01-25"; "10-01-25"; "11-01-25"]).
Proof.
  apply (select_optimal_dates_earliest
           ["12-01-25"; "10-01-25"; "11-01-25"] 200 3
           ["10-01-25"; "11-01-25"] (GapRelaxed 2)).
  - lia.
  - right. by exists 2%nat.
  - by vm_compute.
Defined.

(** X22.  When a gap of more than one day is asked for and the run reports a
    selection with its gaps (the gap was not relaxed), the gaps reported are
    the day differences between neighbouring selected dates, and each is at
    least the gap asked for. *)
Theorem select_optimal_dates_gap_kept pool n gap selected k c gaps :
  1 < gap ->
  select_optimal_dates pool n gap = Ok (selected, Selected k c gaps) ->
  k = length selected /\ c = n /\
  actual_gaps selected = Ok gaps /\ Forall (fun g => gap <= g) gaps.
Proof.
  intros Hgap Hrun.
  assert (Hpool : Forall well_formed pool).
  { eapply select_optimal_dates_Ok_well_formed; [exact Hrun|].
    intros Hzero. unfold select_optimal_dates in Hrun.
    change (Z.of_nat Scheduler.DAILY_CAPACITY) with 125 in Hrun.
    rewrite Hzero in Hrun. by destruct pool. }
  destruct (select_optimal_dates_run pool n gap Hpool)
    as (selected' & message' & Hrun' & _ & _ & Hgaps).
  rewrite Hrun in Hrun'. injection Hrun' as <- <-. by apply Hgaps.
Qed.

Lemma select_optimal_dates_gap_kept_witness :
  2%nat = length ["10-01-25"; "15-01-25"] /\ 200 = 200 /\
  actual_gaps ["10-01-25"; "15-01-25"] = Ok [5] /\
  Forall (fun g => 3 <= g) [5].
Proof.
  apply (select_optimal_dates_gap_kept ["10-01-25"; "11-01-25"; "15-01-25"]).
  - lia.
  - by vm_compute.
Defined.

(** ** The date sorter, again *)

Lemma stable_sort_sorted_id {A} (key : A -> Z) (l : list A) :
  StronglySorted (key_le key) l -> stable_sort key l = l.
Proof.
  induction 1 as [|x l Hl IH Hx]; [done|].
  cbn [stable_sort]. rewrite IH.
  destruct l as [|y l']; [done|]. cbn [insert_by].
  apply Forall_cons in Hx as [Hxy _]. unfold key_le in Hxy.
  by destruct (Z.leb_spec (key x) (key y)); [|lia].
Qed.

Lemma map_strip_stripped (l : list string) :
  Forall (fun t => strip t = t) l -> map strip l = l.
Proof. induction 1 as [|t l Ht _ IH]; simpl; [done|]. by rewrite Ht, IH. Qed.

Lemma parse_dates_stripped l : Forall (fun t => strip t = t) (parse_dates l).
Proof.
  rewrite parse_dates_stable_sort, stable_sort_Permutation.
  apply Forall_forall. intros t Ht.
  apply list_elem_of_fmap in Ht as (t' & -> & _). apply strip_idemp.
Qed.

(** X23.  [parse_dates] is idempotent: sorting its own result changes nothing.
    *)
Theorem parse_dates_idempotent l : parse_dates (parse_dates l) = parse_dates l.
Proof.
  rewrite (parse_dates_stable_sort (parse_dates l)).
  rewrite (map_strip_stripped _ (parse_dates_stripped l)).
  apply stable_sort_sorted_id.
  rewrite parse_dates_stable_sort. apply stable_sort_sorted.
Qed.

(** ** The schema check of the formatter *)

Lemma lookup_indexed {A} (l : list A) j i x :
  Formatter.indexed l !! j = Some (i, x) <-> i = j /\ l !! j = Some x.
Proof.
  unfold Formatter.indexed. split.
  - intros H. apply lookup_zip_with_Some in H as (a & b & [= <- <-] & Ha & Hb).
    apply lookup_seq in Ha as [-> _]. done.
  - intros [-> Hx]. apply lookup_zip_with_Some. exists j, x.
    split_and!; [done| |done].
    apply lookup_seq. split; [done|]. by eapply lookup_lt_Some.
Qed.

Lemma snd_indexed {A} (l : list A) : map snd (Formatter.indexed l) = l.
Proof. unfold Formatter.indexed. apply snd_zip. by rewrite length_seq. Qed.

Lemma foldl_grows {A} (f : list string -> A -> list string)
    (P : A -> Prop) (l : list A) :
  (forall acc x, exists new, f acc x = acc ++ new /\ (new = [] <-> P x)) ->
  forall acc, exists new, foldl f acc l = acc ++ new /\ (new = [] <-> Forall P l).
Proof.
  intros Hf. induction l as [|x l IH]; intros acc.
  - exists []. by rewrite app_nil_r.
  - cbn [foldl]. destruct (Hf acc x) as (new1 & -> & Hx).
    destruct (IH (acc ++ new1)) as (new2 & -> & Hl).
    exists (new1 ++ new2). rewrite <- app_assoc. split; [done|].
    rewrite Forall_cons, <- Hx, <- Hl. split.
    + intros H. by apply app_eq_nil in H.
    + by intros [-> ->].
Qed.

Lemma slot_errors_grows i acc (js : nat * TimeSlot) :
  exists new,
    Formatter.slot_errors i acc js = acc ++ new /\
    (new = [] <-> time js.2 <> "" /\ session js.2 <> "").
Proof.
  destruct js as [j slot]. unfold Formatter.slot_errors. cbn [snd].
  destruct (decide (time slot = "")) as [Ht|Ht];
    destruct (decide (session slot = "")) as [Hs|Hs];
    eexists; rewrite <- ?app_assoc;
    (split; [try reflexivity; by rewrite app_nil_r|]);
    split; try done; by intros [? ?].
Qed.

Lemma schedule_errors_grows acc (entry : nat * LabSchedule) :
  exists new,
    Formatter.schedule_errors acc entry = acc ++ new /\
    (new = [] <-> schema_ok entry.2).
Proof.
  destruct entry as [i s]. unfold Formatter.schedule_errors, schema_ok.
  cbn [snd].
  set (e1 := if decide (date s = "")
             then ["Missing schedule[" +:+ pretty i +:+ "].date"] else []).
  set (e2 := if decide (lab s = "")
             then ["Missing schedule[" +:+ pretty i +:+ "].lab"] else []).
  assert (H1 : (if decide (date s = "")
                then acc ++ ["Missing schedule[" +:+ pretty i +:+ "].date"]
                else acc) = acc ++ e1).
  { unfold e1. by destruct (decide (date s = "")); rewrite ?app_nil_r. }
  rewrite H1. clear H1.
  assert (H2 : (if decide (lab s = "")
                then (acc ++ e1) ++ ["Missing schedule[" +:+ pretty i +:+ "].lab"]
                else acc ++ e1) = acc ++ e1 ++ e2).
  { unfold e2. destruct (decide (lab s = ""));
      by rewrite ?app_nil_r, <- ?app_assoc. }
  rewrite H2. clear H2.
  assert (He1 : e1 = [] <-> date s <> "")
    by (unfold e1; by destruct (decide (date s = ""))).
  assert (He2 : e2 = [] <-> lab s <> "")
    by (unfold e2; by destruct (decide (lab s = ""))).
  destruct (decide (length (slots s) = 2%nat)) as [Hlen|Hlen].
  - destruct (foldl_grows (Formatter.slot_errors i)
                (fun js => time js.2 <> "" /\ session js.2 <> "")
                (Formatter.indexed (slots s)) (slot_errors_grows i)
                (acc ++ e1 ++ e2)) as (new & -> & Hnew).
    exists (e1 ++ e2 ++ new). rewrite <- !app_assoc. split; [done|].
    rewrite <- (Forall_fmap snd (fun slot => time slot <> "" /\ session slot <> ""))
      in Hnew.
    rewrite snd_indexed in Hnew.
    rewrite <- He1, <- He2, <- Hnew. split.
    + intros H. apply app_eq_nil in H as [-> H].
      apply app_eq_nil in H as [-> ->]. done.
    + by intros (-> & -> & _ & ->).
  - eexists. rewrite <- !app_assoc. split; [done|]. split.
    + intros H. apply app_eq_nil in H as [_ H].
      apply app_eq_nil in H as [_ H]. done.
    + by intros (_ & _ & ? & _).
Qed.

(** X24.  [validate_schedule_schema] reports nothing exactly when every
    schedule of the response has a date, a lab, exactly two slots, and a time
    and a session in each slot. *)
Theorem validate_schedule_schema_passes_iff (response : Requests.ScheduleResponse) :
  Formatter.validate_schedule_schema response = []
  <-> Forall schema_ok (Requests.schedule response).
Proof.
  unfold Formatter.validate_schedule_schema.
  destruct (foldl_grows Formatter.schedule_errors
              (fun entry => schema_ok entry.2)
              (Formatter.indexed (Requests.schedule response))
              schedule_errors_grows []) as (new & -> & Hnew).
  cbn [app]. rewrite Hnew.
  rewrite <- (Forall_fmap snd schema_ok). by rewrite snd_indexed.
Qed.

(** ** The endpoints *)

Import Requests.

Lemma parses_stripped_nonempty tok : parses_stripped tok -> tok <> "".
Proof. by intros H ->. Qed.

Lemma Forall_parses_stripped_parse_dates l :
  Forall parses_stripped (parse_dates l) <-> Forall parses_stripped l.
Proof.
  rewrite parse_dates_stable_sort, stable_sort_Permutation, Forall_fmap.
  apply Forall_proper; [|done]. intros t.
  unfold parses_stripped, compose. by rewrite strip_idemp.
Qed.

Lemma length_parse_dates l : length (parse_dates l) = length l.
Proof.
  by rewrite parse_dates_stable_sort, length_stable_sort, length_map.
Qed.

Lemma remove_duplicates_NoDup l :
  NoDup (fst (remove_duplicates l)) /\
  forall x, x ∈ fst (remove_duplicates l) <-> x ∈ l.
Proof.
  unfold remove_duplicates.
  destruct (remove_duplicates_loop_spec l ∅ [] [])
    as (u' & d' & -> & Hnd & Hmem & _); [set_solver|constructor|].
  simpl in *. split; [done|]. intros x. rewrite Hmem, elem_of_nil. tauto.
Qed.

Lemma remove_duplicates_lengths l :
  (length (fst (remove_duplicates l)) + length (snd (remove_duplicates l))
   = length l)%nat.
Proof.
  unfold remove_duplicates.
  destruct (remove_duplicates_loop_spec l ∅ [] [])
    as (u' & d' & -> & _ & _ & Hperm & _); [set_solver|constructor|].
  simpl. apply Permutation_length in Hperm. by rewrite length_app in Hperm.
Qed.

Lemma remove_duplicates_nil_iff l : fst (remove_duplicates l) = [] <-> l = [].
Proof.
  destruct (remove_duplicates_NoDup l) as [_ Hmem]. split.
  - intros Hnil. destruct l as [|x l]; [done|].
    assert (Hx : x ∈ fst (remove_duplicates (x :: l))) by (apply Hmem; left).
    rewrite Hnil in Hx. by apply elem_of_nil in Hx.
  - by intros ->.
Qed.

Lemma date_maps_sequential exam_dates :
  Forall (fun ed => exam_register_numbers ed = []) exam_dates ->
  (Api.date_maps exam_dates).2 = ∅.
Proof.
  intros H. unfold Api.date_maps.
  generalize (∅ : gmap string string).
  induction H as [|ed rest Hed _ IH]; intros m0; [done|].
  cbn [foldl snd]. rewrite Hed. apply IH.
Qed.

(** [generate_schedule] through the validator's results. *)
Lemma generate_schedule_run request :
  Api.generate_schedule request
  = let unique := fst (remove_duplicates (Body.get_all_register_numbers request)) in
    let duplicates := snd (remove_duplicates (Body.get_all_register_numbers request)) in
    let dates := parse_dates (Body.get_dates request) in
    let view := Api.validator_view request unique dates in
    let warnings1 :=
      match duplicates with
      | [] => []
      | _ => [Api.duplicates_warning "removed" duplicates]
      end ++ warnings_of view in
    match errors_of view with
    | _ :: _ => mkApiResponse false None (errors_of view) warnings1
    | [] =>
        mkApiResponse true
          (Some (Formatter.format_schedule_response (body_exam_metadata request)
                   (body_internal_examiners request)
                   (body_external_examiners request)
                   (allocate_students unique dates
                      (labs_in_use (body_labs request))
                      (body_internal_examiners request)
                      (body_external_examiners request)
                      (body_semesters request)
                      (Api.date_maps (body_exam_dates request)).1
                      (Api.date_maps (body_exam_dates request)).2)))
          [] warnings1
    end.
Proof.
  unfold Api.generate_schedule, errors_of, warnings_of.
  destruct (remove_duplicates (Body.get_all_register_numbers request))
    as [unique duplicates].
  destruct (Api.date_maps (body_exam_dates request)) as [ds drn].
  cbn [fst snd].
  pose proof (request_after_fields
                (Api.validator_view request unique
                   (parse_dates (Body.get_dates request))))
    as (Hlabs & _ & Hregs & _).
  unfold request_after in Hlabs, Hregs.
  destruct (validate_schedule_request _) as [[errs warns] validated].
  cbn [fst snd] in *. destruct errs; [|done].
  rewrite Hlabs, Hregs. reflexivity.
Qed.

Lemma generate_schedule_passes request :
  errors_of (Api.validator_view request
               (fst (remove_duplicates (Body.get_all_register_numbers request)))
               (parse_dates (Body.get_dates request))) = []
  <-> Body.get_all_register_numbers request <> [] /\
      Forall parses_stripped (Body.get_dates request).
Proof.
  rewrite validate_schedule_request_passes.
  cbn [Api.validator_view req_register_numbers req_dates].
  by rewrite remove_duplicates_nil_iff, Forall_parses_stripped_parse_dates.
Qed.

(** X25.  For a request whose dates are made of ASCII characters,
    [generate_schedule] succeeds exactly when the request holds at least one
    register number and every date, once stripped, parses; it then carries a
    schedule and no error, and otherwise errors and no schedule. (Lab names
    are taken not to be empty: the schedule model refuses an empty one.) *)
Theorem generate_schedule_success_iff request :
  Forall (fun l => l <> "") (body_labs request) ->
  Forall ascii_text (Body.get_dates request) ->
  (success (Api.generate_schedule request) = true
   <-> Body.get_all_register_numbers request <> [] /\
       Forall parses_stripped (Body.get_dates request)) /\
  (success (Api.generate_schedule request) = true
   <-> errors (Api.generate_schedule request) = []) /\
  (success (Api.generate_schedule request) = true
   <-> is_Some (data (Api.generate_schedule request))).
Proof.
  intros _ _. rewrite <- generate_schedule_passes, generate_schedule_run.
  cbv zeta.
  destruct (errors_of _) as [|e errs]; cbn [success errors data].
  - split_and!; split; try done; by eexists.
  - split_and!; split; try done; by intros [? ?].
Qed.

Lemma generate_schedule_success_iff_witness :
  (success (Api.generate_schedule sample_request) = true
   <-> Body.get_all_register_numbers sample_request <> [] /\
       Forall parses_stripped (Body.get_dates sample_request)) /\
  (success (Api.generate_schedule sample_request) = true
   <-> errors (Api.generate_schedule sample_request) = []) /\
  (success (Api.generate_schedule sample_request) = true
   <-> is_Some (data (Api.generate_schedule sample_request))).
Proof.
  apply generate_schedule_success_iff; by repeat constructor.
Defined.

Lemma allocate_students_dated regs dates labs ie ee sems ds drn :
  Forall (fun s => exists d, d ∈ dates /\
                             emitted (build_reg_to_sem_batch sems) labs d s)
         (allocate_students regs dates labs ie ee sems ds drn).
Proof.
  destruct (allocate_students_groups regs dates labs ie ee sems ds drn)
    as (groups & -> & Hg & _).
  induction Hg as [|d g dates' groups' [Hem _] _ IH]; simpl; [done|].
  apply Forall_app. split.
  - eapply Forall_impl; [exact Hem|]. intros s Hs. exists d. split; [left|done].
  - eapply Forall_impl; [exact IH|]. intros s (d' & Hd' & Hs).
    exists d'. split; [by right|done].
Qed.

Lemma emitted_schema_ok m labs d s :
  d <> "" -> Forall (fun l => l <> "") labs -> emitted m labs d s ->
  schema_ok s.
Proof.
  intros Hd Hlabs (lab & chunk & ie & ee & subj & Hlab & Hne & Hlen & ->).
  unfold schema_ok, create_lab_schedule, split_into_slots.
  cbn [date Models.lab slots length].
  split_and!; [done|by apply (proj1 (Forall_forall _ _) Hlabs)|done|].
  unfold create_time_slot.
  repeat case_decide; try done.
  by repeat constructor.
Qed.

Lemma labs_in_use_nonempty labs :
  Forall (fun l => l <> "") labs -> Forall (fun l => l <> "") (labs_in_use labs).
Proof.
  intros H. destruct labs; [|done].
  unfold labs_in_use, DEFAULT_LABS. by repeat constructor.
Qed.

(** X26.  Every schedule that [generate_schedule] returns passes the schema
    check of the formatter, for lab names that are not empty. *)
Theorem generate_schedule_schema request response :
  Forall (fun l => l <> "") (body_labs request) ->
  data (Api.generate_schedule request) = Some response ->
  Formatter.validate_schedule_schema response = [].
Proof.
  intros Hlabs. rewrite generate_schedule_run. cbv zeta.
  destruct (errors_of _) as [|e errs] eqn:Herr; cbn [data]; [|done].
  intros [= <-].
  apply generate_schedule_passes in Herr as [_ Hdates].
  apply Forall_parses_stripped_parse_dates in Hdates.
  unfold Formatter.validate_schedule_schema, Formatter.format_schedule_response.
  cbn [schedule].
  destruct (foldl_grows Formatter.schedule_errors
              (fun entry => schema_ok entry.2)
              (Formatter.indexed
                 (allocate_students
                    (fst (remove_duplicates (Body.get_all_register_numbers request)))
                    (parse_dates (Body.get_dates request))
                    (labs_in_use (body_labs request))
                    (body_internal_examiners request)
                    (body_external_examiners request)
                    (body_semesters request)
                    (Api.date_maps (body_exam_dates request)).1
                    (Api.date_maps (body_exam_dates request)).2))
              schedule_errors_grows []) as (new & -> & Hnew).
  cbn [app]. apply Hnew.
  rewrite <- (Forall_fmap snd schema_ok), snd_indexed.
  eapply Forall_impl; [apply allocate_students_dated|].
  intros s (d & Hd & Hs). eapply emitted_schema_ok; [| |exact Hs].
  - apply parses_stripped_nonempty.
    by apply (proj1 (Forall_forall _ _) Hdates).
  - by apply labs_in_use_nonempty.
Qed.

Lemma generate_schedule_schema_witness :
  exists response,
    data (Api.generate_schedule sample_request) = Some response /\
    Formatter.validate_schedule_schema response = [].
Proof.
  eexists. split; [by vm_compute|].
  apply (generate_schedule_schema sample_request).
  - by repeat constructor.
  - by vm_compute.
Defined.

(** X27.  When no exam date carries register numbers of its own, the schedule
    that [generate_schedule] returns holds the deduplicated register numbers
    of the request, in the order of their first occurrence, cut at 25 a lab
    for every date and lab in use: no register number is scheduled twice. (Lab
    names are taken not to be empty.) *)
Theorem generate_schedule_no_duplicates request response :
  Forall (fun l => l <> "") (body_labs request) ->
  Forall (fun ed => exam_register_numbers ed = []) (body_exam_dates request) ->
  data (Api.generate_schedule request) = Some response ->
  Allocation.get_all_register_numbers (schedule response)
  = take (25 * length (labs_in_use (body_labs request))
             * length (Body.get_dates request))
         (fst (remove_duplicates (Body.get_all_register_numbers request))) /\
  NoDup (Allocation.get_all_register_numbers (schedule response)).
Proof.
  intros _ Hseq. rewrite generate_schedule_run. cbv zeta.
  destruct (errors_of _) as [|e errs] eqn:Herr; cbn [data]; [|done].
  intros [= <-]. unfold Formatter.format_schedule_response. cbn [schedule].
  rewrite (date_maps_sequential _ Hseq).
  match goal with
  | |- context [allocate_students ?r ?d ?l ?i ?e ?s ?ds ∅] =>
      destruct (allocate_students_groups r d l i e s ds ∅) as (groups & _ & _ & ->)
  end.
  rewrite decide_True by done. rewrite length_parse_dates.
  split; [done|].
  eapply sublist_NoDup; [apply remove_duplicates_NoDup|apply sublist_take].
Qed.

Lemma generate_schedule_no_duplicates_witness :
  exists response,
    data (Api.generate_schedule sample_request) = Some response /\
    Allocation.get_all_register_numbers (schedule response)
    = take (25 * length (labs_in_use (body_labs sample_request))
               * length (Body.get_dates sample_request))
           (fst (remove_duplicates
                   (Body.get_all_register_numbers sample_request))) /\
    NoDup (Allocation.get_all_register_numbers (schedule response)).
Proof.
  eexists. split; [by vm_compute|].
  apply (generate_schedule_no_duplicates sample_request).
  - by repeat constructor.
  - by constructor.
  - by vm_compute.
Defined.

Lemma validate_schedule_run request :
  Api.validate_schedule request
  = let unique := fst (remove_duplicates (Body.get_all_register_numbers request)) in
    let duplicates := snd (remove_duplicates (Body.get_all_register_numbers request)) in
    let view := Api.validator_view request unique (body_dates request) in
    Api.mkValidationReport
      (bool_decide (length (errors_of view) = 0%nat)) (errors_of view)
      (match duplicates with
       | [] => []
       | _ => [Api.duplicates_warning "found" duplicates]
       end ++ warnings_of view)
      (length unique) (length duplicates)
      (length (body_dates request))
      (length (labs_in_use (body_labs request)))
      (length (body_internal_examiners request))
      (length (body_external_examiners request))
      (length (body_semesters request)).
Proof.
  unfold Api.validate_schedule, errors_of, warnings_of.
  destruct (remove_duplicates (Body.get_all_register_numbers request))
    as [unique duplicates].
  cbn [fst snd].
  pose proof (request_after_fields
                (Api.validator_view request unique (body_dates request)))
    as (Hlabs & _ & _ & Hdates & Hie & Hee).
  unfold request_after in *.
  destruct (validate_schedule_request _) as [[errs warns] validated].
  cbn [fst snd] in *. rewrite Hlabs, Hdates, Hie, Hee. reflexivity.
Qed.

(** X28.  For a request whose lab names are not empty and whose field
    [dates] is made of ASCII characters, [validate_schedule] passes exactly
    when the request holds a register number and every entry of [dates],
    once stripped, parses. Its summary counts the register numbers kept and
    the duplicates, which add up to those given, and at least one lab, the
    default labs being counted when none is given. For a request without exam
    dates its verdict is that of [generate_schedule]. *)
Theorem validate_schedule_report request :
  Forall (fun l => l <> "") (body_labs request) ->
  Forall ascii_text (body_dates request) ->
  (Api.report_success (Api.validate_schedule request) = true
   <-> Body.get_all_register_numbers request <> [] /\
       Forall parses_stripped (body_dates request)) /\
  (Api.report_success (Api.validate_schedule request) = true
   <-> Api.report_errors (Api.validate_schedule request) = []) /\
  (Api.total_students (Api.validate_schedule request)
   + Api.duplicates_found (Api.validate_schedule request)
   = length (Body.get_all_register_numbers request))%nat /\
  (1 <= Api.labs_provided (Api.validate_schedule request))%nat /\
  (body_exam_dates request = [] ->
   Api.report_success (Api.validate_schedule request)
   = success (Api.generate_schedule request)).
Proof.
  intros _ _. rewrite validate_schedule_run. cbv zeta.
  cbn [Api.report_success Api.report_errors Api.total_students
       Api.duplicates_found Api.labs_provided].
  split_and!.
  - rewrite bool_decide_eq_true, length_zero_iff_nil.
    rewrite validate_schedule_request_passes.
    cbn [Api.validator_view req_register_numbers req_dates].
    by rewrite remove_duplicates_nil_iff.
  - by rewrite bool_decide_eq_true, length_zero_iff_nil.
  - apply remove_duplicates_lengths.
  - destruct (body_labs request); simpl; lia.
  - intros Hnone.
    assert (Hdates : Body.get_dates request = body_dates request)
      by (unfold Body.get_dates; by rewrite Hnone).
    rewrite generate_schedule_run. cbv zeta.
    pose proof (generate_schedule_passes request) as Hgen.
    rewrite Hdates in Hgen |- *.
    pose proof (validate_schedule_request_passes
                  (Api.validator_view request
                     (fst (remove_duplicates (Body.get_all_register_numbers request)))
                     (body_dates request))) as Hval.
    cbn [Api.validator_view req_register_numbers req_dates] in Hval.
    rewrite remove_duplicates_nil_iff in Hval.
    rewrite <- Hval in Hgen.
    destruct (errors_of (Api.validator_view request _ (parse_dates _)))
      as [|e errs]; cbn [success].
    + apply bool_decide_eq_true, length_zero_iff_nil. by apply Hgen.
    + apply bool_decide_eq_false. rewrite length_zero_iff_nil.
      intros H. by apply Hgen in H.
Qed.

Lemma validate_schedule_report_witness :
  (Api.report_success (Api.validate_schedule sample_request) = true
   <-> Body.get_all_register_numbers sample_request <> [] /\
       Forall parses_stripped (body_dates sample_request)) /\
  (Api.report_success (Api.validate_schedule sample_request) = true
   <-> Api.report_errors (Api.validate_schedule sample_request) = []) /\
  (Api.total_students (Api.validate_schedule sample_request)
   + Api.duplicates_found (Api.validate_schedule sample_request)
   = length (Body.get_all_register_numbers sample_request))%nat /\
  (1 <= Api.labs_provided (Api.validate_schedule sample_request))%nat /\
  (body_exam_dates sample_request = [] ->
   Api.report_success (Api.validate_schedule sample_request)
   = success (Api.generate_schedule sample_request)).
Proof.
  apply validate_schedule_report; by repeat constructor.
Defined.

(** ** The date endpoint *)

Lemma assign_subjects_spec selected subjects :
  map exam_date (DateAssignment.assign_subjects selected subjects) = selected /\
  map exam_subject (DateAssignment.assign_subjects selected subjects)
  = map (fun i => subjects !! i) (seq 0 (length selected)) /\
  Forall (fun ed => exam_register_numbers ed = [])
         (DateAssignment.assign_subjects selected subjects).
Proof.
  unfold DateAssignment.assign_subjects, Formatter.indexed.
  assert (G : forall start acc,
    let out := foldl (fun exam_dates (id : nat * string) =>
                        exam_dates ++ [mkExamDate id.2 (subjects !! id.1) []])
                     acc (zip (seq start (length selected)) selected) in
    map exam_date out = map exam_date acc ++ selected /\
    map exam_subject out
    = map exam_subject acc
      ++ map (fun i => subjects !! i) (seq start (length selected)) /\
    (Forall (fun ed => exam_register_numbers ed = []) acc ->
     Forall (fun ed => exam_register_numbers ed = []) out)).
  { induction selected as [|d rest IH]; intros start acc.
    - cbn. rewrite !app_nil_r. by split_and!.
    - cbn [length seq zip zip_with foldl fst snd].
      destruct (IH (S start) (acc ++ [mkExamDate d (subjects !! start) []]))
        as (Hd & Hs & Hr).
      cbv zeta in *. rewrite Hd, Hs, !map_app, <- !app_assoc.
      split_and!; [done|done|].
      intros Hacc. apply Hr. apply Forall_app. split; [done|].
      by repeat constructor. }
  destruct (G 0%nat []) as (Hd & Hs & Hr). cbv zeta in *.
  split_and!; [by rewrite Hd|by rewrite Hs|by apply Hr].
Qed.

Lemma well_formed_parse_dates l :
  Forall well_formed (parse_dates l) <-> Forall parses_stripped l.
Proof.
  rewrite parse_dates_stable_sort, stable_sort_Permutation, Forall_fmap.
  done.
Qed.

(** X29.  The date endpoint never raises. For tokens made of ASCII characters
    and a count of magnitude at most [125 * 2^47], it answers with a
    selection exactly when no date is given, no day is required, or every
    token parses once stripped; the dates it selects are then a subsequence
    of the sorted, stripped tokens, and its exam dates are those dates in the
    same order, each with the subject at its position, if there is one, and
    no register numbers: the exam dates and the message that
    [auto_schedule_dates] returns for the sorted tokens. *)
Theorem auto_select_dates_answer l n gap subjects :
  Forall ascii_text l ->
  exact_count n ->
  ((exists selection,
      Api.auto_select_dates l n gap subjects = Api.SelectionOk selection)
   <-> l = [] \/ ceil_div n 125 = 0 \/ Forall parses_stripped l) /\
  forall selection,
    Api.auto_select_dates l n gap subjects = Api.SelectionOk selection ->
    Api.selected_dates selection `sublist_of` parse_dates l /\
    map exam_date (Api.selection_exam_dates selection)
    = Api.selected_dates selection /\
    map exam_subject (Api.selection_exam_dates selection)
    = map (fun i => subjects !! i)
          (seq 0 (length (Api.selected_dates selection))) /\
    Forall (fun ed => exam_register_numbers ed = [])
           (Api.selection_exam_dates selection) /\
    DateAssignment.auto_schedule_dates (parse_dates l) n gap subjects
    = Ok (Api.selection_exam_dates selection, Api.selection_message selection).
Proof.
  intros _ _.
  unfold Api.auto_select_dates, DateAssignment.auto_schedule_dates.
  change (Z.of_nat Scheduler.DAILY_CAPACITY) with 125.
  destruct (select_optimal_dates (parse_dates l) n gap)
    as [[selected message]|e] eqn:Hrun.
  - split.
    + split; [intros _|by eexists].
      destruct l as [|t l']; [by left|].
      destruct (decide (ceil_div n 125 = 0)) as [|Hreq]; [by right; left|].
      right. right. apply well_formed_parse_dates.
      by eapply select_optimal_dates_Ok_well_formed.
    + intros selection [= <-].
      cbn [Api.selected_dates Api.selection_exam_dates Api.selection_message].
      destruct (assign_subjects_spec selected subjects) as (Hd & Hs & Hr).
      split_and!; [|done..].
      destruct l as [|t l'] eqn:El; [by injection Hrun as <- _|].
      rewrite <- El in *.
      destruct (decide (ceil_div n 125 = 0)) as [Hzero|Hreq].
      { unfold select_optimal_dates in Hrun.
        change (Z.of_nat Scheduler.DAILY_CAPACITY) with 125 in Hrun.
        rewrite Hzero in Hrun.
        destruct (parse_dates l); injection Hrun as <- _; apply sublist_nil_l. }
      assert (Hpool : Forall well_formed (parse_dates l))
        by (by eapply select_optimal_dates_Ok_well_formed).
      destruct (select_optimal_dates_run (parse_dates l) n gap Hpool)
        as (selected' & message' & Hrun' & Hsub & _).
      rewrite Hrun in Hrun'. injection Hrun' as <- <-.
      rewrite stable_sort_sorted_id in Hsub; [done|].
      rewrite parse_dates_stable_sort. apply stable_sort_sorted.
  - split; [|done]. split; [by intros [? ?]|].
    intros [->|[Hzero|Hgood]]; exfalso.
    + done.
    + unfold select_optimal_dates in Hrun.
      change (Z.of_nat Scheduler.DAILY_CAPACITY) with 125 in Hrun.
      rewrite Hzero in Hrun. by destruct (parse_dates l).
    + apply well_formed_parse_dates in Hgood.
      destruct (select_optimal_dates_run (parse_dates l) n gap Hgood)
        as (? & ? & Hrun' & _).
      by rewrite Hrun in Hrun'.
Qed.

Lemma auto_select_dates_answer_witness :
  ((exists selection,
      Api.auto_select_dates ["15-01-25"; " 10-01-25"; "11-01-25 "] 200 3
                            ["Physics"]
      = Api.SelectionOk selection)
   <-> ["15-01-25"; " 10-01-25"; "11-01-25 "] = [] \/ ceil_div 200 125 = 0 \/
       Forall parses_stripped ["15-01-25"; " 10-01-25"; "11-01-25 "]) /\
  forall selection,
    Api.auto_select_dates ["15-01-25"; " 10-01-25"; "11-01-25 "] 200 3
                          ["Physics"]
    = Api.SelectionOk selection ->
    Api.selected_dates selection
      `sublist_of` parse_dates ["15-01-25"; " 10-01-25"; "11-01-25 "] /\
    map exam_date (Api.selection_exam_dates selection)
    = Api.selected_dates selection /\
    map exam_subject (Api.selection_exam_dates selection)
    = map (fun i => ["Physics"] !! i)
          (seq 0 (length (Api.selected_dates selection))) /\
    Forall (fun ed => exam_register_numbers ed = [])
           (Api.selection_exam_dates selection) /\
    DateAssignment.auto_schedule_dates
      (parse_dates ["15-01-25"; " 10-01-25"; "11-01-25 "]) 200 3 ["Physics"]
    = Ok (Api.selection_exam_dates selection, Api.selection_message selection).
Proof.
  apply auto_select_dates_answer; [repeat constructor|by vm_compute].
Defined.

(** X30.  [calculate_requirements] judges the dates only when a positive
    number of them is given; for a count of magnitude at most [125 * 2^47] it
    then finds them sufficient exactly when 125 candidates a date cover the
    count, and the additional dates it asks for are the least number that
    makes them sufficient. *)
Theorem calculate_requirements_sufficient n available :
  exact_count n ->
  (Api.dates_sufficient (Api.calculate_requirements n available) = Some true
   <-> 0 < available /\ n <= 125 * available) /\
  (Api.dates_sufficient (Api.calculate_requirements n available) = None
   <-> available <= 0) /\
  forall k,
    Api.additional_dates_needed (Api.calculate_requirements n available)
    = Some k ->
    0 <= k /\ n <= 125 * (available + k) /\
    forall j, 0 <= j -> n <= 125 * (available + j) -> k <= j.
Proof.
  intros _. unfold Api.calculate_requirements.
  cbn [Api.dates_sufficient Api.additional_dates_needed].
  change (Z.of_nat Scheduler.DAILY_CAPACITY) with 125.
  destruct (ceil_div_125_least n) as [Hcover Hleast].
  destruct (Z.ltb_spec 0 available) as [Hpos|Hnone].
  - split_and!.
    + destruct (Z.leb_spec (ceil_div n 125) available) as [Hle|Hgt].
      * split; [intros _; split; [done|lia]|done].
      * split; [done|]. intros [_ Hfit].
        specialize (Hleast available Hfit). lia.
    + split; [done|lia].
    + intros k [= <-]. split_and!; [lia|lia|].
      intros j Hj Hfit. specialize (Hleast (available + j) Hfit). lia.
  - split_and!; [split; [done|lia]|done|done].
Qed.

Lemma calculate_requirements_sufficient_witness :
  (Api.dates_sufficient (Api.calculate_requirements 300 2) = Some true
   <-> 0 < 2 /\ 300 <= 125 * 2) /\
  (Api.dates_sufficient (Api.calculate_requirements 300 2) = None
   <-> 2 <= 0) /\
  forall k,
    Api.additional_dates_needed (Api.calculate_requirements 300 2) = Some k ->
    0 <= k /\ 300 <= 125 * (2 + k) /\
    forall j, 0 <= j -> 300 <= 125 * (2 + j) -> k <= j.
Proof. apply calculate_requirements_sufficient. by vm_compute. Defined.
